(** * EhSyringe: the incremental document-annotation engine

    A shallow embedding of [src/plugin/syringe/index.ts]: the tag node
    tracker ([TagNodeRef]), the node classifier and dispatcher
    ([translateNode], [translateTag], [translateUi]), the text substitution
    engine ([translateUiText]) and the mutation pipeline ([init], the
    observer callback, [updateConfig], [translateTags]).

    The host document is modelled as a store of nodes with parent pointers
    and ordered child lists.  JavaScript strings are sequences of UTF-16
    code units. *)

From Stdlib Require Import String Ascii ZArith DecimalString.
From stdpp Require Import gmap list option.

Local Open Scope N_scope.

(** ** JavaScript strings *)

Abbreviation jsstring := (list N).

(** An ASCII literal as a sequence of code units. *)
Definition js (s : string) : jsstring :=
  N_of_ascii <$> list_ascii_of_string s.

(** JavaScript truthiness of a string: the empty string is falsy. *)
Definition truthy (s : jsstring) : bool :=
  match s with [] => false | _ => true end.

(** Truthiness of [string | undefined]. *)
Definition truthyOpt (s : option jsstring) : bool :=
  match s with Some (_ :: _) => true | _ => false end.

Definition jseqb (a b : jsstring) : bool := bool_decide (a = b).

Fixpoint startsWith (prefix s : jsstring) : bool :=
  match prefix, s with
  | [], _ => true
  | p :: ps, c :: cs => (p =? c) && startsWith ps cs
  | _ :: _, [] => false
  end.

(** [s.includes(sub)] *)
Fixpoint includes (sub s : jsstring) : bool :=
  startsWith sub s ||
  match s with
  | [] => false
  | _ :: t => includes sub t
  end.

(** [s.split(sep)] for a one-unit separator: never empty. *)
Fixpoint split (sep : N) (s : jsstring) : list jsstring :=
  match s with
  | [] => [[]]
  | c :: t =>
      if c =? sep then [] :: split sep t
      else match split sep t with
           | h :: r => (c :: h) :: r
           | [] => [[c]]
           end
  end.

(** [s.replace(/_/gi, ' ')] *)
Definition underscoresToSpaces (s : jsstring) : jsstring :=
  (fun c => if c =? 95 then 32 else c) <$> s.

(** Template-literal rendering of an integer. *)
Definition numberToString (z : Z) : jsstring :=
  match z with
  | Z0 => js "0"
  | Zpos p => js (NilEmpty.string_of_uint (Pos.to_uint p))
  | Zneg p => js "-" ++ js (NilEmpty.string_of_uint (Pos.to_uint p))
  end.

(** ** The document *)

Inductive NodeType :=
| ELEMENT_NODE
| TEXT_NODE
| COMMENT_NODE
| DOCUMENT_NODE
| DOCUMENT_FRAGMENT_NODE.

#[global] Instance NodeType_eq_dec : EqDecision NodeType.
Proof. solve_decision. Defined.

(** Content a script assigned to an element as a whole.  The child nodes
    such an assignment creates are not given identities in the store; the
    element records the assigned value instead. *)
Inductive Assigned :=
| ByInnerText (s : jsstring)
| ByInnerHTML (s : jsstring)
| ByTextContent (s : jsstring).

Record DomNode := mkDomNode {
  nodeType : NodeType;
  nodeName : jsstring;
  parentNode : option N;
  childNodes : list N;
  attributes : gmap jsstring jsstring;
  classList : list jsstring;
  data : jsstring;                (* character data of a Text node *)
  assigned : option Assigned;
  inputType : jsstring;           (* the [type] property of a form control *)
  value : jsstring                (* the [value] property of a form control *)
}.

Definition setParentNode (p : option N) (nd : DomNode) : DomNode :=
  mkDomNode (nodeType nd) (nodeName nd) p (childNodes nd) (attributes nd)
            (classList nd) (data nd) (assigned nd) (inputType nd) (value nd).

Definition setChildNodes (cs : list N) (nd : DomNode) : DomNode :=
  mkDomNode (nodeType nd) (nodeName nd) (parentNode nd) cs (attributes nd)
            (classList nd) (data nd) (assigned nd) (inputType nd) (value nd).

Definition setAttributes (a : gmap jsstring jsstring) (nd : DomNode) : DomNode :=
  mkDomNode (nodeType nd) (nodeName nd) (parentNode nd) (childNodes nd) a
            (classList nd) (data nd) (assigned nd) (inputType nd) (value nd).

Definition setClassList (cl : list jsstring) (nd : DomNode) : DomNode :=
  mkDomNode (nodeType nd) (nodeName nd) (parentNode nd) (childNodes nd)
            (attributes nd) cl (data nd) (assigned nd) (inputType nd) (value nd).

Definition setData (d : jsstring) (nd : DomNode) : DomNode :=
  mkDomNode (nodeType nd) (nodeName nd) (parentNode nd) (childNodes nd)
            (attributes nd) (classList nd) d (assigned nd) (inputType nd) (value nd).

Definition setAssigned (a : option Assigned) (nd : DomNode) : DomNode :=
  mkDomNode (nodeType nd) (nodeName nd) (parentNode nd) (childNodes nd)
            (attributes nd) (classList nd) (data nd) a (inputType nd) (value nd).

Definition setValue (v : jsstring) (nd : DomNode) : DomNode :=
  mkDomNode (nodeType nd) (nodeName nd) (parentNode nd) (childNodes nd)
            (attributes nd) (classList nd) (data nd) (assigned nd) (inputType nd) v.

(** A [NodeIterator] of the document (whatToShow = all, no filter). *)
Record NodeIterator := mkNodeIterator {
  root : N;
  referenceNode : N;
  pointerBeforeReferenceNode : bool
}.

Record Dom := mkDom {
  nodes : gmap N DomNode;
  nextId : N;                           (* identity of the next created node *)
  nodeIterator : option NodeIterator;   (* the iterator currently in use *)
  documentNode : N                      (* [window.document] *)
}.

Definition withNodes (m : gmap N DomNode) (d : Dom) : Dom :=
  mkDom m (nextId d) (nodeIterator d) (documentNode d).

Definition withIterator (it : option NodeIterator) (d : Dom) : Dom :=
  mkDom (nodes d) (nextId d) it (documentNode d).

Definition updNode (f : DomNode -> DomNode) (n : N) (d : Dom) : Dom :=
  withNodes (alter f n (nodes d)) d.

(** *** Reading the tree *)

Definition nodeNameOf (d : Dom) (n : N) : jsstring :=
  from_option nodeName [] (nodes d !! n).

Definition isElement (d : Dom) (n : N) : bool :=
  match nodes d !! n with
  | Some nd => bool_decide (nodeType nd = ELEMENT_NODE)
  | None => false
  end.

Definition parentNodeOf (d : Dom) (n : N) : option N :=
  nodes d !! n ≫= parentNode.

(** [node.parentElement]: the parent when it is an element. *)
Definition parentElement (d : Dom) (n : N) : option N :=
  match parentNodeOf d n with
  | Some p => if isElement d p then Some p else None
  | None => None
  end.

Definition childNodesOf (d : Dom) (n : N) : list N :=
  from_option childNodes [] (nodes d !! n).

Definition getAttribute (d : Dom) (n : N) (k : jsstring) : option jsstring :=
  nodes d !! n ≫= fun nd => attributes nd !! k.

Definition hasAttribute (d : Dom) (n : N) (k : jsstring) : bool :=
  bool_decide (is_Some (getAttribute d n k)).

(** A reflected string property ([id], [title], [placeholder], [label]):
    the attribute value, or the empty string. *)
Definition reflected (d : Dom) (n : N) (k : jsstring) : jsstring :=
  default [] (getAttribute d n k).

Definition classListContains (d : Dom) (n : N) (c : jsstring) : bool :=
  match nodes d !! n with
  | Some nd => bool_decide (c ∈ classList nd)
  | None => false
  end.

Definition dataOf (d : Dom) (n : N) : jsstring :=
  from_option data [] (nodes d !! n).

(** Inclusive descendants of [n] in tree order (pre-order, depth first). *)
Fixpoint subtree (fuel : nat) (d : Dom) (n : N) : list N :=
  n :: match fuel with
       | O => []
       | S f => childNodesOf d n ≫= subtree f d
       end.

Definition treeOrder (d : Dom) (n : N) : list N :=
  subtree (size (nodes d)) d n.

(** Inclusive ancestors of [n], nearest first. *)
Fixpoint inclusiveAncestors (fuel : nat) (d : Dom) (n : N) : list N :=
  n :: match fuel with
       | O => []
       | S f => match parentNodeOf d n with
                | Some p => inclusiveAncestors f d p
                | None => []
                end
       end.

(** [node.isConnected]: the document is an inclusive ancestor. *)
Definition isConnected (d : Dom) (n : N) : bool :=
  bool_decide (documentNode d ∈ inclusiveAncestors (size (nodes d)) d n).

(** The element following the first occurrence of [x] in [l]. *)
Fixpoint following (x : N) (l : list N) : option N :=
  match l with
  | [] => None
  | y :: t => if x =? y then head t else following x t
  end.

(** *** Mutating the tree *)

Definition setAttribute (d : Dom) (n : N) (k v : jsstring) : Dom :=
  updNode (fun nd => setAttributes (<[k := v]> (attributes nd)) nd) n d.

(** [classList.add(c)]: an ordered set of tokens. *)
Definition classListAdd (d : Dom) (n : N) (c : jsstring) : Dom :=
  updNode (fun nd =>
    if bool_decide (c ∈ classList nd) then nd
    else setClassList (classList nd ++ [c]) nd) n d.

(** [classList.remove(...tokens)] for the tokens satisfying [p]. *)
Definition classListRemoveIf (d : Dom) (n : N) (p : jsstring -> bool) : Dom :=
  updNode (fun nd =>
    setClassList (List.filter (fun c => negb (p c)) (classList nd)) nd) n d.

(** The part of [l] after the first occurrence of [x]. *)
Fixpoint dropUntil (x : N) (l : list N) : list N :=
  match l with
  | [] => []
  | y :: t => if x =? y then t else dropUntil x t
  end.

(** NodeIterator pre-removing steps, for the removal of every child of
    [e] in tree order.  A removed child that is an inclusive ancestor of
    the reference (and is not the root) moves the reference: with the
    pointer after the reference it ends on [e] (each child is removed when
    it has no previous sibling left); with the pointer before it, on the
    first node of the root's subtree after the subtree of [e], if any. *)
Definition preRemoving (d : Dom) (e : N) (it : NodeIterator) : NodeIterator :=
  let removed a :=
    bool_decide (parentNodeOf d a = Some e) && negb (a =? root it) in
  if existsb removed (inclusiveAncestors (size (nodes d)) d (referenceNode it))
  then
    if pointerBeforeReferenceNode it then
      let inside := treeOrder d e in
      match List.filter (fun x => bool_decide (x ∉ inside))
                        (dropUntil e (treeOrder d (root it))) with
      | nx :: _ => mkNodeIterator (root it) nx true
      | [] => mkNodeIterator (root it) e false
      end
    else mkNodeIterator (root it) e false
  else it.

Definition orphan (e : N) (nd : DomNode) : DomNode :=
  if bool_decide (parentNode nd = Some e) then setParentNode None nd else nd.

(** Remove all children of [e] (the "replace all" of an [innerText],
    [innerHTML] or [textContent] assignment). *)
Definition removeChildren (d : Dom) (e : N) : Dom :=
  mkDom (alter (setChildNodes []) e (orphan e <$> nodes d))
        (nextId d)
        (preRemoving d e <$> nodeIterator d)
        (documentNode d).

Definition assign (d : Dom) (e : N) (a : Assigned) : Dom :=
  updNode (setAssigned (Some a)) e (removeChildren d e).

(** [e.innerText = s] *)
Definition setInnerText (d : Dom) (e : N) (s : jsstring) : Dom :=
  assign d e (ByInnerText s).

(** [e.innerHTML = s] *)
Definition setInnerHTML (d : Dom) (e : N) (s : jsstring) : Dom :=
  assign d e (ByInnerHTML s).

Definition isTextNode (d : Dom) (n : N) : bool :=
  match nodes d !! n with
  | Some nd => bool_decide (nodeType nd = TEXT_NODE)
  | None => false
  end.

(** [n.textContent = s]: character data for a Text node, replacement of
    the children for an element. *)
Definition setTextContent (d : Dom) (n : N) (s : jsstring) : Dom :=
  if isTextNode d n then updNode (setData s) n d
  else assign d n (ByTextContent s).

(** The text an assigned content contributes to [textContent]: an
    [innerText] assignment turns line breaks into [br] elements, which
    contribute nothing; [html] is the text content of parsed markup. *)
Definition assignedText (html : jsstring -> jsstring) (a : option Assigned)
  : jsstring :=
  match a with
  | None => []
  | Some (ByInnerText s) =>
      List.filter (fun c => negb ((c =? 10) || (c =? 13))) s
  | Some (ByInnerHTML s) => html s
  | Some (ByTextContent s) => s
  end.

(** [n.textContent] (getter). *)
Definition textContent (html : jsstring -> jsstring) (d : Dom) (n : N)
  : jsstring :=
  if isTextNode d n then dataOf d n
  else
    treeOrder d n ≫= fun x =>
      match nodes d !! x with
      | Some nd =>
          match nodeType nd with
          | TEXT_NODE => data nd
          | ELEMENT_NODE => assignedText html (assigned nd)
          | _ => []
          end
      | None => []
      end.

Definition blankNode (ty : NodeType) (name : jsstring) : DomNode :=
  mkDomNode ty name None [] ∅ [] [] None [] [].

(** [document.createElement(name)]: the new element and the document. *)
Definition createElement (d : Dom) (name : jsstring) : Dom * N :=
  (mkDom (<[nextId d := blankNode ELEMENT_NODE name]> (nodes d))
         (N.succ (nextId d)) (nodeIterator d) (documentNode d),
   nextId d).

Fixpoint insertAt (new : N) (ref : option N) (l : list N) : list N :=
  match l with
  | [] => [new]
  | y :: t => if bool_decide (ref = Some y) then new :: y :: t
              else y :: insertAt new ref t
  end.

(** [parent.insertBefore(new, ref)] for a node [new] that has no parent
    yet; [ref = None] appends. *)
Definition insertBefore (d : Dom) (parent new : N) (ref : option N) : Dom :=
  updNode (setParentNode (Some parent)) new
    (updNode (fun nd => setChildNodes (insertAt new ref (childNodes nd)) nd)
             parent d).

(** [document.createNodeIterator(root)] *)
Definition createNodeIterator (d : Dom) (r : N) : Dom :=
  withIterator (Some (mkNodeIterator r r true)) d.

(** [nodeIterator.nextNode()]: the reference itself while the pointer is
    before it, else the first node following the reference in tree order
    inside the root. *)
Definition nextNode (d : Dom) : Dom * option N :=
  match nodeIterator d with
  | None => (d, None)
  | Some it =>
      if pointerBeforeReferenceNode it
      then (withIterator (Some (mkNodeIterator (root it) (referenceNode it) false)) d,
            Some (referenceNode it))
      else match following (referenceNode it) (treeOrder d (root it)) with
           | Some n => (withIterator (Some (mkNodeIterator (root it) n false)) d,
                        Some n)
           | None => (d, None)
           end
  end.

(** [document.querySelector('body')]: the first [BODY] element of the
    document in tree order. *)
Definition querySelectorBody (d : Dom) : option N :=
  head (List.filter
          (fun n => isElement d n && jseqb (nodeNameOf d n) (js "BODY"))
          (treeOrder d (documentNode d))).

(** ** Collaborators and state *)

Module ConfigData.
Record t := mk {
  translateTag : bool;
  translateUi : bool;
  showIcon : bool;
  introduceImageLevel : Z
}.
End ConfigData.

Module Tagging.
(** [fullKey({namespace, key})]; [key] can be [undefined]. *)
Record t := mk {
  fullKey : jsstring -> option jsstring -> jsstring;
  markImagesAndEmoji : jsstring -> jsstring;
  removeImagesAndEmoji : jsstring -> jsstring
}.
End Tagging.

Module DateTime.
(** [diff(date, reference | undefined, unit)], rendered as a string. *)
Record t := mk {
  diff : Z -> option Z -> N -> jsstring;
  hour : N
}.
End DateTime.

Module UiTranslation.
(** [plainReplacements] is the exact-match dictionary; each entry of
    [regexReplacements] is the effect of [s.replace(k, v)] for one
    [(k, v)] rule, in the dictionary's order. *)
Record t := mk {
  plainReplacements : gmap jsstring jsstring;
  regexReplacements : list (jsstring -> jsstring)
}.
End UiTranslation.

Module SyncStorage.
Record t := mk {
  config : ConfigData.t;
  databaseMap : option (gmap jsstring jsstring);
  databaseSha : option jsstring
}.
End SyncStorage.

(** The browser: the document, [location.host], [Date.parse] ([None] is
    [NaN]) and the text content of parsed markup. *)
Module Window.
Record t := mk {
  document : Dom;
  locationHost : jsstring;
  DateParse : jsstring -> option Z;
  htmlText : jsstring -> jsstring
}.
End Window.

Record TagNodeRef := mkTagNodeRef {
  parent : N;
  fullKey : jsstring;
  original : jsstring
}.

#[global] Instance TagNodeRef_eq_dec : EqDecision TagNodeRef.
Proof. solve_decision. Defined.

Record Syringe := mkSyringe {
  storage : SyncStorage.t;
  uiData : UiTranslation.t;
  tagging : Tagging.t;
  time : DateTime.t;
  window : Window.t;
  tagMap : option (gmap jsstring jsstring);
  tags : list TagNodeRef;
  documentEnd : bool;
  config : ConfigData.t
}.

Definition doc (sv : Syringe) : Dom := Window.document (window sv).

Definition withDoc (d : Dom) (sv : Syringe) : Syringe :=
  mkSyringe (storage sv) (uiData sv) (tagging sv) (time sv)
    (Window.mk d (Window.locationHost (window sv))
               (Window.DateParse (window sv)) (Window.htmlText (window sv)))
    (tagMap sv) (tags sv) (documentEnd sv) (config sv).

Definition withStorage (st : SyncStorage.t) (sv : Syringe) : Syringe :=
  mkSyringe st (uiData sv) (tagging sv) (time sv) (window sv)
    (tagMap sv) (tags sv) (documentEnd sv) (config sv).

Definition withTagMap (m : option (gmap jsstring jsstring)) (sv : Syringe)
  : Syringe :=
  mkSyringe (storage sv) (uiData sv) (tagging sv) (time sv) (window sv)
    m (tags sv) (documentEnd sv) (config sv).

Definition withTags (ts : list TagNodeRef) (sv : Syringe) : Syringe :=
  mkSyringe (storage sv) (uiData sv) (tagging sv) (time sv) (window sv)
    (tagMap sv) ts (documentEnd sv) (config sv).

Definition withDocumentEnd (b : bool) (sv : Syringe) : Syringe :=
  mkSyringe (storage sv) (uiData sv) (tagging sv) (time sv) (window sv)
    (tagMap sv) (tags sv) b (config sv).

Definition withConfig (c : ConfigData.t) (sv : Syringe) : Syringe :=
  mkSyringe (storage sv) (uiData sv) (tagging sv) (time sv) (window sv)
    (tagMap sv) (tags sv) (documentEnd sv) c.

(** ** Helpers of the module *)

Definition toUpperCase (s : jsstring) : jsstring :=
  (fun c => if (97 <=? c) && (c <=? 122) then c - 32 else c) <$> s.

(** [isNode(node, nodeName)] *)
Definition isNode (d : Dom) (node : N) (name : jsstring) : bool :=
  bool_decide (is_Some (nodes d !! node))
  && jseqb (nodeNameOf d node) (toUpperCase name).

(** [isText(node)] *)
Definition isText (d : Dom) (node : N) : bool := isTextNode d node.

(** ** TagNodeRef *)

Definition ATTR : jsstring := js "ehs-tag".

(** The key derivation of [TagNodeRef.create]: [undefined] is [None]. *)
Definition fullKeyCandidate (tg : Tagging.t) (aId aTitle : jsstring)
  : option jsstring :=
  if truthy aTitle then
    let parts := split 58 aTitle in
    Some (Tagging.fullKey tg (default [] (parts !! 0%nat)) (parts !! 1%nat))
  else if truthy aId then
    let id := if startsWith (js "ta_") aId then drop 3 aId else aId in
    let parts := split 58 (underscoresToSpaces id) in
    let namespace := default [] (parts !! 0%nat) in
    let key := parts !! 1%nat in
    Some (if truthyOpt key
          then Tagging.fullKey tg namespace key
          else Tagging.fullKey tg [] (Some namespace))
  else None.

(** The constructor: marks the element and backfills its title. *)
Definition construct (d : Dom) (t : TagNodeRef) : Dom :=
  let d1 := setAttribute d (parent t) ATTR (original t) in
  let d2 := setAttribute d1 (parent t) (js "lang") (js "en") in
  if hasAttribute d2 (parent t) (js "title") then d2
  else setAttribute d2 (parent t) (js "title") (fullKey t).

Inductive Created :=
| NewRef (t : TagNodeRef)
| Boolean (b : bool).

(** [TagNodeRef.create(node, service)] *)
Definition create (sv : Syringe) (node : N) : Syringe * Created :=
  match parentElement (doc sv) node with
  | None => (sv, Boolean true)
  | Some parentElement =>
      if hasAttribute (doc sv) parentElement ATTR then (sv, Boolean true)
      else
        let aId := reflected (doc sv) parentElement (js "id") in
        let aTitle := reflected (doc sv) parentElement (js "title") in
        match fullKeyCandidate (tagging sv) aId aTitle with
        | Some (c :: k) =>
            let text := dataOf (doc sv) node in
            let t := mkTagNodeRef parentElement (c :: k) text in
            (withDoc (construct (doc sv) t) sv, NewRef t)
        | _ => (sv, Boolean false)
        end
  end.

(** [get alive()] *)
Definition alive (sv : Syringe) (t : TagNodeRef) : bool :=
  bool_decide (is_Some (parentElement (doc sv) (parent t))).

(** [translate()]: the state afterwards and the returned flag. *)
Definition translate (sv : Syringe) (t : TagNodeRef) : Syringe * bool :=
  if negb (alive sv t) then (sv, true)
  else if negb (ConfigData.translateTag (config sv)) then
    let d1 := setInnerText (doc sv) (parent t) (original t) in
    (withDoc (setAttribute d1 (parent t) (js "lang") (js "en")) sv, true)
  else
    match tagMap sv with
    | None => (sv, false)
    | Some m =>
        match m !! fullKey t with
        | Some (c :: v) =>
            let value := c :: v in
            let value :=
              if ConfigData.showIcon (config sv)
              then Tagging.markImagesAndEmoji (tagging sv) value
              else Tagging.removeImagesAndEmoji (tagging sv) value in
            let value :=
              if bool_decide (original t !! 1%nat = Some 58)
              then take 1 (original t) ++ js ":" ++ value
              else value in
            let d1 := setInnerHTML (doc sv) (parent t) value in
            (withDoc (setAttribute d1 (parent t) (js "lang") (js "cmn-Hans")) sv,
             true)
        | _ => (sv, false)
        end
    end.

(** ** Syringe *)

(** [translateTags()]: drop the dead entries, translate the others. *)
Definition translateTags (sv : Syringe) : Syringe :=
  let tags := List.filter (alive sv) (tags sv) in
  fold_left (fun s t => fst (translate s t)) tags (withTags tags sv).

Definition skipNode : list jsstring :=
  [js "TITLE"; js "LINK"; js "META"; js "HEAD"; js "SCRIPT"; js "BR";
   js "HR"; js "STYLE"; js "MARK"].

Definition skipNodeHas (name : jsstring) : bool :=
  bool_decide (name ∈ skipNode).

(** [setBodyAttrs(node)] *)
Definition setBodyAttrs (sv : Syringe) (node : N) : Syringe :=
  let c := config sv in
  let d := doc sv in
  let d := classListAdd d node
             (if negb (includes (js "exhentai") (Window.locationHost (window sv)))
              then js "eh" else js "ex") in
  let d := classListRemoveIf d node (startsWith (js "ehs")) in
  let d := if negb (ConfigData.showIcon c)
           then classListAdd d node (js "ehs-hide-icon") else d in
  let d := if ConfigData.translateTag c
           then classListAdd d node (js "ehs-translate-tag") else d in
  let d := if ConfigData.translateUi c
           then setAttribute d node (js "lang") (js "cmn-Hans")
           else setAttribute d node (js "lang") (js "en") in
  let d := classListAdd d node
             (js "ehs-image-level-"
              ++ numberToString (ConfigData.introduceImageLevel c)) in
  withDoc d sv.

(** [isTagContainer(node)] for [Element | null]. *)
Definition isTagContainer (d : Dom) (node : option N) : bool :=
  match node with
  | None => false
  | Some n =>
      classListContains d n (js "gt") || classListContains d n (js "gtl")
      || classListContains d n (js "gtw")
  end.

(** [translateTag(node)]: the state afterwards and the [handled] flag. *)
Definition translateTag (sv : Syringe) (node : N) : Syringe * bool :=
  match parentElement (doc sv) node with
  | Some parentElt =>
      if negb (isText (doc sv) node) then (sv, false)
      else if jseqb (nodeNameOf (doc sv) parentElt) (js "MARK")
              || classListContains (doc sv) parentElt (js "auto-complete-text")
      then (sv, true)
      else if negb (isTagContainer (doc sv) (Some parentElt))
              && negb (isTagContainer (doc sv) (parentElement (doc sv) parentElt))
      then (sv, false)
      else
        match create sv node with
        | (sv1, Boolean b) => (sv1, b)
        | (sv1, NewRef ref) =>
            let sv2 := fst (translate sv1 ref) in
            (withTags (tags sv2 ++ [ref]) sv2, true)
        end
  | None => (sv, false)
  end.

(** ** Text substitution *)

Definition isDigit (c : N) : bool := (48 <=? c) && (c <=? 57).

(** [\w] without the unicode flag. *)
Definition isWord (c : N) : bool :=
  isDigit c || ((65 <=? c) && (c <=? 90)) || ((97 <=? c) && (c <=? 122))
  || (c =? 95).

Inductive Atom :=
| D              (* \d *)
| L (c : N).     (* a literal code unit *)

Definition atomMatches (a : Atom) (c : N) : bool :=
  match a with
  | D => isDigit c
  | L x => x =? c
  end.

(** Match a sequence of atoms at the head of [s]: the rest on success. *)
Fixpoint matchAtoms (p : list Atom) (s : jsstring) : option jsstring :=
  match p, s with
  | [], _ => Some s
  | a :: p', c :: s' => if atomMatches a c then matchAtoms p' s' else None
  | _ :: _, [] => None
  end.

Definition lits (s : string) : list Atom := L <$> js s.

(** [/\d\d\d\d-\d\d-\d\d \d\d:\d\d/] at the head of [s]: the length of
    the match. *)
Definition isoStamp (s : jsstring) : option nat :=
  match matchAtoms ([D; D; D; D] ++ lits "-" ++ [D; D] ++ lits "-" ++ [D; D]
                    ++ lits " " ++ [D; D] ++ lits ":" ++ [D; D]) s with
  | Some _ => Some 16%nat
  | None => None
  end.

(** A greedy [\w{lo, lo+k}] followed by [cont], with backtracking: the
    length of the whole match from the start of the run. *)
Fixpoint wordRun (lo k : nat) (s : jsstring)
    (cont : jsstring -> option nat) : option nat :=
  let n := (lo + k)%nat in
  let here :=
    if bool_decide (length (take n s) = n) && forallb isWord (take n s)
    then (fun m => (n + m)%nat) <$> cont (drop n s)
    else None in
  match here with
  | Some m => Some m
  | None => match k with
            | O => None
            | S k' => wordRun lo k' s cont
            end
  end.

(** [/\d\d \w{2,10} \d\d\d\d, \d\d:\d\d/i] at the head of [s]. *)
Definition longStamp (s : jsstring) : option nat :=
  match matchAtoms ([D; D] ++ lits " ") s with
  | Some s1 =>
      (fun m => (3 + m)%nat) <$>
      wordRun 2 8 s1 (fun s2 =>
        match matchAtoms (lits " " ++ [D; D; D; D] ++ lits ", " ++ [D; D]
                          ++ lits ":" ++ [D; D]) s2 with
        | Some _ => Some 12%nat
        | None => None
        end)
  | None => None
  end.

(** [s.replace(re, f)] for a global regular expression [re] given by its
    matcher [m] at a position (matches are never empty): leftmost
    matches, not overlapping, each replaced by [f] of the matched text.
    [skip] counts the units of the current match still to be passed. *)
Fixpoint replaceGlobal (m : jsstring -> option nat)
    (f : jsstring -> jsstring) (skip : nat) (s : jsstring) : jsstring :=
  match skip with
  | S k => match s with
           | [] => []
           | _ :: t => replaceGlobal m f k t
           end
  | O =>
      match m s with
      | Some (S k) =>
          f (take (S k) s)
          ++ match s with
             | [] => []
             | _ :: t => replaceGlobal m f k t
             end
      | _ => match s with
             | [] => []
             | c :: t => c :: replaceGlobal m f O t
             end
      end
  end.

(** The callback of both timestamp replacements: [!date] holds for [NaN]
    and for [0]. *)
Definition relativeTime (sv : Syringe) (suffix : jsstring) (t : jsstring)
  : jsstring :=
  match Window.DateParse (window sv) (t ++ suffix) with
  | None => t
  | Some 0%Z => t
  | Some date => DateTime.diff (time sv) date None (DateTime.hour (time sv))
  end.

Definition applyRules (rules : list (jsstring -> jsstring)) (text : jsstring)
  : jsstring :=
  fold_left (fun repText rule => rule repText) rules text.

Definition normalizeDates (sv : Syringe) (repText : jsstring) : jsstring :=
  let repText := replaceGlobal isoStamp (relativeTime sv (js "Z")) 0 repText in
  replaceGlobal longStamp (relativeTime sv (js " UTC")) 0 repText.

(** [translateUiText(text)]: [undefined] is [None]. *)
Definition translateUiText (sv : Syringe) (text : jsstring) : option jsstring :=
  match UiTranslation.plainReplacements (uiData sv) !! text with
  | Some plain => Some plain
  | None =>
      let repText :=
        applyRules (UiTranslation.regexReplacements (uiData sv)) text in
      let repText := normalizeDates sv repText in
      if bool_decide (repText ≠ text) then Some repText else None
  end.

(** *** The page counter rewrite of [translateUi] *)

Fixpoint spanOf (p : N -> bool) (s : jsstring) : jsstring * jsstring :=
  match s with
  | c :: t => if p c then let (a, b) := spanOf p t in (c :: a, b)
              else ([], s)
  | [] => ([], [])
  end.

Definition isCount (c : N) : bool := isDigit c || (c =? 44).

(** [[\d,]+] then the literal [lit]. *)
Definition countThen (lit : string) (s : jsstring)
  : option (jsstring * jsstring) :=
  match spanOf isCount s with
  | ([], _) => None
  | (g, rest) => (fun r => (g, r)) <$> matchAtoms (lits lit) rest
  end.

(** [/Showing ([\d,]+) - ([\d,]+) of ([\d,]+) images?/] at the head of
    [s]: the three groups and the text after the match. *)
Definition showing (s : jsstring)
  : option (jsstring * jsstring * jsstring * jsstring) :=
  s1 ← matchAtoms (lits "Showing ") s;
  '(g1, s2) ← countThen " - " s1;
  '(g2, s3) ← countThen " of " s2;
  '(g3, s4) ← countThen " image" s3;
  Some (g1, g2, g3,
        match s4 with
        | c :: t => if c =? 115 then t else s4
        | [] => s4
        end).

(** The replacement ['$1 - $2，共 $3 张图片']. *)
Definition showingReplacement (g1 g2 g3 : jsstring) : jsstring :=
  g1 ++ js " - " ++ g2 ++ [65292; 20849; 32] ++ g3
  ++ [32; 24352; 22270; 29255].

(** [text.replace(/Showing .../, ...)]: the first match only. *)
Fixpoint replaceShowing (s : jsstring) : jsstring :=
  match showing s with
  | Some (g1, g2, g3, rest) => showingReplacement g1 g2 g3 ++ rest
  | None => match s with
            | [] => []
            | c :: t => c :: replaceShowing t
            end
  end.

(** ** Dispatch *)

Definition textContentOf (sv : Syringe) (n : N) : jsstring :=
  textContent (Window.htmlText (window sv)) (doc sv) n.

(** [node.style.display = 'none'] *)
Definition hide (d : Dom) (n : N) : Dom :=
  setAttribute d n (js "style") (js "display: none;").

(** [node.className = c] *)
Definition setClassName (d : Dom) (n : N) (c : jsstring) : Dom :=
  updNode (setClassList [c]) n d.

(** The text branch of [translateUi]. *)
Definition translateUiTextNode (sv : Syringe) (node : N) : Syringe :=
  let text := dataOf (doc sv) node in
  match translateUiText sv text with
  | Some translation => withDoc (setTextContent (doc sv) node translation) sv
  | None => sv
  end.

(** [node.type] and [node.value] of a form control. *)
Definition typeOf (d : Dom) (n : N) : jsstring :=
  from_option inputType [] (nodes d !! n).

Definition valueOf (d : Dom) (n : N) : jsstring :=
  from_option value [] (nodes d !! n).

(** The [input] / [textarea] branch of [translateUi]. *)
Definition translateUiControl (sv : Syringe) (node : N) : Syringe :=
  let placeholder := reflected (doc sv) node (js "placeholder") in
  let sv1 :=
    if truthy placeholder then
      match translateUiText sv placeholder with
      | Some translation =>
          withDoc (setAttribute (doc sv) node (js "placeholder") translation) sv
      | None => sv
      end
    else sv in
  let type := typeOf (doc sv1) node in
  if jseqb type (js "submit") || jseqb type (js "button") then
    match translateUiText sv1 (valueOf (doc sv1) node) with
    | Some translation => withDoc (updNode (setValue translation) node (doc sv1)) sv1
    | None => sv1
    end
  else sv1.

(** The [optgroup] branch of [translateUi]. *)
Definition translateUiOptgroup (sv : Syringe) (node : N) : Syringe :=
  match translateUiText sv (reflected (doc sv) node (js "label")) with
  | Some translation =>
      withDoc (setAttribute (doc sv) node (js "label") translation) sv
  | None => sv
  end.

(** The links of the navigation bar. *)
Definition translateUiNav (sv : Syringe) (node : N) : Syringe :=
  if isNode (doc sv) node (js "a")
     && match parentElement (doc sv) node ≫= parentElement (doc sv) with
        | Some g => jseqb (reflected (doc sv) g (js "id")) (js "nb")
        | None => false
        end
  then
    match translateUiText sv (textContentOf sv node) with
    | Some translation => withDoc (setTextContent (doc sv) node translation) sv
    | None => sv
    end
  else sv.

(** The page counter: a translated copy is put before the node, which is
    kept and hidden. *)
Definition translateUiPageCounter (sv : Syringe) (node : N) : Syringe :=
  if isNode (doc sv) node (js "p") && classListContains (doc sv) node (js "gpc")
  then
    let text := textContentOf sv node in
    let (d, p) := createElement (doc sv) (js "P") in
    let d := setTextContent d p (replaceShowing text) in
    let d := setClassName d p (js "gpc-translate") in
    let d := match parentElement d node with
             | Some pe => insertBefore d pe p (Some node)
             | None => d
             end in
    withDoc (hide d node) sv
  else sv.

(** The two [div] compatibility copies. *)
Definition translateUiDiv (sv : Syringe) (node : N) : Syringe :=
  if isNode (doc sv) node (js "div") then
    let sv1 :=
      if jseqb (reflected (doc sv) node (js "id")) (js "gdd") then
        let (d, div) := createElement (doc sv) (js "DIV") in
        let d := setTextContent d div (textContentOf sv node) in
        let d := hide d div in
        withDoc (insertBefore d node div None) sv
      else sv in
    match parentElement (doc sv1) node with
    | Some pe =>
        if jseqb (reflected (doc sv1) pe (js "id")) (js "gdo4")
           && classListContains (doc sv1) node (js "ths")
           && classListContains (doc sv1) node (js "nosel")
        then
          let (d, div) := createElement (doc sv1) (js "DIV") in
          let d := setTextContent d div (textContentOf sv1 node) in
          let d := hide d div in
          let d := setClassName d div (js "ths") in
          withDoc (insertBefore d pe div (Some node)) sv1
        else sv1
    | None => sv1
    end
  else sv.

(** [translateUi(node)] *)
Definition translateUi (sv : Syringe) (node : N) : Syringe :=
  if isText (doc sv) node then translateUiTextNode sv node
  else if isNode (doc sv) node (js "input") || isNode (doc sv) node (js "textarea")
  then translateUiControl sv node
  else if isNode (doc sv) node (js "optgroup") then translateUiOptgroup sv node
  else
    let sv := translateUiNav sv node in
    let sv := translateUiPageCounter sv node in
    translateUiDiv sv node.

(** The guard at the head of [translateNode]. *)
Definition skipped (d : Dom) (node : N) : bool :=
  negb (truthy (nodeNameOf d node))
  || skipNodeHas (nodeNameOf d node)
  || match parentNodeOf d node with
     | Some p => skipNodeHas (nodeNameOf d p)
     | None => false
     end.

(** [translateNode(node)] *)
Definition translateNode (sv : Syringe) (node : N) : Syringe :=
  if skipped (doc sv) node then sv
  else
    let sv := if isNode (doc sv) node (js "body") then setBodyAttrs sv node
              else sv in
    let (sv, handled) := translateTag sv node in
    if negb handled && ConfigData.translateUi (config sv)
    then translateUi sv node
    else sv.

(** ** The pipeline *)

(** [updateConfig(config)] *)
Definition updateConfig (sv : Syringe) (c : ConfigData.t) : Syringe :=
  let sv := withConfig c sv in
  let sv := withStorage
              (SyncStorage.mk c (SyncStorage.databaseMap (storage sv))
                              (SyncStorage.databaseSha (storage sv))) sv in
  let sv := match querySelectorBody (doc sv) with
            | Some body => setBodyAttrs sv body
            | None => sv
            end in
  match tagMap sv with
  | Some _ => translateTags sv
  | None => sv
  end.

(** The loop [while (node) { translateNode(node); node = it.nextNode() }]
    after a first [nextNode()]: the state and the nodes handed to
    [translateNode], in order; [None] when [fuel] iterations do not
    exhaust the iterator. *)
Fixpoint traverse (fuel : nat) (sv : Syringe) (seen : list N)
  : option (Syringe * list N) :=
  match fuel with
  | O => None
  | S f =>
      match nextNode (doc sv) with
      | (d, Some node) => traverse f (translateNode (withDoc d sv) node) (seen ++ [node])
      | (d, None) => Some (withDoc d sv, seen)
      end
  end.

(** The observer's handling of one added node.  [node1.childNodes] is a
    node list, which is truthy even when empty. *)
Definition addedNode (fuel : nat) (sv : Syringe) (node1 : N)
  : option (Syringe * list N) :=
  let sv := translateNode sv node1 in
  if documentEnd sv && true then
    traverse fuel (withDoc (createNodeIterator (doc sv) node1) sv) [node1]
  else Some (sv, [node1]).

(** The observer callback: every added node of every mutation record. *)
Fixpoint observe (fuel : nat) (sv : Syringe) (added : list N)
  : option (Syringe * list N) :=
  match added with
  | [] => Some (sv, [])
  | node1 :: rest =>
      '(sv1, l1) ← addedNode fuel sv node1;
      '(sv2, l2) ← observe fuel sv1 rest;
      Some (sv2, l1 ++ l2)
  end.

(** The synchronous part of [init()]: the walk over the body. *)
Definition init (fuel : nat) (sv : Syringe) : option (Syringe * list N) :=
  match querySelectorBody (doc sv) with
  | Some body =>
      let sv := setBodyAttrs sv body in
      traverse fuel (withDoc (createNodeIterator (doc sv) body) sv) []
  | None => Some (sv, [])
  end.

(** The entries of a [get-tag-map] answer. *)
Record TagItem := mkTagItem { name : jsstring }.

(** What the pipeline reacts to. *)
Inductive Event :=
| DOMContentLoaded
| Mutations (records : list (list N))        (* [addedNodes] of each record *)
| ConfigChanged (nv : option ConfigData.t)   (* [storage.async.on('config')] *)
| ConfigRead (conf : ConfigData.t)           (* [storage.async.get('config')] *)
| TagMapAnswer (map : option (gmap jsstring TagItem)) (sha : option jsstring).

(** The reaction to the answer of [get-tag-map]. *)
Definition tagMapAnswer (sv : Syringe) (map : option (gmap jsstring TagItem))
    (sha : option jsstring) : Syringe :=
  match map with
  | Some m =>
      let tagMap := name <$> m in
      let sv := withTagMap (Some tagMap) sv in
      let sv := translateTags sv in
      withStorage (SyncStorage.mk (SyncStorage.config (storage sv))
                                  (Some tagMap) sha) sv
  | None => sv
  end.

(** One reaction, run to completion. *)
Definition step (fuel : nat) (sv : Syringe) (e : Event) : option Syringe :=
  match e with
  | DOMContentLoaded => Some (withDocumentEnd true sv)
  | Mutations records => fst <$> observe fuel sv (concat records)
  | ConfigChanged (Some nv) => Some (updateConfig sv nv)
  | ConfigChanged None => Some sv
  | ConfigRead conf => Some (updateConfig sv conf)
  | TagMapAnswer map sha => Some (tagMapAnswer sv map sha)
  end.

Fixpoint run (fuel : nat) (sv : Syringe) (es : list Event) : option Syringe :=
  match es with
  | [] => Some sv
  | e :: rest => step fuel sv e ≫= fun sv' => run fuel sv' rest
  end.

(** ** The contract of the text substitution engine

    [rewritten] is what the pattern rules followed by the two timestamp
    normalizers make of an input; [translateText] is the contract in the
    words of the design: the exact match wins, otherwise the rewritten
    text when it differs from the input. *)

Definition rewritten (sv : Syringe) (input : jsstring) : jsstring :=
  normalizeDates sv
    (applyRules (UiTranslation.regexReplacements (uiData sv)) input).

Definition translateText (sv : Syringe) (input : jsstring)
  : option jsstring :=
  match UiTranslation.plainReplacements (uiData sv) !! input with
  | Some exact => Some exact
  | None =>
      if bool_decide (rewritten sv input = input) then None
      else Some (rewritten sv input)
  end.

(** ** What [translate()] writes

    Both writing branches of [translate()] replace the content of the
    owning element and set its language marker; [rendering] is the pair
    a live entry is given under the current configuration and
    dictionary, if any. *)

Definition rewriteElement (d : Dom) (e : N) (a : Assigned) (lang : jsstring)
  : Dom :=
  setAttribute (assign d e a) e (js "lang") lang.

(** The record of the rewritten element. *)
Definition rewritten_node (e : N) (a : Assigned) (lang : jsstring)
    (nd : DomNode) : DomNode :=
  let x := setAssigned (Some a) (setChildNodes [] (orphan e nd)) in
  setAttributes (<[js "lang" := lang]> (attributes x)) x.

Definition rendering (sv : Syringe) (t : TagNodeRef)
  : option (Assigned * jsstring) :=
  if negb (ConfigData.translateTag (config sv)) then
    Some (ByInnerText (original t), js "en")
  else
    match tagMap sv with
    | None => None
    | Some m =>
        match m !! fullKey t with
        | Some (c :: v) =>
            let value := c :: v in
            let value :=
              if ConfigData.showIcon (config sv)
              then Tagging.markImagesAndEmoji (tagging sv) value
              else Tagging.removeImagesAndEmoji (tagging sv) value in
            let value :=
              if bool_decide (original t !! 1%nat = Some 58)
              then take 1 (original t) ++ js ":" ++ value
              else value in
            Some (ByInnerHTML value, js "cmn-Hans")
        | _ => None
        end
    end.


(** ** Notions used in the statements *)

(** Liveness as the design words it: the owning element is attached to
    the live document tree. *)
Definition attached (sv : Syringe) (t : TagNodeRef) : bool :=
  isConnected (doc sv) (parent t).

(** An entry is up to date when [translate()] has nothing to change. *)
Definition upToDate (sv : Syringe) (t : TagNodeRef) : Prop :=
  fst (translate sv t) = sv.

(** The body refresh of [updateConfig] and of [init]. *)
Definition refreshBody (sv : Syringe) : Syringe :=
  match querySelectorBody (doc sv) with
  | Some body => setBodyAttrs sv body
  | None => sv
  end.

(** The state [updateConfig] hands to the body refresh. *)
Definition configured (sv : Syringe) (c : ConfigData.t) : Syringe :=
  withStorage (SyncStorage.mk c (SyncStorage.databaseMap (storage sv))
                              (SyncStorage.databaseSha (storage sv)))
              (withConfig c sv).

(** No key can be derived from the attributes of the container [p]. *)
Definition keyless (sv : Syringe) (p : N) : bool :=
  match fullKeyCandidate (tagging sv)
          (reflected (doc sv) p (js "id")) (reflected (doc sv) p (js "title"))
  with
  | Some (_ :: _) => false
  | _ => true
  end.

(** The text node [n] sits in a tag container [p] (or [p] does). *)
Definition inTagContainer (sv : Syringe) (n p : N) : Prop :=
  isText (doc sv) n = true
  /\ nodeNameOf (doc sv) n = js "#text"
  /\ parentElement (doc sv) n = Some p
  /\ isTagContainer (doc sv) (Some p)
     || isTagContainer (doc sv) (parentElement (doc sv) p) = true.

(** Two states of one service: they differ at most in the document and
    in the working set. *)
Definition sameService (s s' : Syringe) : Prop :=
  exists d ts, s' = withTags ts (withDoc d s).






(** From [d] to [d'] the tree is the same: what changed are attributes,
    class lists and data. *)
Definition sameShape (d d' : Dom) : Prop :=
  (forall x, childNodesOf d' x = childNodesOf d x)
  /\ (forall x, parentNodeOf d' x = parentNodeOf d x)
  /\ size (nodes d') = size (nodes d)
  /\ nodeIterator d' = nodeIterator d
  /\ (forall x, isTextNode d' x = isTextNode d x).


(** ** The statements that do not hold, as the design words them *)

(** A keyless text node of a tag container is fully handled: it counts
    as handled, no entry is created, and its text is not touched by the
    UI translation. *)
Definition keylessFullyHandled (sv : Syringe) (n p : N) : Prop :=
  inTagContainer sv n p -> keyless sv p = true ->
  snd (translateTag sv n) = true
  /\ tags (translateNode sv n) = tags sv
  /\ dataOf (doc (translateNode sv n)) n = dataOf (doc sv) n.

(** An entry is alive exactly when its element is attached to the
    document, and the refresh pass drops a detached entry without
    touching its element. *)
Definition aliveIffAttached (sv : Syringe) (t : TagNodeRef) : Prop :=
  alive sv t = attached sv t
  /\ (attached sv t = false ->
      (t ∉ tags (translateTags sv))
      /\ nodes (doc (translateTags sv)) !! parent t
         = nodes (doc sv) !! parent t).

(** Every configuration change leaves every live entry re-translated. *)
Definition alwaysRefreshed (sv : Syringe) (c : ConfigData.t) : Prop :=
  forall t, t ∈ tags (updateConfig sv c) ->
            alive (updateConfig sv c) t = true ->
            upToDate (updateConfig sv c) t.

(** ** The invariant of the tracker *)

(** Identities from [nextId] on are not in use. *)
Definition freshIds (d : Dom) : Prop :=
  forall k, nextId d <= k -> nodes d !! k = None.

(** The entries own elements that carry the processed marker, one entry
    for an element. *)
Definition tracked (sv : Syringe) : Prop :=
  freshIds (doc sv)
  /\ Forall (fun t => isElement (doc sv) (parent t) = true
                      /\ hasAttribute (doc sv) (parent t) ATTR = true)
            (tags sv)
  /\ NoDup (parent <$> tags sv).

(** From [d] to [d'] no element stops being one and no marker is lost. *)
Definition keeps (d d' : Dom) : Prop :=
  freshIds d ->
  freshIds d'
  /\ forall x,
       (isElement d x = true -> isElement d' x = true)
       /\ (hasAttribute d x ATTR = true -> hasAttribute d' x ATTR = true).

(** From [s] to [s'] only the document changes, and it keeps. *)
Definition docStep (s s' : Syringe) : Prop :=
  exists d, s' = withDoc d s /\ keeps (doc s) d.

(** ** Notions used in the further statements *)

(** The class that names the site. *)
Definition siteClass (sv : Syringe) : jsstring :=
  if negb (includes (js "exhentai") (Window.locationHost (window sv)))
  then js "eh" else js "ex".

(** The classes a configuration asks for, in the order [setBodyAttrs]
    adds them. *)
Definition configClasses (c : ConfigData.t) : list jsstring :=
  (if ConfigData.showIcon c then [] else [js "ehs-hide-icon"])
  ++ (if ConfigData.translateTag c then [js "ehs-translate-tag"] else [])
  ++ [js "ehs-image-level-"
      ++ numberToString (ConfigData.introduceImageLevel c)].

(** The language marker a configuration asks for. *)
Definition configLang (c : ConfigData.t) : jsstring :=
  if ConfigData.translateUi c then js "cmn-Hans" else js "en".

(** What [classList.add] makes of the record of an element. *)
Definition addClass (c : jsstring) (nd : DomNode) : DomNode :=
  if bool_decide (c ∈ classList nd) then nd
  else setClassList (classList nd ++ [c]) nd.

(** What [setBodyAttrs] makes of the record of the body. *)
Definition bodyNode (sv : Syringe) (nd : DomNode) : DomNode :=
  let c := config sv in
  let nd := addClass (siteClass sv) nd in
  let nd := setClassList
              (List.filter (fun k => negb (startsWith (js "ehs") k))
                           (classList nd)) nd in
  let nd := if negb (ConfigData.showIcon c)
            then addClass (js "ehs-hide-icon") nd else nd in
  let nd := if ConfigData.translateTag c
            then addClass (js "ehs-translate-tag") nd else nd in
  let nd := setAttributes (<[js "lang" := configLang c]> (attributes nd)) nd in
  addClass (js "ehs-image-level-"
            ++ numberToString (ConfigData.introduceImageLevel c)) nd.

(** The record of a node without its classes and attributes. *)
Definition bare (nd : DomNode) : DomNode :=
  setClassList [] (setAttributes ∅ nd).



(** The document after [createElement], an assignment of text to the new
    element and further changes [f] of its record, seen from the other
    nodes. *)
Definition copyOf (name : jsstring) (s : jsstring) (f : DomNode -> DomNode)
    (d : Dom) : Dom :=
  updNode f (nextId d)
    (assign (fst (createElement d name)) (nextId d) (ByTextContent s)).

(** ** A sample page

    A gallery page cut down to the nodes the statements below are tried
    on: a tag link inside a tag container, a tag container without
    identifying attributes, two form controls and a subtree that was
    taken out of the document. *)

Module Demo.

Definition element (name : string) (p : option N) (cs : list N)
    (attrs : list (jsstring * jsstring)) (cl : list jsstring) : DomNode :=
  mkDomNode ELEMENT_NODE (js name) p cs (list_to_map attrs) cl [] None [] [].

Definition text (p : option N) (s : string) : DomNode :=
  mkDomNode TEXT_NODE (js "#text") p [] ∅ [] (js s) None [] [].

Definition control (p : option N) (ty v ph : string) : DomNode :=
  mkDomNode ELEMENT_NODE (js "INPUT") p []
    (list_to_map [(js "placeholder", js ph)]) [] [] None (js ty) (js v).

Definition page : Dom :=
  mkDom (list_to_map
    [(0, mkDomNode DOCUMENT_NODE (js "#document") None [1] ∅ [] [] None [] []);
     (1, element "HTML" (Some 0) [2] [] []);
     (2, element "BODY" (Some 1) [3; 6; 8; 9] [] []);
     (3, element "DIV" (Some 2) [4] [(js "id", js "td_female:big_breasts")]
                 [js "gt"]);
     (4, element "A" (Some 3) [5] [(js "id", js "ta_female:big_breasts")] []);
     (5, text (Some 4) "big breasts");
     (6, element "DIV" (Some 2) [7] [] [js "gt"]);
     (7, text (Some 6) "Front Page");
     (8, control (Some 2) "submit" "Apply Filter" "Search Keywords");
     (9, control (Some 2) "text" "Front Page" "Front Page");
     (10, element "DIV" None [11] [] [js "gt"]);
     (11, element "A" (Some 10) [12] [(js "id", js "ta_male:glasses")] []);
     (12, text (Some 11) "glasses")])
    13 None 0.

Definition tagging : Tagging.t :=
  Tagging.mk
    (fun namespace key =>
       match key with
       | Some k => namespace ++ js ":" ++ k
       | None => namespace
       end)
    (fun v => v)
    (fun v => v).

(** The instants [Date.parse] gives for two stamps. *)
Definition DateParse (s : jsstring) : option Z :=
  if jseqb s (js "1970-01-01 00:00Z") then Some 0%Z
  else if jseqb s (js "2023-06-01 10:00Z") then Some 1685613600000%Z
  else None.

Definition time : DateTime.t :=
  DateTime.mk (fun date _ _ => js "a while ago") 3600000.

Definition uiData : UiTranslation.t :=
  UiTranslation.mk
    (list_to_map
       [(js "Front Page", [39318; 39029]);
        (js "Apply Filter", [24212; 29992]);
        (js "Search Keywords", [25628; 32034])])
    [].

Definition tagMap : gmap jsstring jsstring :=
  list_to_map [(js "female:big breasts", [24040; 20083]);
               (js "male:glasses", [30524; 38236])].

Definition allOn : ConfigData.t := ConfigData.mk true true true 0.
Definition tagsOff : ConfigData.t := ConfigData.mk false true true 0.

Definition service (m : option (gmap jsstring jsstring))
    (c : ConfigData.t) (d : Dom) (ts : list TagNodeRef) : Syringe :=
  mkSyringe (SyncStorage.mk c m None) uiData tagging time
    (Window.mk d (js "e-hentai.org") DateParse (fun s => s))
    m ts false c.

(** The page as loaded, nothing tracked yet. *)
Definition fresh : Syringe := service (Some tagMap) allOn page [].

Definition bigBreasts : TagNodeRef :=
  mkTagNodeRef 4 (js "female:big breasts") (js "big breasts").

Definition glasses : TagNodeRef :=
  mkTagNodeRef 11 (js "male:glasses") (js "glasses").

(** An entry whose element is the root of the subtree that was taken
    out of the document. *)
Definition removed : TagNodeRef :=
  mkTagNodeRef 10 (js "male:glasses") (js "glasses").

(** The page after the tracker created the entries of both tag links. *)
Definition marked : Dom := construct (construct page bigBreasts) glasses.

(** Both tag links tracked, nothing translated yet. *)
Definition tracking (m : option (gmap jsstring jsstring))
    (c : ConfigData.t) : Syringe :=
  service m c marked [bigBreasts; glasses].

Definition uiOff : ConfigData.t := ConfigData.mk true false true 0.

(** The loaded page with its tag links still to be found and the UI
    translation off. *)
Definition arriving : Syringe :=
  withDocumentEnd true (service (Some tagMap) uiOff page []).


End Demo.

(** ** A second sample page

    The parts of a gallery page the UI translation looks for: a link of
    the navigation bar, the page counter, the two blocks other scripts
    read, an option group and a search suggestion. *)

Module Gallery.

Definition page : Dom :=
  mkDom (list_to_map
    [(0, mkDomNode DOCUMENT_NODE (js "#document") None [1] ∅ [] [] None [] []);
     (1, Demo.element "HTML" (Some 0) [2] [] []);
     (2, Demo.element "BODY" (Some 1) [3; 7; 9; 11; 14; 16] [] []);
     (3, Demo.element "DIV" (Some 2) [4] [(js "id", js "nb")] []);
     (4, Demo.element "DIV" (Some 3) [5] [] []);
     (5, Demo.element "A" (Some 4) [6] [] []);
     (6, Demo.text (Some 5) "Front Page");
     (7, Demo.element "P" (Some 2) [8] [] [js "gpc"]);
     (8, Demo.text (Some 7) "Showing 1 - 20 of 1,234 images");
     (9, Demo.element "DIV" (Some 2) [10] [(js "id", js "gdd")] []);
     (10, Demo.text (Some 9) "Length:");
     (11, Demo.element "DIV" (Some 2) [12] [(js "id", js "gdo4")] []);
     (12, Demo.element "DIV" (Some 11) [13] [] [js "ths"; js "nosel"]);
     (13, Demo.text (Some 12) "Minimal");
     (14, Demo.element "SELECT" (Some 2) [15] [] []);
     (15, Demo.element "OPTGROUP" (Some 14) []
            [(js "label", js "Front Page")] []);
     (16, Demo.element "DIV" (Some 2) [17] [] [js "auto-complete-text"]);
     (17, Demo.text (Some 16) "Front Page")])
    18 None 0.

Definition fresh : Syringe := Demo.service (Some Demo.tagMap) Demo.allOn page [].

End Gallery.

(** * Properties *)

(** Decide a closed proposition by evaluation. *)
Ltac by_compute :=
  match goal with
  | |- ?P => apply (bool_decide_eq_true_1 P); vm_compute; reflexivity
  end.

(** ** Key derivation *)

Section KeyDerivation.

Lemma split_nonempty sep s : split sep s ≠ [].
Proof.
  destruct s as [|c t]; simpl; [done|].
  destruct (c =? sep); [done|]. by destruct (split sep t).
Qed.

Lemma split_absent sep s : sep ∉ s -> split sep s = [s].
Proof.
  induction s as [|c t IH]; intros Hn; simpl; [done|].
  apply not_elem_of_cons in Hn as [Hc Ht].
  destruct (N.eqb_spec c sep) as [->|_]; [done|].
  by rewrite (IH Ht).
Qed.

Lemma split_first sep ns rest :
  sep ∉ ns -> split sep (ns ++ sep :: rest) = ns :: split sep rest.
Proof.
  induction ns as [|c t IH]; intros Hn; simpl.
  - by rewrite N.eqb_refl.
  - apply not_elem_of_cons in Hn as [Hc Ht].
    destruct (N.eqb_spec c sep) as [->|_]; [done|].
    by rewrite (IH Ht).
Qed.

Lemma truthy_cons s : s ≠ [] -> truthy s = true.
Proof. by destruct s. Qed.

(** C10. A non-empty title decides the key: the identifier is never
    consulted; a title without a colon gives the whole title as
    namespace and an undefined key; a title [ns:rest] gives [ns] and
    the part of [rest] before its next colon. *)
Theorem title_takes_precedence (tg : Tagging.t) (aTitle : jsstring) :
  aTitle ≠ [] ->
  (forall aId, fullKeyCandidate tg aId aTitle = fullKeyCandidate tg [] aTitle)
  /\ (58 ∉ aTitle ->
      forall aId,
        fullKeyCandidate tg aId aTitle = Some (Tagging.fullKey tg aTitle None))
  /\ (forall namespace rest aId,
        aTitle = namespace ++ 58 :: rest -> 58 ∉ namespace ->
        fullKeyCandidate tg aId aTitle
        = Some (Tagging.fullKey tg namespace (head (split 58 rest)))).
Proof.
  intros Hne. unfold fullKeyCandidate. rewrite (truthy_cons _ Hne).
  split; [done|]. split.
  - intros Hno aId. by rewrite (split_absent _ _ Hno).
  - intros namespace rest aId -> Hno. rewrite (split_first _ _ _ Hno). simpl.
    by destruct (split 58 rest).
Qed.

End KeyDerivation.

Lemma title_takes_precedence_witness :
  js "reclass:doujinshi" ≠ []
  /\ fullKeyCandidate Demo.tagging (js "ta_female:big_breasts")
       (js "reclass:doujinshi")
     = Some (js "reclass:doujinshi")
  /\ fullKeyCandidate Demo.tagging (js "ta_female:big_breasts") (js "other")
     = Some (js "other").
Proof.
  assert (H : js "reclass:doujinshi" ≠ []) by done.
  assert (H' : js "other" ≠ []) by done.
  split; [exact H|]. split.
  - destruct (title_takes_precedence Demo.tagging _ H) as (_ & _ & Hc).
    rewrite (Hc (js "reclass") (js "doujinshi") _ eq_refl);
      [reflexivity | by_compute].
  - destruct (title_takes_precedence Demo.tagging _ H') as (_ & Hn & _).
    rewrite Hn; [reflexivity | by_compute].
Defined.

(** ** Text substitution *)

Section TextSubstitution.

Variable sv : Syringe.

Lemma applyRules_cons rule rules text :
  applyRules (rule :: rules) text = applyRules rules (rule text).
Proof. reflexivity. Qed.

Lemma applyRules_snoc rules rule text :
  applyRules (rules ++ [rule]) text = rule (applyRules rules text).
Proof. unfold applyRules. by rewrite fold_left_app. Qed.

(** The text engine reads nothing of the document. *)
Lemma translateUiText_withDoc d text :
  translateUiText (withDoc d sv) text = translateUiText sv text.
Proof. reflexivity. Qed.

(** C5. An exact match is returned as it is; otherwise the input goes
    through the pattern rules in order (a later rule works on the output
    of the earlier ones) and the two date normalizers, and the result
    is returned exactly when it differs from the input. *)
Theorem translateUiText_contract (text : jsstring) :
  translateUiText sv text = translateText sv text
  /\ (forall plain,
        UiTranslation.plainReplacements (uiData sv) !! text = Some plain ->
        translateUiText sv text = Some plain)
  /\ (UiTranslation.plainReplacements (uiData sv) !! text = None ->
      (forall r, translateUiText sv text = Some r
                 <-> r = rewritten sv text /\ r ≠ text)
      /\ (translateUiText sv text = None <-> rewritten sv text = text))
  /\ (forall rules rule t,
        applyRules (rules ++ [rule]) t = rule (applyRules rules t)).
Proof.
  unfold translateUiText, translateText, rewritten.
  split; [|split; [|split]].
  - destruct (_ !! text); [done|].
    repeat case_bool_decide; congruence.
  - by intros plain ->.
  - intros ->. split.
    + intros r. case_bool_decide; split.
      * by intros [= <-].
      * by intros [-> _].
      * done.
      * intros [-> Hr]. by destruct Hr.
    + case_bool_decide; split; done.
  - apply applyRules_snoc.
Qed.

(** What the callback of the normalizers makes of one match. *)
Lemma relativeTime_cases suffix t :
  relativeTime sv suffix t
  = match Window.DateParse (window sv) (t ++ suffix) with
    | Some date =>
        if bool_decide (date = 0%Z) then t
        else DateTime.diff (time sv) date None (DateTime.hour (time sv))
    | None => t
    end.
Proof.
  unfold relativeTime. destruct (Window.DateParse _ _) as [[| |]|]; done.
Qed.

Lemma replaceGlobal_skipped m f k s :
  (k <= length s)%nat ->
  replaceGlobal m f k s = replaceGlobal m f 0 (drop k s).
Proof.
  revert k; induction s as [|c t IH]; intros [|k] Hk; try reflexivity.
  - simpl in Hk; lia.
  - simpl in Hk. change (replaceGlobal m f k t = replaceGlobal m f 0 (drop k t)).
    apply IH; lia.
Qed.

(** A match at the head is replaced by the callback's result and the
    scan goes on after it. *)
Lemma replaceGlobal_match m f t rest :
  t ≠ [] -> m (t ++ rest) = Some (length t) ->
  replaceGlobal m f 0 (t ++ rest) = f t ++ replaceGlobal m f 0 rest.
Proof.
  intros Ht Hm. destruct t as [|c t]; [done|]. simpl in *.
  rewrite Hm. rewrite take_app_length. f_equal.
  rewrite replaceGlobal_skipped by (rewrite length_app; lia).
  by rewrite drop_app_length.
Qed.

(** Where nothing matches, the unit is kept. *)
Lemma replaceGlobal_keep m f c s :
  m (c :: s) = None ->
  replaceGlobal m f 0 (c :: s) = c :: replaceGlobal m f 0 s.
Proof. intros Hm. simpl. by rewrite Hm. Qed.

End TextSubstitution.

Lemma translateUiText_contract_witness :
  translateUiText Demo.fresh (js "Front Page") = Some [39318; 39029]
  /\ translateUiText Demo.fresh (js "Posted 2023-06-01 10:00")
     = Some (js "Posted a while ago")
  /\ translateUiText Demo.fresh (js "Back") = None.
Proof.
  destruct (translateUiText_contract Demo.fresh (js "Front Page"))
    as (_ & Hplain & _).
  destruct (translateUiText_contract Demo.fresh (js "Posted 2023-06-01 10:00"))
    as (_ & _ & Hrew & _).
  destruct (translateUiText_contract Demo.fresh (js "Back"))
    as (_ & _ & Hsame & _).
  split; [|split].
  - apply Hplain. reflexivity.
  - apply Hrew; [reflexivity|]. split; [reflexivity | by_compute].
  - apply Hsame; reflexivity.
Defined.

(** C4. The stamp of the epoch parses to the valid instant 0, which the
    callback's test [!date] takes for a failed parse: the match is left
    as it is (and the text has no translation), where a stamp of any
    other instant is replaced by its relative time. *)
Theorem epoch_stamp_left_unchanged :
  Window.DateParse (window Demo.fresh) (js "1970-01-01 00:00" ++ js "Z")
  = Some 0%Z
  /\ isoStamp (js "1970-01-01 00:00") = Some 16%nat
  /\ relativeTime Demo.fresh (js "Z") (js "1970-01-01 00:00")
     = js "1970-01-01 00:00"
  /\ translateUiText Demo.fresh (js "1970-01-01 00:00") = None
  /\ translateUiText Demo.fresh (js "2023-06-01 10:00")
     = Some (DateTime.diff Demo.time 1685613600000 None (DateTime.hour Demo.time)).
Proof. repeat split; reflexivity. Qed.

(** ** The document under a rewrite of one element *)

Section Rewrite.

Lemma Dom_eq d1 d2 :
  nodes d1 = nodes d2 -> nextId d1 = nextId d2 ->
  nodeIterator d1 = nodeIterator d2 -> documentNode d1 = documentNode d2 ->
  d1 = d2.
Proof. destruct d1, d2; simpl; congruence. Qed.

Lemma orphan_parent e nd : parentNode (orphan e nd) ≠ Some e.
Proof. unfold orphan. case_bool_decide; simpl; congruence. Qed.

Lemma orphan_fixed e nd : parentNode nd ≠ Some e -> orphan e nd = nd.
Proof. unfold orphan. by case_bool_decide. Qed.

Lemma orphan_nodeType e nd : nodeType (orphan e nd) = nodeType nd.
Proof. unfold orphan. by case_bool_decide. Qed.

Lemma lookup_rewriteElement d e a lang i :
  nodes (rewriteElement d e a lang) !! i
  = if decide (i = e) then rewritten_node e a lang <$> nodes d !! i
    else orphan e <$> nodes d !! i.
Proof.
  unfold rewriteElement, setAttribute, assign, updNode, removeChildren.
  simpl. case_decide as Hi.
  - subst i. rewrite !lookup_alter_eq, lookup_fmap.
    by destruct (nodes d !! e).
  - assert (e ≠ i) by congruence.
    by rewrite !lookup_alter_ne, lookup_fmap by done.
Qed.

Lemma parentNodeOf_rewriteElement d e a lang x :
  parentNodeOf (rewriteElement d e a lang) x
  = if bool_decide (parentNodeOf d x = Some e) then None
    else parentNodeOf d x.
Proof.
  unfold parentNodeOf. rewrite lookup_rewriteElement.
  destruct (nodes d !! x) as [nd|]; simpl.
  - case_decide; simpl; unfold orphan;
      repeat case_bool_decide; simpl; congruence.
  - by case_decide.
Qed.

Lemma no_child_after_rewrite d e a lang x :
  parentNodeOf (rewriteElement d e a lang) x ≠ Some e.
Proof.
  rewrite parentNodeOf_rewriteElement. by case_bool_decide.
Qed.

Lemma isElement_rewriteElement d e a lang x :
  isElement (rewriteElement d e a lang) x = isElement d x.
Proof.
  unfold isElement. rewrite lookup_rewriteElement.
  case_decide; destruct (nodes d !! x) as [nd|]; simpl; try done.
  all: by rewrite orphan_nodeType.
Qed.

Lemma parentElement_rewriteElement d e a lang x :
  parentElement (rewriteElement d e a lang) x
  = if bool_decide (parentNodeOf d x = Some e) then None
    else parentElement d x.
Proof.
  unfold parentElement. rewrite parentNodeOf_rewriteElement.
  case_bool_decide; [done|].
  destruct (parentNodeOf d x); [|done]. by rewrite isElement_rewriteElement.
Qed.

Lemma existsb_none {A} (f : A -> bool) l :
  (forall x, f x = false) -> existsb f l = false.
Proof. intros Hf. induction l; simpl; [done|]. by rewrite Hf. Qed.

(** An element without children moves no iterator. *)
Lemma preRemoving_childless d e it :
  (forall x, parentNodeOf d x ≠ Some e) -> preRemoving d e it = it.
Proof.
  intros Hno. unfold preRemoving. rewrite existsb_none; [done|].
  intros x. rewrite bool_decide_eq_false_2; [done | apply Hno].
Qed.

Lemma rewritten_node_twice e a1 l1 a2 l2 nd :
  rewritten_node e a2 l2 (rewritten_node e a1 l1 nd)
  = rewritten_node e a2 l2 nd.
Proof.
  unfold rewritten_node, orphan. destruct nd; simpl.
  repeat case_bool_decide; simpl in *; try congruence;
    by rewrite insert_insert_eq.
Qed.

(** A rewrite overrides the one before it. *)
Lemma rewriteElement_twice d e a1 l1 a2 l2 :
  rewriteElement (rewriteElement d e a1 l1) e a2 l2
  = rewriteElement d e a2 l2.
Proof.
  apply Dom_eq; try reflexivity.
  - apply map_eq; intros i. rewrite !lookup_rewriteElement.
    case_decide.
    + destruct (nodes d !! i) as [nd|]; simpl; [|done]. f_equal.
      apply rewritten_node_twice.
    + destruct (nodes d !! i) as [nd|]; simpl; [|done]. f_equal.
      apply orphan_fixed, orphan_parent.
  - change (preRemoving (rewriteElement d e a1 l1) e
              <$> (preRemoving d e <$> nodeIterator d)
            = preRemoving d e <$> nodeIterator d).
    destruct (nodeIterator d) as [it|]; simpl; [|done]. f_equal.
    apply preRemoving_childless. intros x. apply no_child_after_rewrite.
Qed.


End Rewrite.

(** ** The tag node tracker *)

Section Tracker.

Lemma doc_withDoc d sv : doc (withDoc d sv) = d.
Proof. reflexivity. Qed.

Lemma translate_unfold sv t :
  translate sv t
  = if negb (alive sv t) then (sv, true)
    else match rendering sv t with
         | Some (a, lang) =>
             (withDoc (rewriteElement (doc sv) (parent t) a lang) sv, true)
         | None => (sv, false)
         end.
Proof.
  unfold translate, rendering.
  destruct (alive sv t); simpl; [|done].
  destruct (ConfigData.translateTag (config sv)); simpl; [|done].
  destruct (tagMap sv) as [m|]; [|done].
  by destruct (m !! fullKey t) as [[|c v]|].
Qed.

Lemma translate_config sv t : config (fst (translate sv t)) = config sv.
Proof.
  rewrite translate_unfold. destruct (negb (alive sv t)); [done|].
  by destruct (rendering sv t) as [[a l]|].
Qed.

Lemma translate_tagMap sv t : tagMap (fst (translate sv t)) = tagMap sv.
Proof.
  rewrite translate_unfold. destruct (negb (alive sv t)); [done|].
  by destruct (rendering sv t) as [[a l]|].
Qed.

Lemma translate_again sv t :
  translate (fst (translate sv t)) t
  = (fst (translate sv t), snd (translate sv t)).
Proof.
  rewrite (translate_unfold sv t).
  destruct (alive sv t) eqn:Ha; simpl.
  - destruct (rendering sv t) as [[a l]|] eqn:Hr; simpl.
    + rewrite translate_unfold.
      destruct (alive (withDoc _ sv) t); simpl; [|done].
      change (rendering (withDoc (rewriteElement (doc sv) (parent t) a l) sv) t)
        with (rendering sv t).
      rewrite Hr.
      change (doc (withDoc (rewriteElement (doc sv) (parent t) a l) sv))
        with (rewriteElement (doc sv) (parent t) a l).
      by rewrite rewriteElement_twice.
    + rewrite translate_unfold, Ha, Hr. done.
  - rewrite translate_unfold, Ha. done.
Qed.

Lemma isElement_setAttribute d n k v x :
  isElement (setAttribute d n k v) x = isElement d x.
Proof.
  unfold isElement, setAttribute, updNode. simpl.
  destruct (decide (x = n)) as [->|Hx].
  - rewrite lookup_alter_eq. by destruct (nodes d !! n).
  - rewrite lookup_alter_ne; [done | congruence].
Qed.

Lemma hasAttribute_setAttribute d n k v k' :
  is_Some (nodes d !! n) ->
  hasAttribute (setAttribute d n k v) n k'
  = bool_decide (k = k') || hasAttribute d n k'.
Proof.
  intros [nd Hnd]. unfold hasAttribute, getAttribute, setAttribute, updNode.
  simpl. rewrite lookup_alter_eq, Hnd. simpl.
  destruct (decide (k = k')) as [->|Hk].
  - rewrite lookup_insert_eq, (bool_decide_eq_true_2 (k' = k')) by done.
    by apply bool_decide_eq_true_2.
  - rewrite lookup_insert_ne by done.
    by rewrite (bool_decide_eq_false_2 (k = k')).
Qed.

Lemma is_Some_after_setAttribute d n k v x :
  is_Some (nodes d !! x) -> is_Some (nodes (setAttribute d n k v) !! x).
Proof.
  intros [nd Hnd]. unfold setAttribute, updNode. simpl.
  destruct (decide (x = n)) as [->|Hx].
  - rewrite lookup_alter_eq, Hnd. by eexists.
  - rewrite lookup_alter_ne, Hnd; [by eexists | congruence].
Qed.

Lemma isElement_is_Some d n : isElement d n = true -> is_Some (nodes d !! n).
Proof. unfold isElement. by destruct (nodes d !! n). Qed.

(** A new entry owns the parent element of its text node, which was not
    marked before and is marked afterwards; a marked element gets no
    second entry. *)
Lemma create_marks sv n sv' t :
  create sv n = (sv', NewRef t) ->
  parentElement (doc sv) n = Some (parent t)
  /\ original t = dataOf (doc sv) n
  /\ hasAttribute (doc sv) (parent t) ATTR = false
  /\ hasAttribute (doc sv') (parent t) ATTR = true
  /\ isElement (doc sv') (parent t) = true.
Proof.
  unfold create. destruct (parentElement (doc sv) n) as [p|] eqn:Hp; [|done].
  destruct (hasAttribute (doc sv) p ATTR) eqn:Hattr; [done|].
  destruct (fullKeyCandidate _ _ _) as [[|c k]|]; try done.
  intros [= <- <-]. cbn [parent original]. rewrite doc_withDoc.
  assert (Hel : isElement (doc sv) p = true).
  { unfold parentElement in Hp.
    destruct (parentNodeOf (doc sv) n) as [q|]; [|done].
    destruct (isElement (doc sv) q) eqn:He; [|done]. congruence. }
  assert (Hsome := isElement_is_Some _ _ Hel).
  repeat split; try done.
  - unfold construct. cbn [parent original fullKey].
    set (d1 := setAttribute (doc sv) p ATTR _).
    set (d2 := setAttribute d1 p (js "lang") _).
    assert (H1 : is_Some (nodes d1 !! p))
      by by apply is_Some_after_setAttribute.
    assert (H2 : is_Some (nodes d2 !! p))
      by by apply is_Some_after_setAttribute.
    assert (Hm : hasAttribute d2 p ATTR = true).
    { unfold d2. rewrite hasAttribute_setAttribute by done.
      unfold d1. rewrite hasAttribute_setAttribute by done.
      rewrite (bool_decide_eq_true_2 (ATTR = ATTR)) by done.
      apply orb_true_r. }
    destruct (hasAttribute d2 p (js "title")); [done|].
    rewrite hasAttribute_setAttribute by done. rewrite Hm. apply orb_true_r.
  - unfold construct. cbn [parent original fullKey].
    case_match; by rewrite !isElement_setAttribute.
Qed.

Lemma create_marked sv n p :
  parentElement (doc sv) n = Some p ->
  hasAttribute (doc sv) p ATTR = true ->
  create sv n = (sv, Boolean true).
Proof. unfold create. by intros -> ->. Qed.

(** C6. [translate()] is idempotent: after the first call, any number
    of further calls on the entry, under the same configuration and
    dictionary, leaves the whole state as the first call left it and
    returns the same flag. *)
Theorem translate_idempotent (sv : Syringe) (t : TagNodeRef) (n : nat) :
  let once := fst (translate sv t) in
  Nat.iter n (fun s => fst (translate s t)) once = once
  /\ snd (translate once t) = snd (translate sv t)
  /\ config once = config sv
  /\ tagMap once = tagMap sv.
Proof.
  simpl. split; [|split; [|split]].
  - induction n as [|n IH]; simpl; [done|].
    by rewrite IH, translate_again.
  - by rewrite translate_again.
  - apply translate_config.
  - apply translate_tagMap.
Qed.



End Tracker.

(** ** The refresh pass *)

Section Refresh.

Lemma fold_left_invariant {A B} (f : A -> B -> A) (P : A -> Prop) l a :
  P a -> (forall a b, b ∈ l -> P a -> P (f a b)) -> P (fold_left f l a).
Proof.
  revert a. induction l as [|b l IH]; intros a Ha Hstep; simpl; [done|].
  apply IH.
  - apply Hstep; [left | done].
  - intros a' b' Hb'. apply Hstep. by right.
Qed.

Lemma translate_tags sv t : tags (fst (translate sv t)) = tags sv.
Proof.
  rewrite translate_unfold. destruct (negb (alive sv t)); [done|].
  by destruct (rendering sv t) as [[a l]|].
Qed.

Lemma translate_isElement sv t x :
  isElement (doc (fst (translate sv t))) x = isElement (doc sv) x.
Proof.
  rewrite translate_unfold. destruct (negb (alive sv t)); [done|].
  destruct (rendering sv t) as [[a l]|]; [|done].
  cbn [fst]. rewrite doc_withDoc. apply isElement_rewriteElement.
Qed.

Lemma translateTags_tags sv :
  tags (translateTags sv) = List.filter (alive sv) (tags sv).
Proof.
  unfold translateTags.
  apply (fold_left_invariant _
           (fun s => tags s = List.filter (alive sv) (tags sv))); [done|].
  intros s t _ Hs. by rewrite translate_tags.
Qed.

(** A dead entry's element is out of reach of the translation of any
    other entry that owns an element. *)
Lemma translate_keeps_dead sv t e :
  parentElement (doc sv) e = None ->
  isElement (doc sv) (parent t) = true ->
  nodes (doc (fst (translate sv t))) !! e = nodes (doc sv) !! e.
Proof.
  intros Hdead Hel. rewrite translate_unfold.
  destruct (alive sv t) eqn:Ha; [|done]. cbn [negb].
  destruct (rendering sv t) as [[a l]|]; [|done].
  cbn [fst]. rewrite doc_withDoc, lookup_rewriteElement.
  case_decide as He.
  - subst e. apply bool_decide_eq_true_1 in Ha. rewrite Hdead in Ha.
    by destruct Ha.
  - destruct (nodes (doc sv) !! e) as [nd|] eqn:Hnd; [|done]. simpl.
    f_equal. apply orphan_fixed. intros Hp.
    unfold parentElement, parentNodeOf in Hdead.
    rewrite Hnd in Hdead. simpl in Hdead. rewrite Hp, Hel in Hdead. done.
Qed.

Lemma filter_without_dead (f : TagNodeRef -> bool) t l :
  f t = false ->
  List.filter f (List.filter (fun t' => bool_decide (t' ≠ t)) l)
  = List.filter f l.
Proof.
  intros Hf. induction l as [|x l IH]; simpl; [done|].
  case_bool_decide as Hx; simpl.
  - by rewrite IH.
  - subst x. by rewrite Hf.
Qed.

(** C2. An entry is alive exactly when its owning element has a parent
    that is an element.  Where the entries own elements (as they do in
    every state the pipeline reaches), an entry that is not alive when a
    refresh pass starts is not in the working set afterwards, the pass is
    the pass without it, and the record of its element is left as it
    was. *)
Theorem dead_entries_are_dropped (sv : Syringe) (t : TagNodeRef) :
  Forall (fun t' => isElement (doc sv) (parent t') = true) (tags sv) ->
  (alive sv t = true
   <-> (exists p, parentNodeOf (doc sv) (parent t) = Some p
                  /\ isElement (doc sv) p = true))
  /\ (alive sv t = false ->
      (t ∉ tags (translateTags sv))
      /\ translateTags sv
         = translateTags
             (withTags (List.filter (fun t' => bool_decide (t' ≠ t)) (tags sv))
                       sv)
      /\ nodes (doc (translateTags sv)) !! parent t
         = nodes (doc sv) !! parent t).
Proof.
  intros Hown. split.
  - unfold alive, parentElement. split.
    + intros H%bool_decide_eq_true_1.
      destruct (parentNodeOf (doc sv) (parent t)) as [p|]; [|by destruct H].
      exists p. split; [done|]. destruct (isElement (doc sv) p); [done|].
      by destruct H.
    + intros (p & -> & ->). by apply bool_decide_eq_true_2.
  - intros Hdead. split; [|split].
    + rewrite translateTags_tags. intros Hin%list_elem_of_In.
      apply filter_In in Hin as [_ Hin]. congruence.
    + unfold translateTags.
      change (tags (withTags ?l sv)) with l.
      change (alive (withTags ?l sv)) with (alive sv).
      by rewrite filter_without_dead.
    + unfold translateTags.
      assert (Hnone : parentElement (doc sv) (parent t) = None).
      { unfold alive in Hdead. apply bool_decide_eq_false_1 in Hdead.
        destruct (parentElement _ _); [|done]. destruct Hdead. by eexists. }
      apply (fold_left_invariant _
        (fun s => nodes (doc s) !! parent t = nodes (doc sv) !! parent t
                  /\ (forall x, isElement (doc s) x = isElement (doc sv) x)
                  /\ parentElement (doc s) (parent t) = None)).
      * done.
      * intros s t' Ht' (Hs & Hel & Hp).
        assert (Hel' : isElement (doc s) (parent t') = true).
        { rewrite Hel. apply list_elem_of_In in Ht'.
          apply filter_In in Ht' as [Ht' _].
          eapply Forall_forall in Hown; [exact Hown|].
          first [exact Ht' | by apply list_elem_of_In]. }
        assert (Hkeep := translate_keeps_dead s t' (parent t) Hp Hel').
        split; [congruence|]. split.
        -- intros x. by rewrite translate_isElement.
        -- unfold parentElement, parentNodeOf in *. rewrite Hkeep.
           destruct (nodes (doc s) !! parent t ≫= parentNode) as [p|];
             [|done].
           by rewrite translate_isElement.
Qed.

End Refresh.

(** ** Configuration updates *)

Section ConfigUpdate.

Lemma withDoc_doc sv : withDoc (doc sv) sv = sv.
Proof. by destruct sv as [? ? ? ? [] ? ? ? ?]. Qed.

Lemma translate_frame sv t : exists d, fst (translate sv t) = withDoc d sv.
Proof.
  rewrite translate_unfold. destruct (negb (alive sv t)).
  - exists (doc sv). by rewrite withDoc_doc.
  - destruct (rendering sv t) as [[a l]|]; [by eexists|].
    exists (doc sv). by rewrite withDoc_doc.
Qed.

Lemma translateTags_frame sv :
  exists d,
    translateTags sv
    = withDoc d (withTags (List.filter (alive sv) (tags sv)) sv).
Proof.
  unfold translateTags.
  apply (fold_left_invariant _
    (fun s => exists d,
       s = withDoc d (withTags (List.filter (alive sv) (tags sv)) sv))).
  - eexists. by rewrite withDoc_doc.
  - intros s t _ [d ->]. destruct (translate_frame (withDoc d (withTags
      (List.filter (alive sv) (tags sv)) sv)) t) as [d' ->]. by exists d'.
Qed.

Lemma refreshBody_frame sv : exists d, refreshBody sv = withDoc d sv.
Proof.
  unfold refreshBody. destruct (querySelectorBody (doc sv)).
  - by eexists.
  - exists (doc sv). by rewrite withDoc_doc.
Qed.

Lemma updateConfig_unfold sv c :
  updateConfig sv c
  = match tagMap sv with
    | Some _ => translateTags (refreshBody (configured sv c))
    | None => refreshBody (configured sv c)
    end.
Proof.
  unfold updateConfig.
  change (withStorage _ (withConfig c sv)) with (configured sv c).
  fold (refreshBody (configured sv c)).
  destruct (refreshBody_frame (configured sv c)) as [d ->]. done.
Qed.

(** The element rewritten last keeps what it was given. *)
Lemma upToDate_rewrite d e a l :
  rewriteElement d e a l = d ->
  forall x, parentNodeOf d x ≠ Some e.
Proof. intros <- x. apply no_child_after_rewrite. Qed.

Lemma rewritten_node_orphan e e' a l nd :
  rewritten_node e a l nd = nd ->
  rewritten_node e a l (orphan e' nd) = orphan e' nd.
Proof.
  unfold rewritten_node, orphan. destruct nd; simpl.
  repeat case_bool_decide; simpl in *; try congruence;
    intros [= ? ? ?];
    unfold setAttributes, setAssigned, setChildNodes, setParentNode;
    simpl; congruence.
Qed.

(** Rewriting another element does not disturb an up-to-date one. *)
Lemma rewriteElement_other d e a l e' a' l' :
  e ≠ e' ->
  rewriteElement d e a l = d ->
  rewriteElement (rewriteElement d e' a' l') e a l
  = rewriteElement d e' a' l'.
Proof.
  intros Hne Hfix.
  assert (Hno := upToDate_rewrite _ _ _ _ Hfix).
  assert (Hnodes : forall i, nodes (rewriteElement d e a l) !! i = nodes d !! i)
    by (by rewrite Hfix).
  assert (no_child_of :
            forall x, parentNodeOf (rewriteElement d e' a' l') x ≠ Some e).
  { intros x. rewrite parentNodeOf_rewriteElement.
    case_bool_decide; [done | apply Hno]. }
  apply Dom_eq; try reflexivity.
  - apply map_eq; intros i. rewrite (lookup_rewriteElement _ e).
    case_decide as Hi.
    + subst i. rewrite lookup_rewriteElement, decide_False by done.
      specialize (Hnodes e). rewrite lookup_rewriteElement, decide_True in Hnodes
        by done.
      destruct (nodes d !! e) as [nd|]; [|done]. simpl in *. f_equal.
      apply rewritten_node_orphan. congruence.
    + destruct (nodes (rewriteElement d e' a' l') !! i) as [nd|] eqn:Hnd;
        [|done].
      simpl. f_equal. apply orphan_fixed.
      intros Hp. apply (no_child_of i).
      unfold parentNodeOf. by rewrite Hnd.
  - change (preRemoving (rewriteElement d e' a' l') e
              <$> nodeIterator (rewriteElement d e' a' l')
            = nodeIterator (rewriteElement d e' a' l')).
    destruct (nodeIterator (rewriteElement d e' a' l')) as [it|]; [|done].
    simpl. f_equal. apply preRemoving_childless.
    intros x. apply no_child_of.
Qed.

Lemma alive_after_translate s t t' :
  alive (fst (translate s t')) t = true -> alive s t = true.
Proof.
  rewrite translate_unfold. destruct (negb (alive s t')); [done|].
  destruct (rendering s t') as [[a l]|]; [|done].
  unfold alive. cbn [fst]. rewrite doc_withDoc, parentElement_rewriteElement.
  destruct (bool_decide (parentNodeOf (doc s) (parent t) = Some (parent t')));
    [|done].
  intros Hs%bool_decide_eq_true_1. by destruct Hs.
Qed.

Lemma upToDate_preserved s t t' :
  parent t ≠ parent t' ->
  upToDate s t -> upToDate (fst (translate s t')) t.
Proof.
  unfold upToDate. intros Hne Hup.
  destruct (alive (fst (translate s t')) t) eqn:Ha';
    [|by rewrite (translate_unfold (fst _)), Ha'].
  assert (Ha := alive_after_translate _ _ _ Ha').
  revert Ha'. rewrite (translate_unfold s t').
  destruct (negb (alive s t')); [done|].
  destruct (rendering s t') as [[a' l']|]; [|done].
  cbn [fst]. intros Ha'.
  rewrite translate_unfold, Ha'. cbn [negb].
  change (rendering (withDoc _ s) t) with (rendering s t).
  rewrite translate_unfold, Ha in Hup. cbn [negb] in Hup.
  destruct (rendering s t) as [[a l]|]; [|done].
  cbn [fst] in *. rewrite doc_withDoc.
  apply (f_equal doc) in Hup. rewrite doc_withDoc in Hup.
  by rewrite rewriteElement_other.
Qed.

Lemma fold_upToDate l :
  forall pre s,
    (forall t, t ∈ pre -> upToDate s t) ->
    (forall t t', t ∈ pre -> t' ∈ l -> parent t ≠ parent t') ->
    NoDup (parent <$> l) ->
    forall t, t ∈ pre ++ l ->
      upToDate (fold_left (fun s t => fst (translate s t)) l s) t.
Proof.
  induction l as [|x l IH]; intros pre s Hpre Hsep Hnd t Ht; simpl.
  - rewrite app_nil_r in Ht. by apply Hpre.
  - rewrite fmap_cons in Hnd.
    assert (Hx := NoDup_cons_1_1 _ _ Hnd). apply NoDup_cons_1_2 in Hnd.
    apply (IH (pre ++ [x])); [| |done|by rewrite <- app_assoc].
    + intros t0 [Hin | ->%list_elem_of_singleton]%elem_of_app.
      * apply upToDate_preserved; [|by apply Hpre].
        apply Hsep; [done | left].
      * unfold upToDate. by rewrite translate_again.
    + intros t0 t' [Hin | ->%list_elem_of_singleton]%elem_of_app Hl.
      * apply Hsep; [done | by right].
      * intros Heq. apply Hx. rewrite Heq. by apply list_elem_of_fmap_2.
Qed.

Lemma NoDup_fmap_filter {A B} (f : A -> B) (p : A -> bool) l :
  NoDup (f <$> l) -> NoDup (f <$> List.filter p l).
Proof.
  induction l as [|x l IH]; simpl; [done|].
  intros Hnd'. assert (Hx := NoDup_cons_1_1 _ _ Hnd').
  assert (Hnd := NoDup_cons_1_2 _ _ Hnd').
  destruct (p x); [|by apply IH].
  rewrite fmap_cons. apply NoDup_cons_2; [|by apply IH].
  intros (y & Hy & Hin%list_elem_of_In)%list_elem_of_fmap_1. apply Hx.
  apply filter_In in Hin as [Hin%list_elem_of_In _].
  rewrite Hy. by apply list_elem_of_fmap_2.
Qed.

(** After a refresh pass every entry of the working set is up to date. *)
Lemma translateTags_upToDate sv t :
  NoDup (parent <$> tags sv) ->
  t ∈ tags (translateTags sv) -> upToDate (translateTags sv) t.
Proof.
  intros Hnd. rewrite translateTags_tags. intros Ht. unfold translateTags.
  apply (fold_upToDate _ []); try done.
  - intros t0 Hin. by apply elem_of_nil in Hin.
  - intros t0 t' Hin. by apply elem_of_nil in Hin.
  - by apply NoDup_fmap_filter.
Qed.

(** C3. A configuration change replaces the configuration, stores it
    and refreshes the body.  The refresh pass over the tracked entries
    follows exactly when the tag dictionary is loaded: then (one entry
    for an element) every entry kept is up to date with the new
    configuration; without a dictionary no entry is translated and the
    working set stays as it was. *)
Theorem updateConfig_refresh (sv : Syringe) (c : ConfigData.t) :
  config (updateConfig sv c) = c
  /\ SyncStorage.config (storage (updateConfig sv c)) = c
  /\ (tagMap sv = None ->
      updateConfig sv c = refreshBody (configured sv c)
      /\ tags (updateConfig sv c) = tags sv)
  /\ (tagMap sv ≠ None ->
      updateConfig sv c = translateTags (refreshBody (configured sv c))
      /\ (NoDup (parent <$> tags sv) ->
          forall t, t ∈ tags (updateConfig sv c) ->
                    upToDate (updateConfig sv c) t)).
Proof.
  rewrite updateConfig_unfold.
  destruct (refreshBody_frame (configured sv c)) as [d Hd].
  destruct (translateTags_frame (refreshBody (configured sv c))) as [d' Hd'].
  split; [|split; [|split]].
  - destruct (tagMap sv); [rewrite Hd'|]; by rewrite Hd.
  - destruct (tagMap sv); [rewrite Hd'|]; by rewrite Hd.
  - intros ->. split; [done|]. by rewrite Hd.
  - destruct (tagMap sv); [intros _|done]. split; [done|].
    intros Hnd t. apply translateTags_upToDate. by rewrite Hd.
Qed.

End ConfigUpdate.

(** ** Dispatch of one node *)

Section Dispatch.

Lemma parentElement_parentNode d n p :
  parentElement d n = Some p -> parentNodeOf d n = Some p.
Proof.
  unfold parentElement. destruct (parentNodeOf d n) as [q|]; [|done].
  by destruct (isElement d q); intros [= ->].
Qed.

Lemma create_keyless sv n p :
  parentElement (doc sv) n = Some p -> keyless sv p = true ->
  create sv n = (sv, Boolean (hasAttribute (doc sv) p ATTR)).
Proof.
  unfold create, keyless. intros -> Hk.
  destruct (hasAttribute (doc sv) p ATTR); [done|].
  by destruct (fullKeyCandidate _ _ _) as [[|c k]|].
Qed.

Lemma translateUiTextNode_tags sv n : tags (translateUiTextNode sv n) = tags sv.
Proof. unfold translateUiTextNode. by destruct (translateUiText _ _). Qed.

Lemma text_is_not_body d n :
  nodeNameOf d n = js "#text" -> isNode d n (js "body") = false.
Proof.
  unfold isNode. intros ->. apply andb_false_iff. right. reflexivity.
Qed.

(** C1. A text node in a tag container from whose attributes no key
    can be derived gets no tracked entry.  It counts as handled only
    when the container is a skipped element, is autocomplete text or is
    already marked as processed; otherwise it goes on to the UI
    translation of text nodes whenever [translateUi] is on. *)
Theorem keyless_tag_text (sv : Syringe) (n p : N) :
  inTagContainer sv n p ->
  keyless sv p = true ->
  tags (translateNode sv n) = tags sv
  /\ translateNode sv n
     = if skipNodeHas (nodeNameOf (doc sv) p)
          || classListContains (doc sv) p (js "auto-complete-text")
          || hasAttribute (doc sv) p ATTR
       then sv
       else if ConfigData.translateUi (config sv)
            then translateUiTextNode sv n
            else sv.
Proof.
  intros (Htext & Hname & Hp & Hcont) Hk.
  assert (Hstep :
    translateNode sv n
    = if skipNodeHas (nodeNameOf (doc sv) p)
         || classListContains (doc sv) p (js "auto-complete-text")
         || hasAttribute (doc sv) p ATTR
      then sv
      else if ConfigData.translateUi (config sv)
           then translateUiTextNode sv n
           else sv).
  { unfold translateNode, skipped.
    rewrite Hname, (parentElement_parentNode _ _ _ Hp).
    change (negb (truthy (js "#text")) || skipNodeHas (js "#text")) with false.
    cbn [orb].
    destruct (skipNodeHas (nodeNameOf (doc sv) p)) eqn:Hskip; [done|].
    rewrite (text_is_not_body _ _ Hname).
    unfold translateTag. rewrite Hp, Htext. cbn [negb].
    assert (jseqb (nodeNameOf (doc sv) p) (js "MARK") = false) as ->.
    { unfold jseqb. apply bool_decide_eq_false_2. intros Hm.
      rewrite Hm in Hskip. discriminate Hskip. }
    cbn [orb].
    destruct (classListContains (doc sv) p (js "auto-complete-text")); [done|].
    apply orb_true_iff in Hcont.
    assert (negb (isTagContainer (doc sv) (Some p))
            && negb (isTagContainer (doc sv) (parentElement (doc sv) p))
            = false) as ->.
    { destruct Hcont as [-> | ->]; [done|]. apply andb_false_r. }
    rewrite (create_keyless _ _ _ Hp Hk).
    destruct (hasAttribute (doc sv) p ATTR); [done|]. cbn [negb andb orb].
    unfold translateUi. by rewrite Htext. }
  split; [|done]. rewrite Hstep.
  destruct (skipNodeHas _ || classListContains _ _ _ || hasAttribute _ _ _);
    [done|].
  destruct (ConfigData.translateUi (config sv)); [|done].
  apply translateUiTextNode_tags.
Qed.

Lemma lookup_setAttribute d n k v i :
  nodes (setAttribute d n k v) !! i
  = if decide (i = n)
    then (fun nd => setAttributes (<[k := v]> (attributes nd)) nd)
           <$> nodes d !! i
    else nodes d !! i.
Proof.
  unfold setAttribute, updNode. simpl. case_decide as Hi.
  - subst. by rewrite lookup_alter_eq.
  - rewrite lookup_alter_ne; [done | congruence].
Qed.

Lemma reflected_setAttribute d n k v :
  is_Some (nodes d !! n) -> reflected (setAttribute d n k v) n k = v.
Proof.
  intros [nd Hnd]. unfold reflected, getAttribute.
  rewrite lookup_setAttribute, decide_True, Hnd by done. simpl.
  by rewrite lookup_insert_eq.
Qed.

Lemma valueOf_setAttribute d n k v : valueOf (setAttribute d n k v) n = valueOf d n.
Proof.
  unfold valueOf. rewrite lookup_setAttribute, decide_True by done.
  by destruct (nodes d !! n).
Qed.

Lemma typeOf_setAttribute d n k v : typeOf (setAttribute d n k v) n = typeOf d n.
Proof.
  unfold typeOf. rewrite lookup_setAttribute, decide_True by done.
  by destruct (nodes d !! n).
Qed.

Lemma valueOf_setValue d n v :
  is_Some (nodes d !! n) -> valueOf (updNode (setValue v) n d) n = v.
Proof.
  intros [nd Hnd]. unfold valueOf, updNode. simpl.
  by rewrite lookup_alter_eq, Hnd.
Qed.

Lemma reflected_setValue d n v k :
  reflected (updNode (setValue v) n d) n k = reflected d n k.
Proof.
  unfold reflected, getAttribute, updNode. simpl.
  rewrite lookup_alter_eq. by destruct (nodes d !! n).
Qed.

Lemma isNode_is_Some d n name : isNode d n name = true -> is_Some (nodes d !! n).
Proof.
  unfold isNode. intros [H _]%andb_true_iff. by apply bool_decide_eq_true_1 in H.
Qed.

Lemma is_Some_setAttribute d n k v i :
  is_Some (nodes d !! i) -> is_Some (nodes (setAttribute d n k v) !! i).
Proof.
  intros [nd Hnd]. rewrite lookup_setAttribute, Hnd. by case_decide.
Qed.

(** C9. For an [input] or [textarea], the placeholder becomes its
    translation whenever it is not empty and has one, and is kept
    otherwise; the value becomes its translation only when the type is
    [submit] or [button] (and it has one), and is kept for every other
    type. *)
Theorem control_translation (sv : Syringe) (node : N) :
  isText (doc sv) node = false ->
  isNode (doc sv) node (js "input") || isNode (doc sv) node (js "textarea")
  = true ->
  let placeholder := reflected (doc sv) node (js "placeholder") in
  let type := typeOf (doc sv) node in
  let value := valueOf (doc sv) node in
  let after := doc (translateUi sv node) in
  reflected after node (js "placeholder")
  = (if truthy placeholder
     then default placeholder (translateUiText sv placeholder)
     else placeholder)
  /\ valueOf after node
     = (if jseqb type (js "submit") || jseqb type (js "button")
        then default value (translateUiText sv value)
        else value).
Proof.
  intros Htext Hctl. cbv zeta.
  assert (Hsome : is_Some (nodes (doc sv) !! node)).
  { apply orb_true_iff in Hctl as [H|H]; by apply isNode_is_Some in H. }
  unfold translateUi. rewrite Htext, Hctl. unfold translateUiControl.
  set (ph := reflected (doc sv) node (js "placeholder")).
  destruct (truthy ph) eqn:Hph;
    [destruct (translateUiText sv ph) as [tr|] eqn:Htr|].
  - rewrite doc_withDoc, typeOf_setAttribute, valueOf_setAttribute.
    change (translateUiText (withDoc _ sv)) with (translateUiText sv).
    destruct (jseqb _ _ || jseqb _ _);
      [destruct (translateUiText sv (valueOf (doc sv) node)) as [tv|]|].
    + rewrite !doc_withDoc, reflected_setValue.
      rewrite reflected_setAttribute, valueOf_setValue;
        auto using is_Some_setAttribute.
    + by rewrite doc_withDoc, reflected_setAttribute, valueOf_setAttribute.
    + by rewrite doc_withDoc, reflected_setAttribute, valueOf_setAttribute.
  - destruct (jseqb _ _ || jseqb _ _);
      [destruct (translateUiText sv (valueOf (doc sv) node)) as [tv|]|];
      try done.
    by rewrite doc_withDoc, reflected_setValue, valueOf_setValue.
  - destruct (jseqb _ _ || jseqb _ _);
      [destruct (translateUiText sv (valueOf (doc sv) node)) as [tv|]|];
      try done.
    by rewrite doc_withDoc, reflected_setValue, valueOf_setValue.
Qed.

End Dispatch.

(** ** The invariant of the tracker *)

Section Invariant.

Lemma keeps_refl d : keeps d d.
Proof. by intros Hf. Qed.

Lemma keeps_trans d1 d2 d3 : keeps d1 d2 -> keeps d2 d3 -> keeps d1 d3.
Proof.
  intros H12 H23 Hf. destruct (H12 Hf) as [Hf2 H2].
  destruct (H23 Hf2) as [Hf3 H3]. split; [done|].
  intros x. destruct (H2 x), (H3 x). auto.
Qed.

(** A change of node records that keeps their kinds and markers. *)
Lemma keeps_nodewise d d' :
  nextId d' = nextId d ->
  (forall x,
     match nodes d !! x with
     | Some nd =>
         exists nd', nodes d' !! x = Some nd'
                     /\ nodeType nd' = nodeType nd
                     /\ (is_Some (attributes nd !! ATTR) ->
                         is_Some (attributes nd' !! ATTR))
     | None => nodes d' !! x = None
     end) ->
  keeps d d'.
Proof.
  intros Hid Hx Hf. split.
  - intros k Hk. rewrite Hid in Hk. specialize (Hx k).
    by rewrite (Hf k Hk) in Hx.
  - intros x. specialize (Hx x).
    unfold isElement, hasAttribute, getAttribute.
    destruct (nodes d !! x) as [nd|]; [|done].
    destruct Hx as (nd' & -> & Hty & Hattr). simpl. rewrite Hty.
    split; [done|]. intros H%bool_decide_eq_true_1.
    by apply bool_decide_eq_true_2, Hattr.
Qed.

Lemma keeps_updNode f n d0 d :
  (forall nd, nodeType (f nd) = nodeType nd) ->
  (forall nd, is_Some (attributes nd !! ATTR) ->
              is_Some (attributes (f nd) !! ATTR)) ->
  keeps d0 d -> keeps d0 (updNode f n d).
Proof.
  intros Hty Hattr H0. eapply keeps_trans; [exact H0|].
  apply keeps_nodewise; [done|]. intros x. unfold updNode. simpl.
  rewrite lookup_alter.
  destruct (nodes d !! x) as [nd|] eqn:Hnd; case_decide; subst;
    rewrite ?Hnd; simpl; eauto.
Qed.

Lemma keeps_setAttribute d0 d n k v :
  keeps d0 d -> keeps d0 (setAttribute d n k v).
Proof.
  apply keeps_updNode; [done|]. intros nd Hnd. simpl.
  apply lookup_insert_is_Some'. by right.
Qed.

Lemma keeps_classListAdd d0 d n c : keeps d0 d -> keeps d0 (classListAdd d n c).
Proof. apply keeps_updNode; intros nd; by case_bool_decide. Qed.

Lemma keeps_classListRemoveIf d0 d n p :
  keeps d0 d -> keeps d0 (classListRemoveIf d n p).
Proof. by apply keeps_updNode. Qed.

Lemma keeps_removeChildren d0 d e : keeps d0 d -> keeps d0 (removeChildren d e).
Proof.
  intros H0. eapply keeps_trans; [exact H0|].
  apply keeps_nodewise; [done|]. intros x. unfold removeChildren. simpl.
  rewrite lookup_alter, !lookup_fmap.
  destruct (nodes d !! x) as [nd|] eqn:Hnd; case_decide; subst;
    rewrite ?Hnd; simpl; try done;
    eexists; (split; [done|]); unfold orphan; by case_bool_decide.
Qed.

Lemma keeps_assign d0 d e a : keeps d0 d -> keeps d0 (assign d e a).
Proof. intros H. apply keeps_updNode; [done..|]. by apply keeps_removeChildren. Qed.

Lemma keeps_setTextContent d0 d n s :
  keeps d0 d -> keeps d0 (setTextContent d n s).
Proof.
  intros H. unfold setTextContent. case_match.
  - by apply keeps_updNode.
  - by apply keeps_assign.
Qed.

Lemma keeps_rewriteElement d0 d e a l :
  keeps d0 d -> keeps d0 (rewriteElement d e a l).
Proof. intros H. by apply keeps_setAttribute, keeps_assign. Qed.

Lemma keeps_insertBefore d0 d p new ref :
  keeps d0 d -> keeps d0 (insertBefore d p new ref).
Proof. intros H. by repeat apply keeps_updNode. Qed.

Lemma keeps_withIterator d0 d it : keeps d0 d -> keeps d0 (withIterator it d).
Proof.
  intros H0. eapply keeps_trans; [exact H0|].
  apply keeps_nodewise; [done|]. intros x. simpl.
  destruct (nodes d !! x); eauto.
Qed.

Lemma keeps_createElement d0 d name :
  keeps d0 d -> keeps d0 (fst (createElement d name)).
Proof.
  intros H0. eapply keeps_trans; [exact H0|]. intros Hf.
  assert (Hnew : nodes d !! nextId d = None) by (apply Hf; lia).
  split.
  - intros k Hk. simpl in *. rewrite lookup_insert_ne by lia. apply Hf. lia.
  - intros x. unfold isElement, hasAttribute, getAttribute. simpl.
    destruct (decide (x = nextId d)) as [->|Hx].
    + by rewrite Hnew.
    + by rewrite lookup_insert_ne.
Qed.

Lemma keeps_construct d0 d t : keeps d0 d -> keeps d0 (construct d t).
Proof.
  intros H. unfold construct. case_match; by repeat apply keeps_setAttribute.
Qed.

Ltac keeps_step :=
  first [ apply keeps_setAttribute | apply keeps_classListAdd
        | apply keeps_classListRemoveIf | apply keeps_assign
        | apply keeps_setTextContent | apply keeps_rewriteElement
        | apply keeps_insertBefore | apply keeps_withIterator
        | apply keeps_construct
        | apply keeps_updNode; [done | done |]
        | apply (keeps_createElement _ _ _) ].

Ltac keeps_all :=
  repeat case_match; cbv beta iota zeta; rewrite ?doc_withDoc;
  repeat keeps_step; try apply keeps_refl.

Lemma setBodyAttrs_keeps sv n : keeps (doc sv) (doc (setBodyAttrs sv n)).
Proof. unfold setBodyAttrs. keeps_all. Qed.

Lemma translate_keeps sv t : keeps (doc sv) (doc (fst (translate sv t))).
Proof.
  rewrite translate_unfold. destruct (negb (alive sv t)); [apply keeps_refl|].
  destruct (rendering sv t) as [[a l]|]; [|apply keeps_refl].
  cbn [fst]. rewrite doc_withDoc. apply keeps_rewriteElement, keeps_refl.
Qed.

Lemma docStep_refl s : docStep s s.
Proof. exists (doc s). split; [by rewrite withDoc_doc | apply keeps_refl]. Qed.

Lemma docStep_trans s1 s2 s3 : docStep s1 s2 -> docStep s2 s3 -> docStep s1 s3.
Proof.
  intros (d2 & -> & H2) (d3 & -> & H3). exists d3. split; [done|].
  eapply keeps_trans; [exact H2|]. by rewrite doc_withDoc in H3.
Qed.

Lemma docStep_withDoc s d : keeps (doc s) d -> docStep s (withDoc d s).
Proof. intros H. by exists d. Qed.

Ltac name_created :=
  repeat match goal with
         | H : createElement ?d ?n = (?d', _) |- _ =>
             assert (d' = fst (createElement d n)) as -> by (by rewrite H);
             clear H
         end.

Ltac doc_step :=
  repeat case_match; name_created; try apply docStep_refl;
  apply docStep_withDoc; repeat keeps_step; apply keeps_refl.

Lemma translateUiTextNode_docStep sv n : docStep sv (translateUiTextNode sv n).
Proof. unfold translateUiTextNode. doc_step. Qed.

Lemma translateUiControl_docStep sv n : docStep sv (translateUiControl sv n).
Proof.
  unfold translateUiControl.
  match goal with
  | |- context [translateUiText ?s (valueOf _ _)] => set (sv1 := s)
  end.
  assert (H1 : docStep sv sv1) by (unfold sv1; doc_step).
  eapply docStep_trans; [exact H1|]. clearbody sv1. doc_step.
Qed.

Lemma translateUiOptgroup_docStep sv n : docStep sv (translateUiOptgroup sv n).
Proof. unfold translateUiOptgroup. doc_step. Qed.

Lemma translateUiNav_docStep sv n : docStep sv (translateUiNav sv n).
Proof. unfold translateUiNav. doc_step. Qed.

Lemma translateUiPageCounter_docStep sv n :
  docStep sv (translateUiPageCounter sv n).
Proof.
  unfold translateUiPageCounter. doc_step.
Qed.

Lemma translateUiDiv_docStep sv n : docStep sv (translateUiDiv sv n).
Proof.
  unfold translateUiDiv. case_match; [|apply docStep_refl].
  match goal with
  | |- context [parentElement (doc ?s) n] => set (sv1 := s)
  end.
  assert (H1 : docStep sv sv1).
  { unfold sv1. doc_step. }
  eapply docStep_trans; [exact H1|]. clearbody sv1. doc_step.
Qed.

(** The UI translation changes nothing but the document. *)
Lemma translateUi_docStep sv n : docStep sv (translateUi sv n).
Proof.
  unfold translateUi.
  destruct (isText (doc sv) n); [apply translateUiTextNode_docStep|].
  destruct (isNode _ _ _ || isNode _ _ _); [apply translateUiControl_docStep|].
  destruct (isNode _ _ _); [apply translateUiOptgroup_docStep|].
  eapply docStep_trans; [apply translateUiNav_docStep|].
  eapply docStep_trans; [apply translateUiPageCounter_docStep|].
  apply translateUiDiv_docStep.
Qed.

Lemma translateUi_frame sv n : exists d, translateUi sv n = withDoc d sv.
Proof. destruct (translateUi_docStep sv n) as (d & -> & _). by exists d. Qed.

Lemma translateUi_keeps sv n : keeps (doc sv) (doc (translateUi sv n)).
Proof. by destruct (translateUi_docStep sv n) as (d & -> & ?). Qed.

Lemma tracked_withDoc sv d :
  tracked sv -> keeps (doc sv) d -> tracked (withDoc d sv).
Proof.
  intros (Hf & Hall & Hnd) Hk. destruct (Hk Hf) as [Hf' Hx].
  split; [done|]. split; [|done].
  eapply Forall_impl; [|exact Hall]. intros t [Hel Hm].
  destruct (Hx (parent t)). rewrite doc_withDoc. auto.
Qed.

Lemma create_boolean sv n sv1 b : create sv n = (sv1, Boolean b) -> sv1 = sv.
Proof. unfold create. repeat case_match; by intros [= <-]. Qed.

Lemma create_newref sv n sv1 t :
  create sv n = (sv1, NewRef t) -> sv1 = withDoc (construct (doc sv) t) sv.
Proof. unfold create. repeat case_match; by intros [= <- <-]. Qed.

(** Tracking a new entry keeps the invariant. *)
Lemma translateTag_tracked sv n :
  tracked sv -> tracked (fst (translateTag sv n)).
Proof.
  intros Htr. unfold translateTag.
  destruct (parentElement (doc sv) n) as [p|]; [|done].
  destruct (negb (isText (doc sv) n)); [done|].
  destruct (jseqb _ _ || classListContains _ _ _); [done|].
  destruct (negb _ && negb _); [done|].
  destruct (create sv n) as [sv1 [ref|b]] eqn:Hc; cbn [fst];
    [|by rewrite (create_boolean _ _ _ _ Hc)].
  destruct (create_marks _ _ _ _ Hc) as (_ & _ & Hno & Hyes & Hel).
  pose proof (create_newref _ _ _ _ Hc) as ->.
  set (sv1 := withDoc (construct (doc sv) ref) sv) in *.
  assert (H1 : tracked sv1)
    by (apply tracked_withDoc; [done | apply keeps_construct, keeps_refl]).
  destruct (translate_frame sv1 ref) as [d2 Hd2].
  pose proof (translate_keeps sv1 ref) as Hk2. rewrite Hd2 in Hk2 |- *.
  rewrite doc_withDoc in Hk2.
  destruct (tracked_withDoc _ _ H1 Hk2) as (Hf2 & Hall2 & Hnd2).
  destruct (Hk2 (proj1 H1)) as [_ Hx].
  split; [done|]. split.
  - apply Forall_app. split; [done|]. constructor; [|done].
    change (doc (withTags _ (withDoc d2 sv1))) with d2.
    destruct (Hx (parent ref)). auto.
  - change (tags (withTags ?l _)) with l. rewrite fmap_app.
    apply list.NoDup_app. split; [done|]. split; [|apply NoDup_singleton].
    intros x Hx1 Hx2.
    apply list_elem_of_fmap_1 in Hx1 as (t & Hxt & Hin).
    change (parent <$> [ref]) with [parent ref] in Hx2.
    apply list_elem_of_singleton in Hx2.
    destruct Htr as (_ & Hall & _).
    eapply Forall_forall in Hall as [_ Hm];
      [|first [exact Hin | apply list_elem_of_In; exact Hin]].
    congruence.
Qed.

Lemma translateNode_tracked sv n : tracked sv -> tracked (translateNode sv n).
Proof.
  intros Htr. unfold translateNode. destruct (skipped (doc sv) n); [done|].
  set (s0 := if isNode (doc sv) n (js "body") then setBodyAttrs sv n else sv).
  assert (H0 : tracked s0).
  { unfold s0. case_match; [|done].
    apply (tracked_withDoc sv); [done | apply setBodyAttrs_keeps]. }
  pose proof (translateTag_tracked s0 n H0) as H1.
  destruct (translateTag s0 n) as [s1 handled]. cbn [fst] in H1.
  case_match; [|done].
  destruct (translateUi_frame s1 n) as [d Hd].
  pose proof (translateUi_keeps s1 n) as Hk. rewrite Hd in Hk |- *.
  rewrite doc_withDoc in Hk. by apply tracked_withDoc.
Qed.

Lemma Forall_list_filter {A} (P : A -> Prop) (p : A -> bool) l :
  Forall P l -> Forall P (List.filter p l).
Proof.
  induction 1 as [|x l Hx Hl IH]; simpl; [done|].
  destruct (p x); [by constructor | done].
Qed.

Lemma translateTags_tracked sv : tracked sv -> tracked (translateTags sv).
Proof.
  intros (Hf & Hall & Hnd). unfold translateTags.
  apply (fold_left_invariant _ tracked).
  - split; [done|]. split.
    + by apply Forall_list_filter.
    + by apply NoDup_fmap_filter.
  - intros s t _ Hs. destruct (translate_frame s t) as [d Hd].
    pose proof (translate_keeps s t) as Hk. rewrite Hd in Hk |- *.
    rewrite doc_withDoc in Hk. by apply tracked_withDoc.
Qed.

Lemma updateConfig_tracked sv c : tracked sv -> tracked (updateConfig sv c).
Proof.
  intros Htr. rewrite updateConfig_unfold.
  assert (H1 : tracked (refreshBody (configured sv c))).
  { unfold refreshBody. case_match; [|done].
    apply (tracked_withDoc (configured sv c)); [done|].
    apply setBodyAttrs_keeps. }
  destruct (tagMap sv); [by apply translateTags_tracked | done].
Qed.

Lemma tagMapAnswer_tracked sv map sha :
  tracked sv -> tracked (tagMapAnswer sv map sha).
Proof.
  intros Htr. unfold tagMapAnswer. destruct map as [m|]; [|done].
  by apply (translateTags_tracked (withTagMap (Some (name <$> m)) sv)).
Qed.

Lemma traverse_tracked fuel :
  forall sv seen sv' log,
    tracked sv -> traverse fuel sv seen = Some (sv', log) -> tracked sv'.
Proof.
  induction fuel as [|f IH]; intros sv seen sv' log Htr; simpl; [done|].
  assert (Hnext : tracked (withDoc (fst (nextNode (doc sv))) sv)).
  { apply tracked_withDoc; [done|]. unfold nextNode.
    repeat case_match; cbn [fst]; try apply keeps_withIterator;
      apply keeps_refl. }
  destruct (nextNode (doc sv)) as [d [node|]]; cbn [fst] in Hnext.
  - apply IH. by apply translateNode_tracked.
  - by intros [= <- _].
Qed.

Lemma addedNode_tracked fuel sv n sv' log :
  tracked sv -> addedNode fuel sv n = Some (sv', log) -> tracked sv'.
Proof.
  intros Htr. unfold addedNode.
  pose proof (translateNode_tracked sv n Htr) as H1.
  destruct (documentEnd _ && true); [|by intros [= <- _]].
  apply traverse_tracked. apply tracked_withDoc; [done|].
  apply keeps_withIterator, keeps_refl.
Qed.

Lemma observe_tracked fuel added :
  forall sv sv' log,
    tracked sv -> observe fuel sv added = Some (sv', log) -> tracked sv'.
Proof.
  induction added as [|n rest IH]; intros sv sv' log Htr; simpl.
  - by intros [= <- _].
  - destruct (addedNode fuel sv n) as [[s1 l1]|] eqn:H1; simpl; [|done].
    destruct (observe fuel s1 rest) as [[s2 l2]|] eqn:H2; simpl; [|done].
    intros [= <- _]. eapply IH; [|exact H2].
    eapply addedNode_tracked; [exact Htr | exact H1].
Qed.

(** Every reaction of the pipeline keeps the invariant of the tracker:
    in every state it reaches from one without entries, the entries own
    marked elements, one entry for an element. *)
Lemma run_tracked fuel es :
  forall sv sv', tracked sv -> run fuel sv es = Some sv' -> tracked sv'.
Proof.
  induction es as [|e es IH]; intros sv sv' Htr; simpl.
  - by intros [= <-].
  - destruct (step fuel sv e) as [s1|] eqn:H1; simpl; [|done].
    apply IH. destruct e as [|records|[nv|]|conf|map sha]; simpl in H1.
    + by injection H1 as <-.
    + destruct (observe fuel sv (concat records)) as [[s2 l2]|] eqn:H2;
        [|done].
      injection H1 as <-. eapply observe_tracked; [exact Htr | exact H2].
    + injection H1 as <-. by apply updateConfig_tracked.
    + by injection H1 as <-.
    + injection H1 as <-. by apply updateConfig_tracked.
    + injection H1 as <-. by apply tagMapAnswer_tracked.
Qed.

(** What the statements about the refresh pass ask of a state. *)
Lemma tracked_entries sv :
  tracked sv ->
  Forall (fun t => isElement (doc sv) (parent t) = true) (tags sv)
  /\ NoDup (parent <$> tags sv).
Proof.
  intros (_ & Hall & Hnd). split; [|done].
  eapply Forall_impl; [|exact Hall]. by intros t [? _].
Qed.

Lemma tracked_initially sv : freshIds (doc sv) -> tags sv = [] -> tracked sv.
Proof.
  intros Hf Ht. split; [done|]. rewrite Ht. split; [constructor|].
  apply NoDup_nil_2.
Qed.

End Invariant.

(** ** The mutation pipeline *)

Section Pipeline.

Lemma sameService_refl s : sameService s s.
Proof. exists (doc s), (tags s). by destruct s as [? ? ? ? [] ? ? ? ?]. Qed.

Lemma sameService_trans s1 s2 s3 :
  sameService s1 s2 -> sameService s2 s3 -> sameService s1 s3.
Proof. intros (d & ts & ->) (d' & ts' & ->). by exists d', ts'. Qed.

Lemma sameService_withDoc s d : sameService s (withDoc d s).
Proof. exists d, (tags s). by destruct s. Qed.

Lemma sameService_withTags s ts : sameService s (withTags ts s).
Proof. exists (doc s), ts. by destruct s as [? ? ? ? [] ? ? ? ?]. Qed.

Lemma sameService_documentEnd s s' :
  sameService s s' -> documentEnd s' = documentEnd s.
Proof. by intros (d & ts & ->). Qed.


#[local] Hint Resolve sameService_refl sameService_withDoc
  sameService_withTags : core.

Lemma translate_sameService s t : sameService s (fst (translate s t)).
Proof. destruct (translate_frame s t) as [d ->]. auto. Qed.

Lemma create_sameService s n : sameService s (fst (create s n)).
Proof. unfold create. repeat case_match; simpl; auto. Qed.

Lemma translateTag_sameService s n : sameService s (fst (translateTag s n)).
Proof.
  unfold translateTag.
  destruct (parentElement (doc s) n) as [p|]; [|simpl; auto].
  destruct (negb (isText (doc s) n)); [simpl; auto|].
  destruct (jseqb _ _ || classListContains _ _ _); [simpl; auto|].
  destruct (negb _ && negb _); [simpl; auto|].
  assert (Hc := create_sameService s n).
  destruct (create s n) as [s1 [ref|b]]; simpl in *; [|done].
  eapply sameService_trans; [exact Hc|].
  eapply sameService_trans; [apply translate_sameService|]. auto.
Qed.

Lemma sameService_doc s s' d :
  sameService s s' -> sameService s (withDoc d s').
Proof. intros H. eapply sameService_trans; [exact H | auto]. Qed.

Lemma sameService_tags s s' ts :
  sameService s s' -> sameService s (withTags ts s').
Proof. intros H. eapply sameService_trans; [exact H | auto]. Qed.

Lemma translateUi_sameService s n : sameService s (translateUi s n).
Proof. destruct (translateUi_frame s n) as [d ->]. auto. Qed.

Lemma translateNode_sameService s n : sameService s (translateNode s n).
Proof.
  unfold translateNode. destruct (skipped (doc s) n); [auto|].
  set (s0 := if isNode (doc s) n (js "body") then setBodyAttrs s n else s).
  assert (H0 : sameService s s0) by (unfold s0, setBodyAttrs; case_match; auto).
  assert (H1 := translateTag_sameService s0 n).
  destruct (translateTag s0 n) as [s1 handled]. simpl in H1.
  eapply sameService_trans; [exact H0|].
  eapply sameService_trans; [exact H1|].
  case_match; [apply translateUi_sameService | auto].
Qed.

Lemma nextNode_sameService s :
  sameService s (withDoc (fst (nextNode (doc s))) s).
Proof. auto. Qed.
















(** *** Trees under the rewrite of an element *)

Lemma sameShape_refl d : sameShape d d.
Proof. done. Qed.

Lemma sameShape_trans d1 d2 d3 :
  sameShape d1 d2 -> sameShape d2 d3 -> sameShape d1 d3.
Proof.
  intros (Hc & Hp & Hs & Hi & Ht) (Hc' & Hp' & Hs' & Hi' & Ht').
  repeat split; intros; congruence.
Qed.

Lemma sameShape_updNode f n d0 d :
  (forall nd, parentNode (f nd) = parentNode nd) ->
  (forall nd, childNodes (f nd) = childNodes nd) ->
  (forall nd, nodeType (f nd) = nodeType nd) ->
  sameShape d0 d -> sameShape d0 (updNode f n d).
Proof.
  intros Hp Hc Ht H0. eapply sameShape_trans; [exact H0|].
  unfold updNode. repeat split; simpl.
  - intros x. unfold childNodesOf. simpl. rewrite lookup_alter.
    case_decide; subst; destruct (nodes d !! x); simpl; by rewrite ?Hc.
  - intros x. unfold parentNodeOf. simpl. rewrite lookup_alter.
    case_decide; subst; destruct (nodes d !! x); simpl; by rewrite ?Hp.
  - by rewrite <- !size_dom, dom_alter_L.
  - intros x. unfold isTextNode. simpl. rewrite lookup_alter.
    case_decide; subst; destruct (nodes d !! x); simpl; by rewrite ?Ht.
Qed.

Lemma sameShape_setAttribute d0 d n k v :
  sameShape d0 d -> sameShape d0 (setAttribute d n k v).
Proof. by apply sameShape_updNode. Qed.

Lemma sameShape_classListAdd d0 d n c :
  sameShape d0 d -> sameShape d0 (classListAdd d n c).
Proof. apply sameShape_updNode; intros nd; by case_bool_decide. Qed.

Lemma sameShape_classListRemoveIf d0 d n p :
  sameShape d0 d -> sameShape d0 (classListRemoveIf d n p).
Proof. by apply sameShape_updNode. Qed.

Lemma sameShape_construct d0 d t :
  sameShape d0 d -> sameShape d0 (construct d t).
Proof.
  intros H. unfold construct. case_match; by repeat apply sameShape_setAttribute.
Qed.

Lemma sameShape_setBodyAttrs sv n : sameShape (doc sv) (doc (setBodyAttrs sv n)).
Proof.
  unfold setBodyAttrs. rewrite doc_withDoc.
  repeat case_match;
    repeat first [ apply sameShape_setAttribute | apply sameShape_classListAdd
                 | apply sameShape_classListRemoveIf ];
    apply sameShape_refl.
Qed.







Lemma subtree_self fuel d n : n ∈ subtree fuel d n.
Proof. destruct fuel; left. Qed.








(** *** The traversal with the UI translation off *)



Lemma isText_sameShape d d' x : sameShape d d' -> isText d' x = isText d x.
Proof. intros (_ & _ & _ & _ & Ht). apply Ht. Qed.










End Pipeline.

(** * Further properties *)


(** ** Further properties: the attributes of the body *)

Lemma updNode_updNode f g n d :
  updNode f n (updNode g n d) = updNode (f ∘ g) n d.
Proof.
  unfold updNode, withNodes. simpl. f_equal. apply map_eq. intros i.
  destruct (decide (n = i)) as [->|Hi].
  - rewrite !lookup_alter_eq. by destruct (nodes d !! i).
  - by rewrite !lookup_alter_ne.
Qed.

Lemma doc_setBodyAttrs sv n :
  doc (setBodyAttrs sv n) = updNode (bodyNode sv) n (doc sv).
Proof.
  unfold setBodyAttrs, bodyNode, configLang, siteClass.
  rewrite doc_withDoc.
  unfold classListAdd, classListRemoveIf, setAttribute.
  destruct (ConfigData.showIcon (config sv)),
    (ConfigData.translateTag (config sv)),
    (ConfigData.translateUi (config sv)); cbn [negb];
    by rewrite !updNode_updNode.
Qed.

Lemma lookup_updNode f n d x :
  nodes (updNode f n d) !! x
  = if decide (x = n) then f <$> nodes d !! x else nodes d !! x.
Proof.
  unfold updNode. simpl. case_decide as Hx.
  - subst. by rewrite lookup_alter_eq.
  - rewrite lookup_alter_ne; [done | congruence].
Qed.

Lemma startsWith_ehs_level z :
  startsWith (js "ehs") (js "ehs-image-level-" ++ numberToString z) = true.
Proof. reflexivity. Qed.

Lemma level_not_hide z :
  js "ehs-image-level-" ++ numberToString z ≠ js "ehs-hide-icon".
Proof. intros H. apply (f_equal (fun l => l !! 4%nat)) in H. done. Qed.

Lemma level_not_translate z :
  js "ehs-image-level-" ++ numberToString z ≠ js "ehs-translate-tag".
Proof. intros H. apply (f_equal (fun l => l !! 4%nat)) in H. done. Qed.

Lemma not_in_filtered (cl : list jsstring) k :
  startsWith (js "ehs") k = true ->
  k ∉ List.filter (fun k => negb (startsWith (js "ehs") k)) cl.
Proof.
  intros Hk Hin%list_elem_of_In. apply filter_In in Hin as [_ H].
  by rewrite Hk in H.
Qed.

Lemma bare_addClass c nd : bare (addClass c nd) = bare nd.
Proof. unfold addClass. by case_bool_decide. Qed.

Lemma attributes_addClass c nd : attributes (addClass c nd) = attributes nd.
Proof. unfold addClass. by case_bool_decide. Qed.

Lemma classList_addClass c nd :
  c ∉ classList nd -> classList (addClass c nd) = classList nd ++ [c].
Proof. intros H. unfold addClass. by rewrite bool_decide_eq_false_2. Qed.

Lemma bare_fields nd nd' :
  bare nd' = bare nd ->
  nodeType nd' = nodeType nd /\ nodeName nd' = nodeName nd
  /\ parentNode nd' = parentNode nd /\ childNodes nd' = childNodes nd
  /\ data nd' = data nd /\ assigned nd' = assigned nd
  /\ inputType nd' = inputType nd /\ value nd' = value nd.
Proof. destruct nd, nd'. unfold bare. simpl. by intros [= -> -> -> -> -> -> -> ->]. Qed.

(** The record [setBodyAttrs] leaves. *)
Lemma bodyNode_fields sv nd :
  classList (bodyNode sv nd)
  = List.filter (fun k => negb (startsWith (js "ehs") k))
                (classList (addClass (siteClass sv) nd))
    ++ configClasses (config sv)
  /\ attributes (bodyNode sv nd)
     = <[js "lang" := configLang (config sv)]> (attributes nd)
  /\ bare (bodyNode sv nd) = bare nd.
Proof.
  unfold bodyNode, configClasses.
  set (nd1 := addClass (siteClass sv) nd).
  set (base := List.filter _ (classList nd1)).
  set (level := js "ehs-image-level-" ++ _).
  assert (Hbase : forall k, startsWith (js "ehs") k = true -> k ∉ base)
    by (intros k Hk; by apply not_in_filtered).
  set (nd2 := setClassList base nd1).
  set (nd3 := if negb (ConfigData.showIcon (config sv))
              then addClass (js "ehs-hide-icon") nd2 else nd2).
  set (nd4 := if ConfigData.translateTag (config sv)
              then addClass (js "ehs-translate-tag") nd3 else nd3).
  set (nd5 := setAttributes _ nd4).
  assert (B1 : bare nd1 = bare nd) by apply bare_addClass.
  assert (A1 : attributes nd1 = attributes nd) by apply attributes_addClass.
  assert (B2 : bare nd2 = bare nd) by (by rewrite <- B1).
  assert (A2 : attributes nd2 = attributes nd) by (by rewrite <- A1).
  assert (C2 : classList nd2 = base) by done.
  assert (H3 : bare nd3 = bare nd /\ attributes nd3 = attributes nd
               /\ classList nd3
                  = base ++ (if ConfigData.showIcon (config sv)
                             then [] else [js "ehs-hide-icon"])).
  { unfold nd3. destruct (ConfigData.showIcon (config sv)); cbn [negb].
    - by rewrite app_nil_r.
    - rewrite bare_addClass, attributes_addClass, classList_addClass, C2;
        [done|]. rewrite C2. by apply Hbase. }
  destruct H3 as (B3 & A3 & C3).
  assert (H4 : bare nd4 = bare nd /\ attributes nd4 = attributes nd
               /\ classList nd4
                  = classList nd3
                    ++ (if ConfigData.translateTag (config sv)
                        then [js "ehs-translate-tag"] else [])).
  { unfold nd4. destruct (ConfigData.translateTag (config sv)).
    - rewrite bare_addClass, attributes_addClass, classList_addClass;
        [done|]. rewrite C3, elem_of_app. intros [H|H].
      + by eapply Hbase; [|exact H].
      + destruct (ConfigData.showIcon (config sv)).
        * by apply elem_of_nil in H.
        * by apply list_elem_of_singleton in H.
    - by rewrite app_nil_r. }
  destruct H4 as (B4 & A4 & C4).
  assert (B5 : bare nd5 = bare nd) by (by rewrite <- B4).
  assert (C5 : classList nd5 = classList nd4) by done.
  rewrite bare_addClass, attributes_addClass, classList_addClass.
  - rewrite C5, C4, C3, <- !app_assoc. split; [done|]. split; [|done].
    unfold nd5. simpl. by rewrite A4.
  - rewrite C5, C4, C3, !elem_of_app. intros [[H|H]|H].
    + by eapply Hbase; [|exact H].
    + destruct (ConfigData.showIcon (config sv)).
      * by apply elem_of_nil in H.
      * apply list_elem_of_singleton in H. by eapply level_not_hide.
    + destruct (ConfigData.translateTag (config sv)).
      * apply list_elem_of_singleton in H. by eapply level_not_translate.
      * by apply elem_of_nil in H.
Qed.

Lemma node_eq nd nd' :
  classList nd' = classList nd -> attributes nd' = attributes nd ->
  bare nd' = bare nd -> nd' = nd.
Proof.
  destruct nd, nd'. unfold bare. simpl.
  by intros -> -> [= -> -> -> -> -> -> -> ->].
Qed.

Lemma updNode_ext f g n d :
  (forall nd, f nd = g nd) -> updNode f n d = updNode g n d.
Proof.
  intros H. unfold updNode, withNodes. f_equal. apply map_eq. intros i.
  destruct (decide (n = i)) as [->|Hi].
  - rewrite !lookup_alter_eq. destruct (nodes d !! i); simpl; [|done].
    by rewrite H.
  - by rewrite !lookup_alter_ne.
Qed.

Lemma configClasses_ehs c k :
  k ∈ configClasses c -> startsWith (js "ehs") k = true.
Proof.
  unfold configClasses. rewrite !elem_of_app.
  destruct (ConfigData.showIcon c), (ConfigData.translateTag c);
    rewrite ?elem_of_nil, ?list_elem_of_singleton;
    intros H; destruct_or?; subst; try done.
Qed.

Lemma siteClass_not_ehs sv : startsWith (js "ehs") (siteClass sv) = false.
Proof. unfold siteClass. by destruct (negb _). Qed.

Lemma in_addClass c nd k :
  k ∈ classList (addClass c nd) <-> k ∈ classList nd \/ k = c.
Proof.
  unfold addClass. case_bool_decide as Hc; simpl.
  - split; [intros H; by left | intros [H| ->]; done].
  - by rewrite elem_of_app, list_elem_of_singleton.
Qed.

Lemma in_filter_ehs (cl : list jsstring) k :
  k ∈ List.filter (fun k => negb (startsWith (js "ehs") k)) cl
  <-> k ∈ cl /\ startsWith (js "ehs") k = false.
Proof.
  rewrite !list_elem_of_In, filter_In, negb_true_iff. done.
Qed.

Lemma filter_ehs_twice (cl : list jsstring) ks :
  (forall k, k ∈ ks -> startsWith (js "ehs") k = true) ->
  List.filter (fun k => negb (startsWith (js "ehs") k))
    (List.filter (fun k => negb (startsWith (js "ehs") k)) cl ++ ks)
  = List.filter (fun k => negb (startsWith (js "ehs") k)) cl.
Proof.
  intros Hks. rewrite List.filter_app.
  replace (List.filter _ ks) with (@nil jsstring).
  - rewrite app_nil_r. induction cl as [|x cl IH]; [done|].
    cbn [List.filter].
    destruct (negb (startsWith (js "ehs") x)) eqn:Hx; cbn [List.filter];
      [|exact IH].
    by rewrite Hx, IH.
  - symmetry. induction ks as [|x ks IH]; [done|]. cbn [List.filter].
    rewrite (Hks x) by left. cbn [negb]. apply IH. intros k Hk. apply Hks.
    by right.
Qed.

(** The configuration applied last decides. *)
Lemma bodyNode_twice s1 s2 nd :
  siteClass s2 = siteClass s1 ->
  bodyNode s2 (bodyNode s1 nd) = bodyNode s2 nd.
Proof.
  intros Hsite.
  destruct (bodyNode_fields s1 nd) as (C1 & A1 & B1).
  destruct (bodyNode_fields s2 nd) as (C2 & A2 & B2).
  destruct (bodyNode_fields s2 (bodyNode s1 nd)) as (C3 & A3 & B3).
  apply node_eq.
  - rewrite C3, C2. f_equal.
    assert (Hin : siteClass s2 ∈ classList (bodyNode s1 nd)).
    { rewrite C1, elem_of_app. left. apply in_filter_ehs.
      split; [|apply siteClass_not_ehs]. rewrite Hsite. apply in_addClass.
      by right. }
    unfold addClass at 1. rewrite bool_decide_eq_true_2 by done.
    rewrite C1, Hsite. apply filter_ehs_twice. apply configClasses_ehs.
  - by rewrite A3, A2, A1, insert_insert_eq.
  - by rewrite B3, B2, B1.
Qed.

Lemma bodyNode_ext s s' nd :
  config s' = config s ->
  Window.locationHost (window s') = Window.locationHost (window s) ->
  bodyNode s' nd = bodyNode s nd.
Proof. unfold bodyNode, siteClass. by intros -> ->. Qed.

Lemma setBodyAttrs_unfold sv n :
  setBodyAttrs sv n = withDoc (updNode (bodyNode sv) n (doc sv)) sv.
Proof. by rewrite <- doc_setBodyAttrs. Qed.

(** X9. After [setBodyAttrs] the [ehs] classes of the body are
    exactly those the current configuration asks for (whatever [ehs]
    classes it had), its other classes are those it had and the class
    of the site, the class list stays without duplicates, the language
    marker follows [translateUi], and nothing else of the body and no
    other node changes. *)
Theorem setBodyAttrs_reflects_config (sv : Syringe) (node : N)
    (nd : DomNode) :
  nodes (doc sv) !! node = Some nd ->
  exists nd',
    nodes (doc (setBodyAttrs sv node)) !! node = Some nd'
    /\ (forall k, startsWith (js "ehs") k = true ->
                  k ∈ classList nd' <-> k ∈ configClasses (config sv))
    /\ (forall k, startsWith (js "ehs") k = false ->
                  k ∈ classList nd' <-> k ∈ classList nd \/ k = siteClass sv)
    /\ (NoDup (classList nd) -> NoDup (classList nd'))
    /\ attributes nd' = <[js "lang" := configLang (config sv)]> (attributes nd)
    /\ bare nd' = bare nd
    /\ (forall x, x ≠ node ->
                  nodes (doc (setBodyAttrs sv node)) !! x
                  = nodes (doc sv) !! x).
Proof.
  intros Hnd. exists (bodyNode sv nd).
  destruct (bodyNode_fields sv nd) as (C & A & B).
  rewrite doc_setBodyAttrs. split.
  { by rewrite lookup_updNode, decide_True, Hnd. }
  split.
  { intros k Hk. rewrite C, elem_of_app, in_filter_ehs. split.
    - intros [[_ H]|H]; [congruence | done].
    - by right. }
  split.
  { intros k Hk. rewrite C, elem_of_app, in_filter_ehs, in_addClass. split.
    - intros [[H _]|H]; [done|]. apply configClasses_ehs in H. congruence.
    - intros H. by left. }
  split.
  { intros Hnodup. rewrite C. apply list.NoDup_app. split; [|split].
    - apply NoDup_ListNoDup, NoDup_filter, NoDup_ListNoDup.
      unfold addClass. case_bool_decide as Hs; [done|]. simpl.
      apply list.NoDup_app. split; [done|]. split; [|apply NoDup_singleton].
      by intros x Hx ->%list_elem_of_singleton.
    - intros k [_ Hk]%in_filter_ehs Hk'%configClasses_ehs. congruence.
    - unfold configClasses.
      destruct (ConfigData.showIcon (config sv)),
        (ConfigData.translateTag (config sv)); cbn [app];
        repeat (apply NoDup_cons_2 || apply NoDup_nil_2);
        rewrite ?not_elem_of_cons; repeat split;
        try apply not_elem_of_nil; try done.
      all: intros H; symmetry in H; revert H;
        (apply level_not_hide || apply level_not_translate). }
  split; [done|]. split; [done|].
  intros x Hx. by rewrite lookup_updNode, decide_False.
Qed.

Lemma setBodyAttrs_withDoc c d sv n :
  setBodyAttrs (withConfig c (withDoc d sv)) n
  = withDoc (updNode (bodyNode (withConfig c sv)) n d) (withConfig c sv).
Proof. rewrite setBodyAttrs_unfold. reflexivity. Qed.

(** X10. [setBodyAttrs] keeps no trace of an earlier configuration:
    applying it under one configuration and then under another gives
    what applying it under the second alone gives; in particular it is
    idempotent. *)
Theorem setBodyAttrs_last_config_wins (sv : Syringe) (node : N)
    (c1 c2 : ConfigData.t) :
  setBodyAttrs (withConfig c2 (setBodyAttrs (withConfig c1 sv) node)) node
  = setBodyAttrs (withConfig c2 sv) node
  /\ setBodyAttrs (setBodyAttrs sv node) node = setBodyAttrs sv node.
Proof.
  assert (Hgen : forall c1 c2,
    setBodyAttrs (withConfig c2 (setBodyAttrs (withConfig c1 sv) node)) node
    = setBodyAttrs (withConfig c2 sv) node).
  { clear c1 c2. intros c1 c2.
    rewrite (setBodyAttrs_unfold (withConfig c1 sv)).
    change (doc (withConfig c1 sv)) with (doc sv).
    set (D1 := updNode (bodyNode (withConfig c1 sv)) node (doc sv)).
    change (withConfig c2 (withDoc D1 (withConfig c1 sv)))
      with (withConfig c2 (withDoc D1 sv)).
    rewrite setBodyAttrs_withDoc, (setBodyAttrs_unfold (withConfig c2 sv)).
    change (doc (withConfig c2 sv)) with (doc sv).
    f_equal. unfold D1. rewrite updNode_updNode. apply updNode_ext.
    intros nd. unfold compose. apply bodyNode_twice. reflexivity. }
  split; [apply Hgen|].
  specialize (Hgen (config sv) (config sv)).
  assert (Hsv : withConfig (config sv) sv = sv) by (by destruct sv).
  rewrite Hsv in Hgen.
  assert (Hsv' : withConfig (config sv) (setBodyAttrs sv node)
                 = setBodyAttrs sv node) by (by destruct sv).
  by rewrite Hsv' in Hgen.
Qed.

Lemma lookup_setBodyAttrs sv n x :
  nodes (doc (setBodyAttrs sv n)) !! x
  = if decide (x = n) then bodyNode sv <$> nodes (doc sv) !! x
    else nodes (doc sv) !! x.
Proof. by rewrite doc_setBodyAttrs, lookup_updNode. Qed.

Lemma parentNodeOf_setBodyAttrs sv n x :
  parentNodeOf (doc (setBodyAttrs sv n)) x = parentNodeOf (doc sv) x.
Proof.
  unfold parentNodeOf. rewrite lookup_setBodyAttrs. case_decide; [|done].
  destruct (nodes (doc sv) !! x) as [nd|]; [|done]. simpl.
  destruct (bodyNode_fields sv nd) as (_ & _ & B).
  by destruct (bare_fields _ _ B) as (_ & _ & -> & _).
Qed.

Lemma isElement_setBodyAttrs sv n x :
  isElement (doc (setBodyAttrs sv n)) x = isElement (doc sv) x.
Proof.
  unfold isElement. rewrite lookup_setBodyAttrs. case_decide; [|done].
  destruct (nodes (doc sv) !! x) as [nd|]; [|done]. simpl.
  destruct (bodyNode_fields sv nd) as (_ & _ & B).
  by destruct (bare_fields _ _ B) as (-> & _).
Qed.

Lemma parentElement_setBodyAttrs sv n x :
  parentElement (doc (setBodyAttrs sv n)) x = parentElement (doc sv) x.
Proof.
  unfold parentElement. rewrite parentNodeOf_setBodyAttrs.
  destruct (parentNodeOf (doc sv) x); [|done].
  by rewrite isElement_setBodyAttrs.
Qed.

Lemma getAttribute_setBodyAttrs sv n x k :
  k ≠ js "lang" ->
  getAttribute (doc (setBodyAttrs sv n)) x k = getAttribute (doc sv) x k.
Proof.
  intros Hk. unfold getAttribute. rewrite lookup_setBodyAttrs.
  case_decide; [|done].
  destruct (nodes (doc sv) !! x) as [nd|]; [|done]. simpl.
  destruct (bodyNode_fields sv nd) as (_ & -> & _).
  by rewrite lookup_insert_ne.
Qed.

(** ** Further properties: key derivation from the identifier *)

Lemma underscoresToSpaces_app a b :
  underscoresToSpaces (a ++ b) = underscoresToSpaces a ++ underscoresToSpaces b.
Proof. unfold underscoresToSpaces. apply fmap_app. Qed.

Lemma underscoresToSpaces_colon s : 58 ∈ underscoresToSpaces s <-> 58 ∈ s.
Proof.
  unfold underscoresToSpaces. rewrite list_elem_of_fmap. split.
  - intros (c & Hc & Hin). destruct (N.eqb_spec c 95) as [Heq|_]; [done|].
    by rewrite Hc.
  - intros Hin. exists 58. split; [reflexivity | done].
Qed.

(** X1. Without a title the key is derived from the identifier: a
    leading [ta_] is dropped and every underscore becomes a space.  An
    identifier without a colon is the key of the empty namespace.
    Otherwise the part before the first colon is the namespace and the
    part up to the next colon the key; when that part is empty, the
    namespace is taken as the key of the empty namespace.  Without title
    and identifier there is no key. *)
Theorem id_key_derivation (tg : Tagging.t) (aId : jsstring) :
  fullKeyCandidate tg [] [] = None
  /\ (aId ≠ [] ->
      let id := if startsWith (js "ta_") aId then drop 3 aId else aId in
      (58 ∉ id ->
       fullKeyCandidate tg aId []
       = Some (Tagging.fullKey tg [] (Some (underscoresToSpaces id))))
      /\ (forall namespace rest,
            id = namespace ++ 58 :: rest -> 58 ∉ namespace ->
            fullKeyCandidate tg aId []
            = Some (match head (split 58 (underscoresToSpaces rest)) with
                    | Some (c :: k) =>
                        Tagging.fullKey tg (underscoresToSpaces namespace)
                                        (Some (c :: k))
                    | _ =>
                        Tagging.fullKey tg []
                                        (Some (underscoresToSpaces namespace))
                    end))).
Proof.
  split; [reflexivity|]. intros Hid id. unfold fullKeyCandidate.
  change (truthy []) with false. cbv iota. rewrite (truthy_cons _ Hid).
  fold id. split.
  - intros Hno. rewrite split_absent by by rewrite underscoresToSpaces_colon.
    reflexivity.
  - intros namespace rest -> Hno.
    rewrite underscoresToSpaces_app.
    change (underscoresToSpaces (58 :: rest))
      with (58 :: underscoresToSpaces rest).
    rewrite split_first by by rewrite underscoresToSpaces_colon.
    pose proof (split_nonempty 58 (underscoresToSpaces rest)) as Hne.
    destruct (split 58 (underscoresToSpaces rest)) as [|k ks]; [done|].
    simpl. by destruct k.
Qed.

(** ** Further properties: the timestamp expressions *)

Lemma wordRun_eq lo k s cont :
  wordRun lo k s cont
  = match (if bool_decide (length (take (lo + k) s) = (lo + k)%nat)
              && forallb isWord (take (lo + k) s)
           then (fun m => (lo + k + m)%nat) <$> cont (drop (lo + k) s)
           else None) with
    | Some m => Some m
    | None => match k with
              | O => None
              | S k' => wordRun lo k' s cont
              end
    end.
Proof. by destruct k. Qed.

Lemma forallb_take_word w c tl n :
  isWord c = false -> (length w < n)%nat ->
  bool_decide (length (take n (w ++ c :: tl)) = n)
  && forallb isWord (take n (w ++ c :: tl)) = false.
Proof.
  intros Hc Hn. apply andb_false_iff. right.
  apply not_true_iff_false. intros Hall.
  rewrite forallb_forall in Hall.
  assert (isWord c = true); [|congruence].
  apply Hall. apply list_elem_of_In.
  apply list_elem_of_lookup. exists (length w).
  rewrite lookup_take_lt by done.
  by rewrite lookup_app_r, Nat.sub_diag by done.
Qed.

Lemma forallb_take {A} (p : A -> bool) n l :
  forallb p l = true -> forallb p (take n l) = true.
Proof.
  rewrite !forallb_forall. intros H x Hx%list_elem_of_In.
  apply H, list_elem_of_In. by apply (subseteq_take n l).
Qed.

(** The greedy run over a word [w] that ends before [c]: the run is the
    whole word when its length is within the bounds, and there is no
    match otherwise, for a continuation that cannot start inside a
    word. *)
Lemma wordRun_spec lo w c tl cont :
  isWord c = false -> forallb isWord w = true ->
  (forall x t, isWord x = true -> cont (x :: t) = None) ->
  forall k,
    wordRun lo k (w ++ c :: tl) cont
    = if bool_decide (lo <= length w <= lo + k)%nat
      then (fun m => (length w + m)%nat) <$> cont (c :: tl)
      else None.
Proof.
  intros Hc Hw Hcont k. induction k as [|k IH]; rewrite wordRun_eq.
  - destruct (lt_eq_lt_dec (length w) (lo + 0)) as [[Hlt|Heq]|Hgt].
    + rewrite forallb_take_word by done.
      rewrite bool_decide_eq_false_2 by lia. done.
    + rewrite <- Heq, take_app_length, drop_app_length.
      rewrite (bool_decide_eq_true_2 (length w = length w)) by done.
      rewrite Hw. rewrite (bool_decide_eq_true_2 (lo <= length w <= _)%nat) by lia.
      simpl.
      by destruct (cont (c :: tl)).
    + rewrite (bool_decide_eq_false_2 (lo <= length w <= _)%nat) by lia.
      rewrite take_app_le, drop_app_le by lia.
      destruct (drop (lo + 0) w) as [|x t] eqn:Hd.
      { apply (f_equal length) in Hd. rewrite length_drop in Hd.
        simpl in Hd. lia. }
      assert (Hx : isWord x = true).
      { rewrite forallb_forall in Hw. apply Hw, list_elem_of_In.
        apply (subseteq_drop (lo + 0) w). rewrite Hd. left. }
      simpl. rewrite (Hcont x _ Hx). by destruct (_ && _).
  - destruct (lt_eq_lt_dec (length w) (lo + S k)) as [[Hlt|Heq]|Hgt].
    + rewrite forallb_take_word by done. rewrite IH.
      apply (f_equal (fun b : bool => if b then _ else _)).
      apply bool_decide_ext. lia.
    + rewrite <- Heq, take_app_length, drop_app_length.
      rewrite (bool_decide_eq_true_2 (length w = length w)) by done.
      rewrite Hw. rewrite (bool_decide_eq_true_2 (lo <= length w <= _)%nat) by lia.
      simpl.
      destruct (cont (c :: tl)); simpl; [done|].
      rewrite IH. by rewrite bool_decide_eq_false_2 by lia.
    + rewrite (bool_decide_eq_false_2 (lo <= length w <= _)%nat) by lia.
      rewrite take_app_le, drop_app_le by lia.
      destruct (drop (lo + S k) w) as [|x t] eqn:Hd.
      { apply (f_equal length) in Hd. rewrite length_drop in Hd.
        simpl in Hd. lia. }
      assert (Hx : isWord x = true).
      { rewrite forallb_forall in Hw. apply Hw, list_elem_of_In.
        apply (subseteq_drop (lo + S k) w). rewrite Hd. left. }
      simpl. rewrite (Hcont x _ Hx).
      replace (match (if _ && _ then None else None) with
               | Some m => Some m
               | None => wordRun lo k (w ++ c :: tl) cont
               end) with (wordRun lo k (w ++ c :: tl) cont)
        by by destruct (_ && _).
      rewrite IH. by rewrite bool_decide_eq_false_2 by lia.
Qed.

(** X22. The long timestamp expression matches [dd name yyyy, hh:mm]
    at the head of a text exactly when the name, a run of word
    characters, has between 2 and 10 of them; the match is the whole
    stamp. *)
Theorem longStamp_month_name (d1 d2 y1 y2 y3 y4 h1 h2 m1 m2 : N)
    (w rest : jsstring) :
  Forall (fun c => isDigit c = true) [d1; d2; y1; y2; y3; y4; h1; h2; m1; m2] ->
  forallb isWord w = true ->
  longStamp ([d1; d2; 32] ++ w
             ++ [32; y1; y2; y3; y4; 44; 32; h1; h2; 58; m1; m2] ++ rest)
  = if bool_decide (2 <= length w <= 10)%nat
    then Some (15 + length w)%nat
    else None.
Proof.
  intros Hd Hw.
  repeat match goal with
         | H : Forall _ (_ :: _) |- _ =>
             apply Forall_cons_1 in H as [? H]
         end.
  unfold longStamp.
  change (lits " " ++ [D; D; D; D] ++ lits ", " ++ [D; D] ++ lits ":"
          ++ [D; D])
    with [L 32; D; D; D; D; L 44; L 32; D; D; L 58; D; D].
  change ([D; D] ++ lits " ") with [D; D; L 32].
  cbn [app matchAtoms atomMatches]. rewrite H, H0, N.eqb_refl.
  rewrite wordRun_spec; [| reflexivity | done |].
  - change (2 + 8)%nat with 10%nat. case_bool_decide; [|done].
    cbn [matchAtoms atomMatches].
    rewrite H1, H2, H3, H4, H5, H6, H7, H8, !N.eqb_refl. simpl. f_equal. lia.
  - intros x t Hx. cbn [matchAtoms atomMatches].
    destruct (N.eqb_spec 32 x) as [<-|_]; [done|done].
Qed.

(** Both timestamp expressions start with a digit. *)
Lemma isoStamp_digit s :
  (forall c t, s = c :: t -> isDigit c = false) -> isoStamp s = None.
Proof.
  intros H. unfold isoStamp. destruct s as [|c t]; [done|].
  cbn [app matchAtoms atomMatches]. by rewrite (H c t eq_refl).
Qed.

Lemma longStamp_digit s :
  (forall c t, s = c :: t -> isDigit c = false) -> longStamp s = None.
Proof.
  intros H. unfold longStamp. destruct s as [|c t]; [done|].
  cbn [app matchAtoms atomMatches]. by rewrite (H c t eq_refl).
Qed.

Lemma replaceGlobal_none m f s :
  (forall t, (forall c t', t = c :: t' -> isDigit c = false) -> m t = None) ->
  Forall (fun c => isDigit c = false) s ->
  replaceGlobal m f 0 s = s.
Proof.
  intros Hm. induction s as [|c s IH]; intros Hs.
  - simpl. rewrite Hm; [done|]. by intros c t'.
  - apply Forall_cons_1 in Hs as [Hc Hs].
    rewrite replaceGlobal_keep.
    + by rewrite IH.
    + apply Hm. by intros c' t' [= <- <-].
Qed.

Lemma replaceGlobal_prefix m f pre s :
  (forall t, (forall c t', t = c :: t' -> isDigit c = false) -> m t = None) ->
  Forall (fun c => isDigit c = false) pre ->
  replaceGlobal m f 0 (pre ++ s) = pre ++ replaceGlobal m f 0 s.
Proof.
  intros Hm. induction pre as [|c pre IH]; intros Hs; [done|].
  apply Forall_cons_1 in Hs as [Hc Hs].
  change ((c :: pre) ++ s) with (c :: (pre ++ s)).
  rewrite replaceGlobal_keep.
  - by rewrite IH.
  - apply Hm. by intros c' t' [= <- <-].
Qed.

(** X23. A text without digits is left as it is by the two timestamp
    normalizers; with no exact match and pattern rules that keep it, it
    has no translation. *)
Theorem digit_free_text_keeps (sv : Syringe) (text : jsstring) :
  Forall (fun c => isDigit c = false) text ->
  normalizeDates sv text = text
  /\ (UiTranslation.plainReplacements (uiData sv) !! text = None ->
      applyRules (UiTranslation.regexReplacements (uiData sv)) text = text ->
      translateUiText sv text = None).
Proof.
  intros Hfree.
  assert (Hn : normalizeDates sv text = text).
  { unfold normalizeDates.
    rewrite (replaceGlobal_none isoStamp) by (done || apply isoStamp_digit).
    by rewrite (replaceGlobal_none longStamp) by (done || apply longStamp_digit). }
  split; [done|]. intros Hplain Hrules.
  unfold translateUiText. rewrite Hplain, Hrules, Hn.
  by rewrite bool_decide_eq_false_2 by (intros H; by apply H).
Qed.

(** X24. A timestamp after a stretch without digits is replaced in
    place: the stretch is kept, the stamp becomes the result of the
    callback, and the replacement goes on with the text after the stamp
    (both expressions are global). *)
Theorem stamps_replaced_in_place (f : jsstring -> jsstring)
    (pre t post : jsstring) :
  Forall (fun c => isDigit c = false) pre ->
  (isoStamp (t ++ post) = Some (length t) ->
   replaceGlobal isoStamp f 0 (pre ++ t ++ post)
   = pre ++ f t ++ replaceGlobal isoStamp f 0 post)
  /\ (longStamp (t ++ post) = Some (length t) ->
      replaceGlobal longStamp f 0 (pre ++ t ++ post)
      = pre ++ f t ++ replaceGlobal longStamp f 0 post).
Proof.
  intros Hpre. split; intros Hm.
  - rewrite replaceGlobal_prefix by (done || apply isoStamp_digit).
    rewrite replaceGlobal_match; [done | | done].
    intros ->. unfold isoStamp in Hm. by destruct (matchAtoms _ _).
  - rewrite replaceGlobal_prefix by (done || apply longStamp_digit).
    rewrite replaceGlobal_match; [done | | done].
    intros ->. change ([] ++ post) with post in Hm. unfold longStamp in Hm.
    destruct (matchAtoms _ post); [|done].
    by destruct (wordRun _ _ _ _).
Qed.

(** ** Further properties: the page counter expression *)

Lemma matchAtoms_lits l rest : matchAtoms (L <$> l) (l ++ rest) = Some rest.
Proof.
  induction l as [|c l IH]; [done|].
  cbn [fmap list_fmap app matchAtoms atomMatches]. by rewrite N.eqb_refl.
Qed.

Lemma spanOf_app p g c rest :
  forallb p g = true -> p c = false ->
  spanOf p (g ++ c :: rest) = (g, c :: rest).
Proof.
  intros Hg Hc. induction g as [|x g IH]; simpl.
  - by rewrite Hc.
  - simpl in Hg. apply andb_true_iff in Hg as [Hx Hg].
    by rewrite Hx, (IH Hg).
Qed.

(** A count followed by a literal that starts with a unit no count
    holds. *)
Lemma countThen_app lit g c l rest :
  js lit = c :: l -> isCount c = false ->
  g ≠ [] -> forallb isCount g = true ->
  countThen lit (g ++ js lit ++ rest) = Some (g, rest).
Proof.
  intros Hlit Hc Hne Hg. unfold countThen. rewrite Hlit.
  change ((c :: l) ++ rest) with (c :: (l ++ rest)).
  rewrite spanOf_app by done.
  destruct g as [|x g]; [done|].
  change (c :: (l ++ rest)) with ((c :: l) ++ rest).
  unfold lits. rewrite Hlit, matchAtoms_lits. done.
Qed.

Lemma showing_start s : head s ≠ Some 83 -> showing s = None.
Proof.
  intros Hs. unfold showing. destruct s as [|c t]; [done|].
  change (lits "Showing ") with (L 83 :: lits "howing ").
  cbn [matchAtoms atomMatches]. destruct (N.eqb_spec 83 c) as [<-|_]; done.
Qed.

Lemma replaceShowing_prefix pre s :
  83 ∉ pre -> replaceShowing (pre ++ s) = pre ++ replaceShowing s.
Proof.
  induction pre as [|c pre IH]; intros Hno; [done|].
  apply not_elem_of_cons in Hno as [Hc Hno].
  change ((c :: pre) ++ s) with (c :: (pre ++ s)).
  cbn [replaceShowing]. rewrite showing_start by (simpl; congruence).
  by rewrite IH.
Qed.

Lemma replaceShowing_match s g1 g2 g3 rest :
  showing s = Some (g1, g2, g3, rest) ->
  replaceShowing s = showingReplacement g1 g2 g3 ++ rest.
Proof. intros H. destruct s; cbn [replaceShowing]; by rewrite H. Qed.

(** X17. The rewrite of the page counter text: a text without a
    capital S is kept; the first [Showing a - b of c images] (or
    [image]), where a, b and c are non-empty runs of digits and commas,
    becomes [a - b，共 c 张图片], the text before and after kept. *)
Theorem page_counter_text (pre g1 g2 g3 rest : jsstring) :
  83 ∉ pre ->
  replaceShowing pre = pre
  /\ (g1 ≠ [] -> g2 ≠ [] -> g3 ≠ [] ->
      forallb isCount g1 = true -> forallb isCount g2 = true ->
      forallb isCount g3 = true ->
      let translated :=
        pre ++ g1 ++ js " - " ++ g2 ++ [65292; 20849; 32] ++ g3
        ++ [32; 24352; 22270; 29255] in
      replaceShowing (pre ++ js "Showing " ++ g1 ++ js " - " ++ g2
                      ++ js " of " ++ g3 ++ js " images" ++ rest)
      = translated ++ rest
      /\ (head rest ≠ Some 115 ->
          replaceShowing (pre ++ js "Showing " ++ g1 ++ js " - " ++ g2
                          ++ js " of " ++ g3 ++ js " image" ++ rest)
          = translated ++ rest)).
Proof.
  intros Hpre. split.
  { rewrite <- (app_nil_r pre) at 1.
    rewrite replaceShowing_prefix by done. by rewrite app_nil_r. }
  intros H1 H2 H3 Hg1 Hg2 Hg3 translated.
  assert (Hshow : forall tail,
    showing (js "Showing " ++ g1 ++ js " - " ++ g2 ++ js " of " ++ g3
             ++ js " image" ++ tail)
    = Some (g1, g2, g3, match tail with
                        | c :: t => if c =? 115 then t else tail
                        | [] => tail
                        end)).
  { intros tail. unfold showing. unfold lits at 1.
    rewrite matchAtoms_lits. cbn [mbind option_bind].
    rewrite (countThen_app " - " g1 32 (js "- ")) by done.
    cbn [mbind option_bind].
    rewrite (countThen_app " of " g2 32 (js "of ")) by done.
    cbn [mbind option_bind].
    rewrite (countThen_app " image" g3 32 (js "image")) by done.
    reflexivity. }
  split.
  - rewrite replaceShowing_prefix by done.
    change (js " images" ++ rest) with (js " image" ++ 115 :: rest).
    rewrite (replaceShowing_match _ _ _ _ _ (Hshow (115 :: rest))).
    unfold translated, showingReplacement. by rewrite <- !app_assoc.
  - intros Hrest. rewrite replaceShowing_prefix by done.
    rewrite (replaceShowing_match _ _ _ _ _ (Hshow rest)).
    unfold translated, showingReplacement. rewrite <- !app_assoc.
    do 6 f_equal. destruct rest as [|c t]; [done|].
    destruct (N.eqb_spec c 115) as [->|_]; [by destruct Hrest | done].
Qed.

(** ** Further properties: the tracker *)

Lemma getAttribute_setAttribute d n k v x k' :
  getAttribute (setAttribute d n k v) x k'
  = if decide (x = n /\ k' = k)
    then (fun _ => v) <$> nodes d !! n
    else getAttribute d x k'.
Proof.
  unfold getAttribute. rewrite lookup_setAttribute.
  destruct (decide (x = n)) as [->|Hx].
  - destruct (nodes d !! n) as [nd|]; simpl.
    + destruct (decide (k' = k)) as [->|Hk].
      * rewrite decide_True by done. simpl. by rewrite lookup_insert_eq.
      * rewrite decide_False by tauto. simpl. by rewrite lookup_insert_ne.
    + by case_decide.
  - by rewrite decide_False by tauto.
Qed.

Lemma getAttribute_is_Some d n k :
  is_Some (getAttribute d n k) -> is_Some (nodes d !! n).
Proof. unfold getAttribute. by destruct (nodes d !! n); [eexists|intros []]. Qed.

Lemma getAttribute_construct d t x k :
  is_Some (nodes d !! parent t) ->
  getAttribute (construct d t) x k
  = if decide (x = parent t /\ k = ATTR) then Some (original t)
    else if decide (x = parent t /\ k = js "lang") then Some (js "en")
    else if decide (x = parent t /\ k = js "title")
         then Some (default (fullKey t) (getAttribute d x k))
         else getAttribute d x k.
Proof.
  intros [nd Hnd]. unfold construct.
  set (d1 := setAttribute d (parent t) ATTR (original t)).
  set (d2 := setAttribute d1 (parent t) (js "lang") (js "en")).
  assert (H1 : is_Some (nodes d1 !! parent t))
    by (apply is_Some_setAttribute; by eexists).
  assert (H2 : is_Some (nodes d2 !! parent t))
    by by apply is_Some_setAttribute.
  assert (Hg2 : forall x k,
            getAttribute d2 x k
            = if decide (x = parent t /\ k = ATTR) then Some (original t)
              else if decide (x = parent t /\ k = js "lang") then Some (js "en")
              else getAttribute d x k).
  { intros y j. unfold d2. rewrite getAttribute_setAttribute.
    destruct H1 as [n1 ->]. unfold d1. rewrite getAttribute_setAttribute, Hnd.
    simpl.
    destruct (decide (y = parent t /\ j = js "lang")) as [[-> ->]|];
      [by rewrite decide_False by (intros [_ [=]])|].
    by case_decide. }
  unfold hasAttribute. rewrite (Hg2 (parent t) (js "title")).
  rewrite decide_False by (intros [_ [=]]).
  rewrite decide_False by (intros [_ [=]]).
  destruct (getAttribute d (parent t) (js "title")) as [ti|] eqn:Hti.
  - rewrite bool_decide_eq_true_2 by by eexists. rewrite Hg2.
    repeat case_decide; try done.
    destruct_and!. subst. by rewrite Hti.
  - rewrite bool_decide_eq_false_2 by by intros [? [=]].
    rewrite getAttribute_setAttribute. destruct H2 as [n2 ->]. simpl.
    rewrite Hg2.
    destruct (decide (x = parent t /\ k = js "title")) as [[-> ->]|Hne].
    + rewrite decide_False by (intros [_ [=]]).
      rewrite decide_False by (intros [_ [=]]). by rewrite Hti.
    + done.
Qed.

Lemma lookup_construct_ne d t x :
  x ≠ parent t -> nodes (construct d t) !! x = nodes d !! x.
Proof.
  intros Hx. unfold construct. case_match;
    rewrite !lookup_setAttribute; by rewrite !decide_False by done.
Qed.

(** X2. The constructor of an entry marks the owning element with the
    original text, sets its language marker to [en] and gives it the
    full key as title only when it has no title attribute yet: an
    existing title, every other attribute, every other node and the
    shape of the tree are left as they were. *)
Theorem construct_marks (d : Dom) (t : TagNodeRef) :
  is_Some (nodes d !! parent t) ->
  let d' := construct d t in
  getAttribute d' (parent t) ATTR = Some (original t)
  /\ getAttribute d' (parent t) (js "lang") = Some (js "en")
  /\ getAttribute d' (parent t) (js "title")
     = Some (default (fullKey t) (getAttribute d (parent t) (js "title")))
  /\ (forall k, k ∉ [ATTR; js "lang"; js "title"] ->
                getAttribute d' (parent t) k = getAttribute d (parent t) k)
  /\ (forall x, x ≠ parent t -> nodes d' !! x = nodes d !! x)
  /\ sameShape d d'.
Proof.
  intros Hsome d'. unfold d'. rewrite !getAttribute_construct by done.
  split; [by rewrite decide_True|].
  split; [by rewrite decide_False, decide_True by (done || intros [_ [=]])|].
  split.
  { rewrite decide_False by (intros [_ [=]]).
    rewrite decide_False by (intros [_ [=]]). by rewrite decide_True. }
  split.
  { intros k Hk. rewrite getAttribute_construct by done.
    rewrite !not_elem_of_cons in Hk. destruct Hk as (? & ? & ? & _).
    by rewrite !decide_False by tauto. }
  split; [intros x; apply lookup_construct_ne|].
  apply sameShape_construct, sameShape_refl.
Qed.

Lemma skipNodeHas_text : skipNodeHas (js "#text") = false.
Proof. reflexivity. Qed.

Lemma not_skipped_not_mark name :
  skipNodeHas name = false -> jseqb name (js "MARK") = false.
Proof.
  unfold skipNodeHas, jseqb. intros H%bool_decide_eq_false_1.
  apply bool_decide_eq_false_2. intros ->. apply H. by_compute.
Qed.

(** The dispatch of a text node in a tag container that is not skipped
    is the tracker's answer. *)
Lemma translateNode_tag_text sv n p :
  inTagContainer sv n p ->
  skipNodeHas (nodeNameOf (doc sv) p) = false ->
  classListContains (doc sv) p (js "auto-complete-text") = false ->
  translateNode sv n
  = match create sv n with
    | (sv1, Boolean b) =>
        if negb b && ConfigData.translateUi (config sv1)
        then translateUi sv1 n else sv1
    | (sv1, NewRef ref) =>
        let sv2 := fst (translate sv1 ref) in
        withTags (tags sv2 ++ [ref]) sv2
    end.
Proof.
  intros (Htext & Hname & Hp & Hcont) Hskip Hauto.
  unfold translateNode, skipped.
  rewrite Hname, (parentElement_parentNode _ _ _ Hp), Hskip.
  change (negb (truthy (js "#text")) || skipNodeHas (js "#text") || false)
    with false. cbv iota.
  rewrite (text_is_not_body _ _ Hname). unfold translateTag.
  rewrite Hp, Htext, (not_skipped_not_mark _ Hskip), Hauto. cbn [negb orb].
  apply orb_true_iff in Hcont.
  replace (negb (isTagContainer (doc sv) (Some p))
           && negb (isTagContainer (doc sv) (parentElement (doc sv) p)))
    with false
    by (symmetry; apply andb_false_iff;
        destruct Hcont as [->| ->]; [by left | by right]).
  destruct (create sv n) as [sv1 [ref|b]]; [|done].
  cbv zeta. cbn [negb andb]. done.
Qed.

(** X3. A text node in a tag container that is not skipped, is no
    search suggestion, is not marked yet and has a derivable key is
    registered by the dispatch: one entry for its parent, with the
    derived key and the text as original, is appended to the working
    set, the parent carries the marker with that text, the entry is
    translated at once, and the node counts as handled whatever the
    translation gives (the UI translation is not run on it). *)
Theorem keyed_tag_text_registered (sv : Syringe) (n p : N) :
  inTagContainer sv n p ->
  skipNodeHas (nodeNameOf (doc sv) p) = false ->
  classListContains (doc sv) p (js "auto-complete-text") = false ->
  hasAttribute (doc sv) p ATTR = false ->
  keyless sv p = false ->
  exists key,
    fullKeyCandidate (tagging sv) (reflected (doc sv) p (js "id"))
                     (reflected (doc sv) p (js "title")) = Some key
    /\ let t := mkTagNodeRef p key (dataOf (doc sv) n) in
       translateNode sv n
       = withTags (tags sv ++ [t])
           (fst (translate (withDoc (construct (doc sv) t) sv) t))
       /\ tags (translateNode sv n) = tags sv ++ [t]
       /\ getAttribute (doc (translateNode sv n)) p ATTR
          = Some (dataOf (doc sv) n).
Proof.
  intros Hin Hskip Hauto Hattr Hkey.
  pose proof Hin as (Htext & Hname & Hp & Hcont).
  unfold keyless in Hkey.
  destruct (fullKeyCandidate _ _ _) as [[|c k]|] eqn:Hcand; try done.
  exists (c :: k). split; [done|]. intros t.
  assert (Hcreate : create sv n
                    = (withDoc (construct (doc sv) t) sv, NewRef t)).
  { unfold create. by rewrite Hp, Hattr, Hcand. }
  assert (Heq : translateNode sv n
                = withTags (tags sv ++ [t])
                    (fst (translate (withDoc (construct (doc sv) t) sv) t))).
  { rewrite (translateNode_tag_text sv n p) by done. rewrite Hcreate.
    cbv zeta. by rewrite translate_tags. }
  split; [exact Heq|]. rewrite Heq. split; [done|].
  change (doc (withTags ?l ?s)) with (doc s).
  assert (Hsome : is_Some (nodes (doc sv) !! p)).
  { apply isElement_is_Some. unfold parentElement in Hp.
    destruct (parentNodeOf (doc sv) n) as [q|]; [|done].
    destruct (isElement (doc sv) q) eqn:He; [|done]. congruence. }
  set (s1 := withDoc (construct (doc sv) t) sv).
  assert (H1 : getAttribute (doc s1) p ATTR = Some (dataOf (doc sv) n)).
  { unfold s1. rewrite doc_withDoc, getAttribute_construct by done.
    by rewrite decide_True. }
  rewrite translate_unfold. destruct (negb (alive s1 t)); [done|].
  destruct (rendering s1 t) as [[a l]|]; [|done].
  cbn [fst]. rewrite doc_withDoc. unfold rewriteElement.
  rewrite getAttribute_setAttribute, decide_False by (intros [_ [=]]).
  unfold getAttribute, assign, updNode, removeChildren. simpl.
  unfold getAttribute in H1. cbn [parent].
  rewrite !lookup_alter_eq, lookup_fmap.
  destruct (nodes (doc s1) !! p) as [nd|]; [|done]. simpl in *.
  unfold orphan. by case_bool_decide.
Qed.

(** X4. The dispatch of a text node in a tag container whose parent
    already carries the marker changes nothing: no second entry, no
    translation, no UI translation. *)
Theorem marked_container_is_settled (sv : Syringe) (n p : N) :
  inTagContainer sv n p ->
  hasAttribute (doc sv) p ATTR = true ->
  translateNode sv n = sv.
Proof.
  intros Hin Hattr. pose proof Hin as (Htext & Hname & Hp & Hcont).
  destruct (skipNodeHas (nodeNameOf (doc sv) p)) eqn:Hskip.
  { unfold translateNode, skipped.
    by rewrite (parentElement_parentNode _ _ _ Hp), Hskip, !orb_true_r. }
  destruct (classListContains (doc sv) p (js "auto-complete-text")) eqn:Hauto.
  { unfold translateNode, skipped.
    rewrite Hname, (parentElement_parentNode _ _ _ Hp), Hskip.
    change (negb (truthy (js "#text")) || skipNodeHas (js "#text") || false)
      with false. cbv iota.
    rewrite (text_is_not_body _ _ Hname). unfold translateTag.
    by rewrite Hp, Htext, Hauto, orb_true_r. }
  rewrite (translateNode_tag_text sv n p) by done.
  by rewrite (create_marked sv n p).
Qed.


(** X6. The dispatch of a node never changes the configuration, the
    dictionary, the storage or the phase, and never drops or reorders a
    tracked entry: the working set is left as it is or gets one entry
    appended, for the parent element of the node, which was not
    marked. *)
Theorem dispatch_frame (sv : Syringe) (n : N) :
  config (translateNode sv n) = config sv
  /\ tagMap (translateNode sv n) = tagMap sv
  /\ storage (translateNode sv n) = storage sv
  /\ documentEnd (translateNode sv n) = documentEnd sv
  /\ (tags (translateNode sv n) = tags sv
      \/ exists t, tags (translateNode sv n) = tags sv ++ [t]
                   /\ parentElement (doc sv) n = Some (parent t)
                   /\ hasAttribute (doc sv) (parent t) ATTR = false).
Proof.
  destruct (translateNode_sameService sv n) as (d & ts & Heq).
  rewrite Heq. do 4 (split; [done|]). rewrite <- Heq. clear d ts Heq.
  unfold translateNode. destruct (skipped (doc sv) n); [by left|].
  set (s0 := if isNode (doc sv) n (js "body") then setBodyAttrs sv n else sv).
  assert (Ht0 : tags s0 = tags sv) by (unfold s0; by case_match).
  assert (Hpe : parentElement (doc s0) n = parentElement (doc sv) n)
    by (unfold s0; case_match; [apply parentElement_setBodyAttrs | done]).
  assert (Hattr : forall x, hasAttribute (doc s0) x ATTR
                            = hasAttribute (doc sv) x ATTR).
  { intros x. unfold s0. case_match; [|done]. unfold hasAttribute.
    by rewrite getAttribute_setBodyAttrs. }
  unfold translateTag.
  destruct (parentElement (doc s0) n) as [p|] eqn:Hp.
  2: { left. case_match; [|done].
       destruct (translateUi_frame s0 n) as [d ->]. done. }
  assert (Hui : forall s b,
            tags s = tags sv ->
            tags (if negb b && ConfigData.translateUi (config s)
                  then translateUi s n else s) = tags sv).
  { intros s b Hs. case_match; [|done].
    destruct (translateUi_frame s n) as [d ->]. done. }
  destruct (negb (isText (doc s0) n)); [left; by apply Hui|].
  destruct (jseqb _ _ || classListContains _ _ _); [left; by apply Hui|].
  destruct (negb _ && negb _); [left; by apply Hui|].
  destruct (create s0 n) as [s1 [t|b]] eqn:Hc.
  - right. exists t. cbn [negb andb].
    destruct (create_marks _ _ _ _ Hc) as (Hpt & _ & Hno & _).
    rewrite (create_newref _ _ _ _ Hc).
    change (tags (withTags ?l _)) with l. rewrite translate_tags.
    change (tags (withDoc _ s0)) with (tags s0). rewrite Ht0.
    split; [done|]. split; [congruence|]. by rewrite <- Hattr.
  - left. rewrite (create_boolean _ _ _ _ Hc). by apply Hui.
Qed.

(** X7. The text of a search suggestion (a text node whose parent is
    a [MARK] or has the class [auto-complete-text]) is left alone by the
    dispatch: not tracked, not translated, whatever the
    configuration. *)
Theorem suggestions_untouched (sv : Syringe) (n p : N) :
  isText (doc sv) n = true ->
  nodeNameOf (doc sv) n = js "#text" ->
  parentElement (doc sv) n = Some p ->
  jseqb (nodeNameOf (doc sv) p) (js "MARK")
  || classListContains (doc sv) p (js "auto-complete-text") = true ->
  translateNode sv n = sv.
Proof.
  intros Htext Hname Hp Hsug. unfold translateNode, skipped.
  rewrite Hname, (parentElement_parentNode _ _ _ Hp).
  change (negb (truthy (js "#text")) || skipNodeHas (js "#text")) with false.
  cbn [orb]. destruct (skipNodeHas (nodeNameOf (doc sv) p)); [done|].
  rewrite (text_is_not_body _ _ Hname). unfold translateTag.
  by rewrite Hp, Htext, Hsug.
Qed.

(** X8. In every state the pipeline reaches from a state without
    entries (the initial scan, then any reactions), no two entries own
    the same element, and every entry owns an element that carries the
    processed marker. *)
Theorem tracker_invariant (fuel : nat) (es : list Event)
    (sv sv0 sv' : Syringe) (log : list N) :
  freshIds (doc sv) -> tags sv = [] ->
  init fuel sv = Some (sv0, log) ->
  run fuel sv0 es = Some sv' ->
  NoDup (parent <$> tags sv')
  /\ Forall (fun t => isElement (doc sv') (parent t) = true
                      /\ hasAttribute (doc sv') (parent t) ATTR = true)
            (tags sv').
Proof.
  intros Hfresh Hnone Hinit Hrun.
  assert (H0 : tracked sv0).
  { pose proof (tracked_initially sv Hfresh Hnone) as Htr.
    unfold init in Hinit.
    destruct (querySelectorBody (doc sv)) as [body|];
      [|by injection Hinit as <- _].
    eapply traverse_tracked; [|exact Hinit].
    apply tracked_withDoc; [|apply keeps_withIterator, keeps_refl].
    apply (tracked_withDoc sv); [done | apply setBodyAttrs_keeps]. }
  destruct (run_tracked fuel es sv0 sv' H0 Hrun) as (_ & Hall & Hnd).
  by split.
Qed.

Lemma classListContains_setBodyAttrs sv n x c :
  startsWith (js "ehs") c = false -> c ≠ js "eh" -> c ≠ js "ex" ->
  classListContains (doc (setBodyAttrs sv n)) x c
  = classListContains (doc sv) x c.
Proof.
  intros Hehs Heh Hex. unfold classListContains. rewrite lookup_setBodyAttrs.
  case_decide; [|done].
  destruct (nodes (doc sv) !! x) as [nd|]; [|done]. simpl.
  destruct (bodyNode_fields sv nd) as (C & _ & _).
  apply bool_decide_ext. rewrite C, elem_of_app, in_filter_ehs, in_addClass.
  split.
  - intros [[[Hin| ->] _]|Hin].
    + done.
    + unfold siteClass in *. by destruct (negb _).
    + apply configClasses_ehs in Hin. congruence.
  - intros Hin. left. split; [by left | done].
Qed.

Lemma isTagContainer_setBodyAttrs sv n x :
  isTagContainer (doc (setBodyAttrs sv n)) x = isTagContainer (doc sv) x.
Proof.
  destruct x as [x|]; [|done]. unfold isTagContainer.
  by rewrite !classListContains_setBodyAttrs by (done || by intros [=]).
Qed.

Lemma reflected_setBodyAttrs sv n x k :
  k ≠ js "lang" ->
  reflected (doc (setBodyAttrs sv n)) x k = reflected (doc sv) x k.
Proof.
  intros Hk. unfold reflected. by rewrite getAttribute_setBodyAttrs.
Qed.

Lemma isText_setBodyAttrs sv n x :
  isText (doc (setBodyAttrs sv n)) x = isText (doc sv) x.
Proof. apply isText_sameShape, sameShape_setBodyAttrs. Qed.

Lemma app_singleton_neq {A} (l : list A) x : l ++ [x] ≠ l.
Proof.
  intros H. apply (f_equal length) in H. rewrite length_app in H.
  simpl in H. lia.
Qed.

(** X25. A dispatch that changes the working set was that of a text
    node which is not skipped, whose parent element is a tag container
    or the child of one, is no search suggestion, was not marked and
    has a derivable key: nothing else is ever tracked. *)
Theorem tracking_only_in_containers (sv : Syringe) (n : N) :
  tags (translateNode sv n) ≠ tags sv ->
  skipped (doc sv) n = false
  /\ isText (doc sv) n = true
  /\ exists p,
       parentElement (doc sv) n = Some p
       /\ isTagContainer (doc sv) (Some p)
          || isTagContainer (doc sv) (parentElement (doc sv) p) = true
       /\ classListContains (doc sv) p (js "auto-complete-text") = false
       /\ hasAttribute (doc sv) p ATTR = false
       /\ keyless sv p = false.
Proof.
  intros Hchanged. unfold translateNode in Hchanged.
  destruct (skipped (doc sv) n) eqn:Hskip; [done|]. split; [done|].
  set (s0 := if isNode (doc sv) n (js "body") then setBodyAttrs sv n else sv)
    in *.
  assert (Ht0 : tags s0 = tags sv)
    by (unfold s0; by destruct (isNode (doc sv) n (js "body"))).
  assert (H0 : forall x,
            parentElement (doc s0) x = parentElement (doc sv) x
            /\ isText (doc s0) x = isText (doc sv) x
            /\ isTagContainer (doc s0) (Some x)
               = isTagContainer (doc sv) (Some x)
            /\ classListContains (doc s0) x (js "auto-complete-text")
               = classListContains (doc sv) x (js "auto-complete-text")
            /\ hasAttribute (doc s0) x ATTR = hasAttribute (doc sv) x ATTR
            /\ keyless s0 x = keyless sv x).
  { intros x. unfold s0.
    destruct (isNode (doc sv) n (js "body")); [|done].
    rewrite parentElement_setBodyAttrs, isText_setBodyAttrs,
      isTagContainer_setBodyAttrs.
    rewrite classListContains_setBodyAttrs by (done || by intros [=]).
    unfold hasAttribute, keyless.
    rewrite getAttribute_setBodyAttrs by by intros [=].
    by rewrite !reflected_setBodyAttrs by by intros [=]. }
  destruct (translateTag s0 n) as [s1 handled] eqn:Htag.
  assert (H1 : tags s1 ≠ tags sv).
  { intros H1. apply Hchanged. destruct (negb handled && _); [|done].
    destruct (translateUi_frame s1 n) as [d ->]. done. }
  clear Hchanged. unfold translateTag in Htag.
  destruct (H0 n) as (Hpe & Htext & _).
  destruct (parentElement (doc s0) n) as [p|] eqn:Hp;
    [|injection Htag as <- _; by rewrite Ht0 in H1].
  destruct (H0 p) as (Hpp & _ & Hcont & Hauto & Hattr & Hkey).
  rewrite Htext in Htag.
  destruct (isText (doc sv) n);
    [|injection Htag as <- _; by rewrite Ht0 in H1].
  split; [done|]. exists p. split; [done|]. cbn [negb] in Htag.
  rewrite Hauto in Htag.
  destruct (jseqb _ _); [injection Htag as <- _; by rewrite Ht0 in H1|].
  cbn [orb] in Htag.
  destruct (classListContains (doc sv) p (js "auto-complete-text"));
    [injection Htag as <- _; by rewrite Ht0 in H1|].
  rewrite Hcont, Hpp in Htag.
  assert (Hgp : isTagContainer (doc s0) (parentElement (doc sv) p)
                = isTagContainer (doc sv) (parentElement (doc sv) p)).
  { destruct (parentElement (doc sv) p) as [g|]; [|done].
    by destruct (H0 g) as (_ & _ & -> & _). }
  rewrite Hgp in Htag.
  destruct (isTagContainer (doc sv) (Some p) 
            || isTagContainer (doc sv) (parentElement (doc sv) p)) eqn:Hc.
  2: { apply orb_false_iff in Hc as [Hc1 Hc2]. rewrite Hc1, Hc2 in Htag.
       injection Htag as <- _. by rewrite Ht0 in H1. }
  split; [done|]. split; [done|].
  replace (negb (isTagContainer (doc sv) (Some p))
           && negb (isTagContainer (doc sv) (parentElement (doc sv) p)))
    with false in Htag
    by (symmetry; rewrite <- negb_orb, Hc; done).
  unfold create in Htag. rewrite Hp, Hattr in Htag.
  destruct (hasAttribute (doc sv) p ATTR);
    [injection Htag as <- _; by rewrite Ht0 in H1|].
  split; [done|]. rewrite <- Hkey. unfold keyless.
  destruct (fullKeyCandidate _ _ _) as [[|c k]|]; [| done |];
    injection Htag as <- _; by rewrite Ht0 in H1.
Qed.

(** X26. With the UI translation off, the dispatch of a node other
    than the body that tracks no new entry changes nothing at all. *)
Theorem ui_off_changes_tag_text_only (sv : Syringe) (n : N) :
  ConfigData.translateUi (config sv) = false ->
  isNode (doc sv) n (js "body") = false ->
  tags (translateNode sv n) = tags sv ->
  translateNode sv n = sv.
Proof.
  intros Hui Hbody. unfold translateNode.
  destruct (skipped (doc sv) n); [done|]. rewrite Hbody.
  pose proof (translateTag_sameService sv n) as Hsame.
  unfold translateTag in *.
  destruct (parentElement (doc sv) n) as [p|]; [|by rewrite Hui, andb_false_r].
  destruct (negb (isText (doc sv) n)); [by rewrite Hui, andb_false_r|].
  destruct (_ || _); [done|].
  destruct (negb _ && negb _); [by rewrite Hui, andb_false_r|].
  destruct (create sv n) as [s1 [t|b]] eqn:Hc.
  - cbn [negb andb]. change (tags (withTags ?l _)) with l.
    rewrite translate_tags, (create_newref _ _ _ _ Hc).
    change (tags (withDoc _ sv)) with (tags sv).
    intros H. by apply app_singleton_neq in H.
  - rewrite (create_boolean _ _ _ _ Hc), Hui, andb_false_r. done.
Qed.

(** ** Further properties: the pipeline *)

Lemma translate_withStorage st s t :
  translate (withStorage st s) t
  = (withStorage st (fst (translate s t)), snd (translate s t)).
Proof.
  unfold translate.
  change (alive (withStorage st s) t) with (alive s t).
  change (config (withStorage st s)) with (config s).
  change (tagMap (withStorage st s)) with (tagMap s).
  destruct (negb (alive s t)); [done|].
  destruct (negb (ConfigData.translateTag (config s))); [done|].
  destruct (tagMap s) as [m|]; [|done].
  by destruct (m !! fullKey t) as [[|c v]|].
Qed.

(** X11. An answer to [get-tag-map] without a map changes nothing.
    With a map, the dictionary becomes the names of the map's items,
    the dictionary and the hash are stored, the configuration and the
    phase are kept, the dead entries are dropped, and (one entry for an
    element) every entry kept is up to date with the new dictionary. *)
Theorem tagMapAnswer_refresh (sv : Syringe) (sha : option jsstring) :
  tagMapAnswer sv None sha = sv
  /\ forall m,
       let sv' := tagMapAnswer sv (Some m) sha in
       tagMap sv' = Some (name <$> m)
       /\ SyncStorage.databaseMap (storage sv') = Some (name <$> m)
       /\ SyncStorage.databaseSha (storage sv') = sha
       /\ SyncStorage.config (storage sv') = SyncStorage.config (storage sv)
       /\ config sv' = config sv
       /\ documentEnd sv' = documentEnd sv
       /\ tags sv' = List.filter (alive sv) (tags sv)
       /\ (NoDup (parent <$> tags sv) ->
           forall t, t ∈ tags sv' -> upToDate sv' t).
Proof.
  split; [done|]. intros m sv'. unfold sv', tagMapAnswer.
  set (s1 := withTagMap (Some (name <$> m)) sv).
  destruct (translateTags_frame s1) as [d Hd].
  set (st := SyncStorage.mk _ _ _).
  assert (Hst : st = SyncStorage.mk (SyncStorage.config (storage sv))
                       (Some (name <$> m)) sha) by (unfold st; by rewrite Hd).
  clearbody st. subst st. rewrite Hd. do 6 (split; [done|]).
  split; [done|]. intros Hnd t Ht.
  unfold upToDate. rewrite <- Hd, translate_withStorage. cbn [fst]. f_equal.
  apply (translateTags_upToDate s1 t Hnd). by rewrite Hd.
Qed.

(** X12. While Loading, the observer dispatches every added node of
    every mutation record exactly once, in order, each on the state the
    earlier ones left, and traverses nothing (whatever the fuel). *)
Theorem loading_dispatches_once (fuel : nat) (sv : Syringe)
    (added : list N) (records : list (list N)) :
  documentEnd sv = false ->
  observe fuel sv added = Some (fold_left translateNode added sv, added)
  /\ step fuel sv (Mutations records)
     = Some (fold_left translateNode (concat records) sv).
Proof.
  intros Hend.
  assert (Hobs : forall added s, documentEnd s = false ->
            observe fuel s added
            = Some (fold_left translateNode added s, added)).
  { clear. intros added. induction added as [|n rest IH]; intros s Hs;
      [done|].
    cbn [observe fold_left]. unfold addedNode.
    rewrite (sameService_documentEnd _ _ (translateNode_sameService s n)), Hs.
    cbn [andb mbind option_bind].
    rewrite IH; [done|].
    by rewrite (sameService_documentEnd _ _ (translateNode_sameService s n)). }
  split; [by apply Hobs|]. cbn [step]. by rewrite Hobs.
Qed.


(** ** Further properties: the UI translation of one node *)

Lemma lookup_createElement d name x :
  nodes (fst (createElement d name)) !! x
  = if decide (x = nextId d) then Some (blankNode ELEMENT_NODE name)
    else nodes d !! x.
Proof.
  simpl. case_decide as Hx.
  - subst. by rewrite lookup_insert_eq.
  - by rewrite lookup_insert_ne.
Qed.

Lemma lookup_assign d e a x :
  nodes (assign d e a) !! x
  = (if decide (x = e)
     then fun nd => setAssigned (Some a) (setChildNodes [] (orphan e nd))
     else orphan e) <$> nodes d !! x.
Proof.
  unfold assign, removeChildren. rewrite lookup_updNode. simpl.
  case_decide as Hx.
  - subst. rewrite lookup_alter_eq, lookup_fmap.
    by destruct (nodes d !! e).
  - rewrite lookup_alter_ne, lookup_fmap by done. done.
Qed.

Lemma lookup_insertBefore d p new ref x :
  new ≠ p ->
  nodes (insertBefore d p new ref) !! x
  = (if decide (x = new) then setParentNode (Some p)
     else if decide (x = p)
          then fun nd => setChildNodes (insertAt new ref (childNodes nd)) nd
          else id) <$> nodes d !! x.
Proof.
  intros Hne. unfold insertBefore. rewrite !lookup_updNode.
  destruct (decide (x = new)) as [->|Hx].
  - rewrite decide_False by done. done.
  - case_decide; [done|]. by destruct (nodes d !! x).
Qed.

(** *** Nodes the translation created are left alone *)






















(** *** The branches of the UI translation *)

Lemma isNode_other d n name other :
  isNode d n name = true ->
  toUpperCase other ≠ toUpperCase name ->
  isNode d n other = false.
Proof.
  unfold isNode, jseqb. intros [_ H%bool_decide_eq_true_1]%andb_true_iff Hne.
  apply andb_false_iff. right. apply bool_decide_eq_false_2. congruence.
Qed.

Lemma isElement_not_text d n : isElement d n = true -> isText d n = false.
Proof.
  unfold isElement, isText, isTextNode. destruct (nodes d !! n); [|done].
  intros H%bool_decide_eq_true_1. apply bool_decide_eq_false_2. congruence.
Qed.

(** X14. The UI translation of a text node replaces its data by the
    translation when there is one and changes nothing otherwise; no
    other node and nothing of the shape of the tree changes. *)
Theorem text_node_translation (sv : Syringe) (n : N) :
  isText (doc sv) n = true ->
  let text := dataOf (doc sv) n in
  let after := doc (translateUi sv n) in
  dataOf after n = default text (translateUiText sv text)
  /\ (translateUiText sv text = None -> translateUi sv n = sv)
  /\ (forall x, x ≠ n -> nodes after !! x = nodes (doc sv) !! x)
  /\ sameShape (doc sv) after.
Proof.
  intros Htext text after. unfold after, translateUi. rewrite Htext.
  unfold translateUiTextNode. fold text.
  destruct (translateUiText sv text) as [tr|]; cbn [default];
    [|by repeat split].
  rewrite doc_withDoc. unfold setTextContent.
  unfold isText in Htext. rewrite Htext.
  split; [|split; [done|split]].
  - unfold dataOf. rewrite lookup_updNode, decide_True by done.
    unfold isTextNode in Htext. by destruct (nodes (doc sv) !! n).
  - intros x Hx. by rewrite lookup_updNode, decide_False.
  - by apply sameShape_updNode.
Qed.

(** X15. The UI translation of an [optgroup] replaces its label by
    the translation of the label when there is one (an empty label is
    looked up as well) and changes nothing otherwise. *)
Theorem optgroup_label (sv : Syringe) (n : N) :
  isText (doc sv) n = false ->
  isNode (doc sv) n (js "optgroup") = true ->
  let label := reflected (doc sv) n (js "label") in
  let after := doc (translateUi sv n) in
  reflected after n (js "label") = default label (translateUiText sv label)
  /\ (translateUiText sv label = None -> translateUi sv n = sv)
  /\ (forall x, x ≠ n -> nodes after !! x = nodes (doc sv) !! x)
  /\ sameShape (doc sv) after.
Proof.
  intros Htext Hopt label after. unfold after, translateUi.
  rewrite Htext, Hopt.
  rewrite (isNode_other _ _ _ (js "input") Hopt) by by intros [=].
  rewrite (isNode_other _ _ _ (js "textarea") Hopt) by by intros [=].
  cbn [orb]. unfold translateUiOptgroup. fold label.
  destruct (translateUiText sv label) as [tr|]; cbn [default];
    [|by repeat split].
  rewrite doc_withDoc. split; [|split; [done|split]].
  - apply reflected_setAttribute. by eapply isNode_is_Some.
  - intros x Hx. by rewrite lookup_setAttribute, decide_False.
  - apply sameShape_setAttribute, sameShape_refl.
Qed.

Lemma textContent_assigned html d n s :
  isElement d n = true ->
  textContent html (assign d n (ByTextContent s)) n = s.
Proof.
  intros Hel. unfold isElement in Hel.
  destruct (nodes d !! n) as [nd|] eqn:Hnd; [|done].
  apply bool_decide_eq_true_1 in Hel.
  assert (Hlook : nodes (assign d n (ByTextContent s)) !! n
                  = Some (setAssigned (Some (ByTextContent s))
                            (setChildNodes [] (orphan n nd)))).
  { by rewrite lookup_assign, decide_True, Hnd. }
  unfold textContent, isTextNode. rewrite Hlook.
  cbn [nodeType setAssigned setChildNodes]. rewrite orphan_nodeType, Hel.
  rewrite (bool_decide_eq_false_2 (ELEMENT_NODE = TEXT_NODE)) by done.
  assert (Ho : treeOrder (assign d n (ByTextContent s)) n = [n]).
  { unfold treeOrder. destruct (size _); [done|]. cbn [subtree].
    unfold childNodesOf. by rewrite Hlook. }
  rewrite Ho. cbn [mbind list_bind]. rewrite Hlook.
  cbn [nodeType setAssigned setChildNodes assigned]. rewrite orphan_nodeType, Hel.
  cbn [assignedText]. apply app_nil_r.
Qed.

(** X16. The UI translation of a link changes something only in the
    navigation bar (the parent element of its parent element has the id
    [nb]): there the text content of the link becomes the translation
    of its text content when there is one. *)
Theorem nav_link_translation (sv : Syringe) (n : N) :
  isElement (doc sv) n = true ->
  isNode (doc sv) n (js "a") = true ->
  let inBar :=
    match parentElement (doc sv) n ≫= parentElement (doc sv) with
    | Some g => jseqb (reflected (doc sv) g (js "id")) (js "nb")
    | None => false
    end in
  let text := textContentOf sv n in
  (inBar = false -> translateUi sv n = sv)
  /\ (inBar = true ->
      textContentOf (translateUi sv n) n
      = default text (translateUiText sv text)
      /\ (translateUiText sv text = None -> translateUi sv n = sv)).
Proof.
  intros Hel Ha inBar text.
  pose proof (isElement_not_text _ _ Hel) as Htext.
  assert (Hnav : translateUi sv n = translateUiNav sv n).
  { unfold translateUi. rewrite Htext.
    rewrite (isNode_other _ _ _ (js "input") Ha) by by intros [=].
    rewrite (isNode_other _ _ _ (js "textarea") Ha) by by intros [=].
    rewrite (isNode_other _ _ _ (js "optgroup") Ha) by by intros [=].
    cbn [orb].
    assert (Hframe : exists d, translateUiNav sv n = withDoc d sv
                               /\ (forall name, isNode d n name
                                                = isNode (doc sv) n name)).
    { unfold translateUiNav.
      destruct (isNode _ _ _ && _);
        [|exists (doc sv); split; [by rewrite withDoc_doc | done]].
      destruct (translateUiText _ _);
        [|exists (doc sv); split; [by rewrite withDoc_doc | done]].
      eexists. split; [done|]. intros name. unfold setTextContent.
      unfold isText in Htext. rewrite Htext. unfold isNode, nodeNameOf.
      rewrite lookup_assign, decide_True by done.
      destruct (nodes (doc sv) !! n) as [nd|]; [|done]. simpl.
      unfold orphan. by case_bool_decide. }
    destruct Hframe as (d & Hd & Hsame). rewrite Hd.
    unfold translateUiPageCounter. rewrite doc_withDoc, Hsame.
    rewrite (isNode_other _ _ _ (js "p") Ha) by by intros [=].
    cbn [andb]. unfold translateUiDiv. rewrite doc_withDoc, Hsame.
    by rewrite (isNode_other _ _ _ (js "div") Ha) by by intros [=]. }
  rewrite Hnav. unfold translateUiNav. rewrite Ha. cbn [andb].
  fold inBar. fold text. split; [by intros ->|]. intros ->.
  destruct (translateUiText sv text) as [tr|]; cbn [default]; [|done].
  split; [|done]. unfold textContentOf. rewrite doc_withDoc.
  change (Window.htmlText (window (withDoc ?d sv)))
    with (Window.htmlText (window sv)).
  unfold setTextContent. unfold isText in Htext. rewrite Htext.
  by apply textContent_assigned.
Qed.

(** *** The compatibility copies *)

Lemma insertAt_middle new ref pre post :
  ref ∉ pre ->
  insertAt new (Some ref) (pre ++ ref :: post) = pre ++ new :: ref :: post.
Proof.
  induction pre as [|y pre IH]; intros Hno; simpl.
  - by rewrite bool_decide_eq_true_2.
  - apply not_elem_of_cons in Hno as [Hy Hno].
    rewrite bool_decide_eq_false_2 by congruence. by rewrite IH.
Qed.

Lemma insertAt_end new l : insertAt new None l = l ++ [new].
Proof. induction l as [|y l IH]; simpl; [done|]. by rewrite IH. Qed.

Lemma isNode_name d n name :
  isNode d n name = true -> nodeNameOf d n = toUpperCase name.
Proof.
  unfold isNode, jseqb. by intros [_ H%bool_decide_eq_true_1]%andb_true_iff.
Qed.

Lemma parentElement_is_Some d n p :
  parentElement d n = Some p ->
  is_Some (nodes d !! n) /\ is_Some (nodes d !! p).
Proof.
  unfold parentElement, parentNodeOf. intros H.
  destruct (nodes d !! n) as [nd|]; [|done]. split; [by eexists|].
  simpl in H. destruct (parentNode nd) as [q|]; [|done].
  destruct (isElement d q) eqn:He; [|done]. injection H as <-.
  by apply isElement_is_Some.
Qed.

Lemma orphan_classList e nd : classList (orphan e nd) = classList nd.
Proof. unfold orphan. by case_bool_decide. Qed.

Lemma orphan_attributes e nd : attributes (orphan e nd) = attributes nd.
Proof. unfold orphan. by case_bool_decide. Qed.

Lemma orphan_childNodes e nd : childNodes (orphan e nd) = childNodes nd.
Proof. unfold orphan. by case_bool_decide. Qed.

Lemma lookup_copyOf name s f d x :
  freshIds d ->
  nodes (copyOf name s f d) !! x
  = if decide (x = nextId d)
    then Some (f (setAssigned (Some (ByTextContent s))
                              (blankNode ELEMENT_NODE name)))
    else orphan (nextId d) <$> nodes d !! x.
Proof.
  intros Hfresh. unfold copyOf.
  rewrite lookup_updNode, lookup_assign, lookup_createElement.
  case_decide; [done|]. done.
Qed.

Lemma setTextContent_created d name s :
  freshIds d ->
  setTextContent (fst (createElement d name)) (nextId d) s
  = assign (fst (createElement d name)) (nextId d) (ByTextContent s).
Proof.
  intros _. unfold setTextContent, isTextNode.
  by rewrite lookup_createElement, decide_True.
Qed.

Lemma parentElement_copyOf name s f d x p :
  freshIds d ->
  parentElement d x = Some p ->
  parentElement (copyOf name s f d) x = Some p.
Proof.
  intros Hfresh Hp.
  destruct (parentElement_is_Some _ _ _ Hp) as [[nd Hnd] [ndp Hndp]].
  assert (Hx : x ≠ nextId d).
  { intros ->. rewrite Hfresh in Hnd by lia. done. }
  assert (Hpn : p ≠ nextId d).
  { intros ->. rewrite Hfresh in Hndp by lia. done. }
  pose proof (parentElement_parentNode _ _ _ Hp) as Hpar.
  assert (Hel : isElement d p = true).
  { unfold parentElement in Hp. rewrite Hpar in Hp.
    by destruct (isElement d p). }
  unfold parentNodeOf in Hpar. rewrite Hnd in Hpar. simpl in Hpar.
  unfold parentElement, parentNodeOf.
  rewrite lookup_copyOf, decide_False, Hnd by done. simpl.
  unfold orphan at 1. rewrite bool_decide_eq_false_2 by congruence.
  rewrite Hpar. unfold isElement in *.
  rewrite lookup_copyOf, decide_False, Hndp by done. rewrite Hndp in Hel.
  simpl. by rewrite orphan_nodeType, Hel.
Qed.

(** X18. The UI translation of a page counter ([p.gpc]) with a
    parent element keeps the counter, hidden, in its place with its
    other attributes and its classes, and puts right before it a new
    [P] of class [gpc-translate] whose content is the rewritten text of
    the counter; no other child list changes. *)
Theorem page_counter_copy (sv : Syringe) (node pe : N) :
  freshIds (doc sv) ->
  isText (doc sv) node = false ->
  isNode (doc sv) node (js "p") = true ->
  classListContains (doc sv) node (js "gpc") = true ->
  parentElement (doc sv) node = Some pe ->
  let new := nextId (doc sv) in
  let after := doc (translateUi sv node) in
  nodes after !! new
  = Some (mkDomNode ELEMENT_NODE (js "P") (Some pe) [] ∅
            [js "gpc-translate"] []
            (Some (ByTextContent (replaceShowing (textContentOf sv node))))
            [] [])
  /\ (forall pre post,
        childNodesOf (doc sv) pe = pre ++ node :: post -> node ∉ pre ->
        childNodesOf after pe = pre ++ new :: node :: post)
  /\ (forall x, x ≠ pe -> childNodesOf after x = childNodesOf (doc sv) x)
  /\ parentNodeOf after node = Some pe
  /\ (getAttribute (doc sv) node (js "style") = None ->
      getAttribute after node (js "style") = Some (js "display: none;"))
  /\ (forall k, k ≠ js "style" ->
                getAttribute after node k = getAttribute (doc sv) node k)
  /\ classListContains after node (js "gpc") = true
  /\ nextId after = N.succ new.
Proof.
  intros Hfresh Htext Hp Hgpc Hpe new after.
  destruct (parentElement_is_Some _ _ _ Hpe) as [[nd Hnd] [ndp Hndp]].
  assert (Hnode : node ≠ new).
  { intros ->. unfold new in Hnd. rewrite Hfresh in Hnd by lia. done. }
  assert (Hpn : pe ≠ new).
  { intros ->. unfold new in Hndp. rewrite Hfresh in Hndp by lia. done. }
  assert (Hnp : new ≠ pe) by congruence.
  set (t := replaceShowing (textContentOf sv node)).
  set (d3 := copyOf (js "P") t (setClassList [js "gpc-translate"]) (doc sv)).
  set (d5 := hide (insertBefore d3 pe new (Some node)) node).
  assert (Hlook : forall x,
            nodes d5 !! x
            = (if decide (x = node)
               then fun nd => setAttributes
                      (<[js "style" := js "display: none;"]> (attributes nd)) nd
               else id)
              <$> ((if decide (x = new) then setParentNode (Some pe)
                    else if decide (x = pe)
                         then fun nd => setChildNodes
                                (insertAt new (Some node) (childNodes nd)) nd
                         else id)
                   <$> nodes d3 !! x)).
  { intros x. unfold d5, hide.
    rewrite lookup_setAttribute, lookup_insertBefore by done.
    case_decide; [done|]. by destruct (_ <$> _). }
  assert (Hd3 : forall x, x ≠ new ->
                          nodes d3 !! x = orphan new <$> nodes (doc sv) !! x).
  { intros x Hx. unfold d3. by rewrite lookup_copyOf, decide_False. }
  assert (Hafter : translateUi sv node = withDoc d5 sv).
  { unfold translateUi. rewrite Htext.
    rewrite (isNode_other _ _ _ (js "input") Hp) by by intros [=].
    rewrite (isNode_other _ _ _ (js "textarea") Hp) by by intros [=].
    rewrite (isNode_other _ _ _ (js "optgroup") Hp) by by intros [=].
    cbn [orb]. unfold translateUiNav.
    rewrite (isNode_other _ _ _ (js "a") Hp) by by intros [=].
    cbn [andb]. unfold translateUiPageCounter. rewrite Hp, Hgpc. cbn [andb].
    destruct (createElement (doc sv) (js "P")) as [d1 p] eqn:Hc.
    assert (p = new) as -> by (by injection Hc).
    assert (d1 = fst (createElement (doc sv) (js "P"))) as ->
      by (by rewrite Hc).
    rewrite setTextContent_created by done.
    change (setClassName
              (assign (fst (createElement (doc sv) (js "P")))
                      (nextId (doc sv)) (ByTextContent ?s)) new ?c)
      with (copyOf (js "P") s (setClassList [c]) (doc sv)).
    rewrite (parentElement_copyOf _ _ _ _ _ _ Hfresh Hpe).
    change (hide (insertBefore (copyOf _ _ _ _) pe new (Some node)) node)
      with d5.
    unfold translateUiDiv. rewrite doc_withDoc.
    assert (Hname : nodeNameOf d5 node = nodeNameOf (doc sv) node).
    { unfold nodeNameOf. rewrite Hlook, Hd3, Hnd by done.
      rewrite decide_True, decide_False by done.
      case_decide; simpl; unfold orphan; by case_bool_decide. }
    unfold isNode at 1. rewrite Hname, (isNode_name _ _ _ Hp).
    by rewrite andb_false_r. }
  unfold after. rewrite Hafter, doc_withDoc.
  split.
  { rewrite Hlook, decide_False, decide_True by done.
    unfold d3. by rewrite lookup_copyOf, decide_True. }
  split.
  { intros pre post Hch Hno. unfold childNodesOf in *.
    rewrite Hlook, Hd3, Hndp by done. rewrite Hndp in Hch. simpl in Hch.
    rewrite (decide_False (P := pe = new)) by done.
    rewrite (decide_True (P := pe = pe)) by done.
    case_decide; simpl; unfold orphan; case_bool_decide; simpl;
      by rewrite Hch, insertAt_middle. }
  split.
  { intros x Hx. unfold childNodesOf. rewrite Hlook.
    destruct (decide (x = new)) as [Hxn|Hxn].
    - rewrite Hxn. unfold d3. rewrite lookup_copyOf by done.
      rewrite (decide_True (P := new = nextId (doc sv))) by done.
      assert (Hnone : nodes (doc sv) !! new = None)
        by (apply Hfresh; unfold new; lia).
      rewrite Hnone. by case_decide.
    - rewrite Hd3 by done. rewrite (decide_False (P := x = pe)) by done.
      destruct (nodes (doc sv) !! x) as [ndx|]; [|by case_decide].
      case_decide; simpl; unfold orphan; by case_bool_decide. }
  assert (Hpar : parentNode nd = Some pe)
    by (apply parentElement_parentNode in Hpe; unfold parentNodeOf in Hpe;
        by rewrite Hnd in Hpe).
  assert (Horph : orphan new nd = nd)
    by (apply orphan_fixed; congruence).
  split.
  { unfold parentNodeOf. rewrite Hlook, Hd3, Hnd by done.
    rewrite decide_True, decide_False by done. simpl. rewrite Horph.
    by case_decide. }
  split.
  { intros _. unfold getAttribute. rewrite Hlook, Hd3, Hnd by done.
    rewrite decide_True, decide_False by done. simpl.
    case_decide; simpl; by rewrite lookup_insert_eq. }
  split.
  { intros k Hk. unfold getAttribute. rewrite Hlook, Hd3, Hnd by done.
    rewrite decide_True, decide_False by done. simpl. rewrite Horph.
    case_decide; simpl; by rewrite lookup_insert_ne. }
  split; [|done].
  unfold classListContains in *. rewrite Hlook, Hd3, Hnd by done.
  rewrite Hnd in Hgpc. rewrite decide_True, decide_False by done. simpl.
  rewrite Horph. destruct (decide (node = pe)); simpl; exact Hgpc.
Qed.

Lemma translateUi_div sv node :
  isText (doc sv) node = false ->
  isNode (doc sv) node (js "div") = true ->
  translateUi sv node = translateUiDiv sv node.
Proof.
  intros Htext Hdiv. unfold translateUi. rewrite Htext.
  rewrite (isNode_other _ _ _ (js "input") Hdiv) by by intros [=].
  rewrite (isNode_other _ _ _ (js "textarea") Hdiv) by by intros [=].
  rewrite (isNode_other _ _ _ (js "optgroup") Hdiv) by by intros [=].
  cbn [orb]. unfold translateUiNav.
  rewrite (isNode_other _ _ _ (js "a") Hdiv) by by intros [=].
  cbn [andb]. unfold translateUiPageCounter.
  by rewrite (isNode_other _ _ _ (js "p") Hdiv) by by intros [=].
Qed.

(** X19. The UI translation of [div#gdd] appends to it a new hidden
    [DIV] holding its text content; no other child list and no
    attribute of an existing node changes. *)
Theorem downloader_copy (sv : Syringe) (node : N) :
  freshIds (doc sv) ->
  isText (doc sv) node = false ->
  isNode (doc sv) node (js "div") = true ->
  reflected (doc sv) node (js "id") = js "gdd" ->
  classListContains (doc sv) node (js "nosel") = false ->
  let new := nextId (doc sv) in
  let after := doc (translateUi sv node) in
  nodes after !! new
  = Some (mkDomNode ELEMENT_NODE (js "DIV") (Some node) []
            {[ js "style" := js "display: none;" ]} [] []
            (Some (ByTextContent (textContentOf sv node))) [] [])
  /\ childNodesOf after node = childNodesOf (doc sv) node ++ [new]
  /\ (forall x, x ≠ node -> childNodesOf after x = childNodesOf (doc sv) x)
  /\ (forall x k, x ≠ new ->
                  getAttribute after x k = getAttribute (doc sv) x k)
  /\ nextId after = N.succ new.
Proof.
  intros Hfresh Htext Hdiv Hid Hsel new after.
  destruct (isNode_is_Some _ _ _ Hdiv) as [nd Hnd].
  assert (Hnode : node ≠ new).
  { intros ->. unfold new in Hnd. rewrite Hfresh in Hnd by lia. done. }
  assert (Hnone : nodes (doc sv) !! new = None)
    by (apply Hfresh; unfold new; lia).
  set (t := textContentOf sv node).
  set (hideF := fun nd : DomNode =>
         setAttributes (<[js "style" := js "display: none;"]> (attributes nd))
                       nd).
  set (d2 := copyOf (js "DIV") t hideF (doc sv)).
  set (d3 := insertBefore d2 node new None).
  assert (Hlook : forall x,
            nodes d3 !! x
            = if decide (x = new)
              then Some (setParentNode (Some node)
                           (hideF (setAssigned (Some (ByTextContent t))
                                     (blankNode ELEMENT_NODE (js "DIV")))))
              else (if decide (x = node)
                    then fun nd => setChildNodes
                           (insertAt new None (childNodes nd)) nd
                    else id) <$> (orphan new <$> nodes (doc sv) !! x)).
  { intros x. unfold d3. rewrite lookup_insertBefore by congruence.
    unfold d2. rewrite lookup_copyOf by done.
    destruct (decide (x = new)) as [Hx|Hx].
    - by rewrite (decide_True (P := x = nextId (doc sv))) by exact Hx.
    - by rewrite (decide_False (P := x = nextId (doc sv))) by exact Hx. }
  assert (Hafter : translateUi sv node = withDoc d3 sv).
  { rewrite translateUi_div by done. unfold translateUiDiv.
    rewrite Hdiv, Hid. change (jseqb (js "gdd") (js "gdd")) with true.
    cbv iota.
    destruct (createElement (doc sv) (js "DIV")) as [d1 p] eqn:Hc.
    assert (p = new) as -> by (by injection Hc).
    assert (d1 = fst (createElement (doc sv) (js "DIV"))) as ->
      by (by rewrite Hc).
    rewrite setTextContent_created by done.
    change (insertBefore (hide (assign _ _ _) new) node new None) with d3.
    rewrite doc_withDoc.
    assert (Hsel3 : classListContains d3 node (js "nosel") = false).
    { unfold classListContains in *. rewrite Hlook, decide_False by done.
      rewrite Hnd in *. rewrite decide_True by done. simpl.
      by rewrite orphan_classList. }
    destruct (parentElement d3 node); [|done].
    by rewrite Hsel3, andb_false_r. }
  unfold after. rewrite Hafter, doc_withDoc.
  split; [by rewrite Hlook, decide_True|].
  split.
  { unfold childNodesOf. rewrite Hlook, decide_False, Hnd by done.
    rewrite decide_True by done. simpl. rewrite insertAt_end.
    unfold orphan. by case_bool_decide. }
  split.
  { intros x Hx. unfold childNodesOf. rewrite Hlook.
    destruct (decide (x = new)) as [->|Hxn]; [by rewrite Hnone|].
    rewrite decide_False by done.
    destruct (nodes (doc sv) !! x); [|done]. simpl.
    unfold orphan. by case_bool_decide. }
  split; [|done].
  intros x k Hx. unfold getAttribute. rewrite Hlook, decide_False by done.
  destruct (nodes (doc sv) !! x); [|done]. simpl.
  case_decide; simpl; unfold orphan; by case_bool_decide.
Qed.

(** X20. The UI translation of a [div.ths.nosel] whose parent
    element is [#gdo4] puts right before it a new hidden [DIV] of class
    [ths] holding its text content; the div itself stays where it is,
    and no attribute of an existing node changes. *)
Theorem selector_copy (sv : Syringe) (node pe : N) :
  freshIds (doc sv) ->
  isText (doc sv) node = false ->
  isNode (doc sv) node (js "div") = true ->
  reflected (doc sv) node (js "id") ≠ js "gdd" ->
  parentElement (doc sv) node = Some pe ->
  reflected (doc sv) pe (js "id") = js "gdo4" ->
  classListContains (doc sv) node (js "ths") = true ->
  classListContains (doc sv) node (js "nosel") = true ->
  let new := nextId (doc sv) in
  let after := doc (translateUi sv node) in
  nodes after !! new
  = Some (mkDomNode ELEMENT_NODE (js "DIV") (Some pe) []
            {[ js "style" := js "display: none;" ]} [js "ths"] []
            (Some (ByTextContent (textContentOf sv node))) [] [])
  /\ (forall pre post,
        childNodesOf (doc sv) pe = pre ++ node :: post -> node ∉ pre ->
        childNodesOf after pe = pre ++ new :: node :: post)
  /\ (forall x, x ≠ pe -> childNodesOf after x = childNodesOf (doc sv) x)
  /\ (forall x k, x ≠ new ->
                  getAttribute after x k = getAttribute (doc sv) x k)
  /\ parentNodeOf after node = Some pe
  /\ nextId after = N.succ new.
Proof.
  intros Hfresh Htext Hdiv Hid Hpe Hpid Hths Hsel new after.
  destruct (parentElement_is_Some _ _ _ Hpe) as [[nd Hnd] [ndp Hndp]].
  assert (Hnode : node ≠ new).
  { intros ->. unfold new in Hnd. rewrite Hfresh in Hnd by lia. done. }
  assert (Hpn : pe ≠ new).
  { intros ->. unfold new in Hndp. rewrite Hfresh in Hndp by lia. done. }
  assert (Hnone : nodes (doc sv) !! new = None)
    by (apply Hfresh; unfold new; lia).
  set (t := textContentOf sv node).
  set (hideF := fun nd : DomNode =>
         setAttributes (<[js "style" := js "display: none;"]> (attributes nd))
                       nd).
  set (d2 := copyOf (js "DIV") t (setClassList [js "ths"] ∘ hideF) (doc sv)).
  set (d3 := insertBefore d2 pe new (Some node)).
  assert (Hlook : forall x,
            nodes d3 !! x
            = if decide (x = new)
              then Some (setParentNode (Some pe)
                           (setClassList [js "ths"]
                              (hideF (setAssigned (Some (ByTextContent t))
                                        (blankNode ELEMENT_NODE (js "DIV"))))))
              else (if decide (x = pe)
                    then fun nd => setChildNodes
                           (insertAt new (Some node) (childNodes nd)) nd
                    else id) <$> (orphan new <$> nodes (doc sv) !! x)).
  { intros x. unfold d3. rewrite lookup_insertBefore by congruence.
    unfold d2. rewrite lookup_copyOf by done.
    destruct (decide (x = new)) as [Hx|Hx].
    - by rewrite (decide_True (P := x = nextId (doc sv))) by exact Hx.
    - by rewrite (decide_False (P := x = nextId (doc sv))) by exact Hx. }
  assert (Hafter : translateUi sv node = withDoc d3 sv).
  { rewrite translateUi_div by done. unfold translateUiDiv.
    assert (Hgdd : jseqb (reflected (doc sv) node (js "id")) (js "gdd")
                   = false) by (by apply bool_decide_eq_false_2).
    rewrite Hdiv, Hgdd, Hpe, Hpid, Hths, Hsel.
    change (jseqb (js "gdo4") (js "gdo4") && true && true) with true.
    cbv iota.
    destruct (createElement (doc sv) (js "DIV")) as [d1 p] eqn:Hc.
    assert (p = new) as -> by (by injection Hc).
    assert (d1 = fst (createElement (doc sv) (js "DIV"))) as ->
      by (by rewrite Hc).
    rewrite setTextContent_created by done.
    unfold setClassName, hide, setAttribute. rewrite updNode_updNode.
    reflexivity. }
  unfold after. rewrite Hafter, doc_withDoc.
  split; [by rewrite Hlook, decide_True|].
  split.
  { intros pre post Hch Hno. unfold childNodesOf in *.
    rewrite Hlook, decide_False, Hndp by done. rewrite Hndp in Hch.
    rewrite decide_True by done. simpl in *.
    unfold orphan. case_bool_decide; simpl; by rewrite Hch, insertAt_middle. }
  split.
  { intros x Hx. unfold childNodesOf. rewrite Hlook.
    destruct (decide (x = new)) as [->|Hxn]; [by rewrite Hnone|].
    rewrite decide_False by done.
    destruct (nodes (doc sv) !! x); [|done]. simpl.
    unfold orphan. by case_bool_decide. }
  split.
  { intros x k Hx. unfold getAttribute. rewrite Hlook, decide_False by done.
    destruct (nodes (doc sv) !! x); [|done]. simpl.
    case_decide; simpl; unfold orphan; by case_bool_decide. }
  split; [|done].
  apply parentElement_parentNode in Hpe. unfold parentNodeOf in *.
  rewrite Hlook, decide_False, Hnd by done. rewrite Hnd in Hpe.
  simpl in *. unfold orphan.
  rewrite bool_decide_eq_false_2 by congruence. by case_decide.
Qed.

(** A bound on the identities in use, by evaluation. *)
Lemma freshIds_bound d :
  map_Forall (fun k _ => k < nextId d) (nodes d) -> freshIds d.
Proof.
  intros H k Hk. destruct (nodes d !! k) as [nd|] eqn:Hnd; [|done].
  specialize (H k nd Hnd). simpl in H. lia.
Qed.

(** ** The statements on the sample page *)

(** C1, as stated, fails: the text "Front Page" sits in a tag container
    without [id] and [title]; [translateTag] reports it as not handled
    and, with [translateUi] on, the UI dictionary rewrites it. *)
Lemma keyless_node_reaches_ui :
  inTagContainer Demo.fresh 7 6
  /\ keyless Demo.fresh 6 = true
  /\ snd (translateTag Demo.fresh 7) = false
  /\ dataOf (doc Demo.fresh) 7 = js "Front Page"
  /\ dataOf (doc (translateNode Demo.fresh 7)) 7 = [39318; 39029]
  /\ ~ keylessFullyHandled Demo.fresh 7 6.
Proof.
  assert (Hin : inTagContainer Demo.fresh 7 6)
    by (repeat split; vm_compute; reflexivity).
  assert (Hk : keyless Demo.fresh 6 = true) by (vm_compute; reflexivity).
  repeat split; try (vm_compute; reflexivity); try apply Hin.
  intros H. destruct (H Hin Hk) as (Hhandled & _).
  vm_compute in Hhandled. discriminate Hhandled.
Qed.

Lemma keyless_tag_text_witness :
  inTagContainer Demo.fresh 7 6
  /\ keyless Demo.fresh 6 = true
  /\ tags (translateNode Demo.fresh 7) = []
  /\ dataOf (doc (translateNode Demo.fresh 7)) 7 = [39318; 39029].
Proof.
  assert (Hin : inTagContainer Demo.fresh 7 6)
    by (repeat split; vm_compute; reflexivity).
  assert (Hk : keyless Demo.fresh 6 = true) by (vm_compute; reflexivity).
  destruct (keyless_tag_text Demo.fresh 7 6 Hin Hk) as [Htags Hstep].
  split; [exact Hin|]. split; [exact Hk|]. split.
  - rewrite Htags. reflexivity.
  - rewrite Hstep. vm_compute. reflexivity.
Defined.

(** C2, as stated, fails: the element of the entry [glasses] has a
    parent element, so the entry is alive, but the subtree is not in the
    document; the refresh pass keeps the entry and rewrites its element. *)
Lemma alive_detached_entry :
  let sv := Demo.tracking (Some Demo.tagMap) Demo.allOn in
  alive sv Demo.glasses = true
  /\ attached sv Demo.glasses = false
  /\ Demo.glasses ∈ tags (translateTags sv)
  /\ (assigned <$> nodes (doc sv) !! 11) = Some None
  /\ (assigned <$> nodes (doc (translateTags sv)) !! 11)
     = Some (Some (ByInnerHTML [30524; 38236]))
  /\ ~ aliveIffAttached sv Demo.glasses.
Proof.
  intros sv. repeat split; try (vm_compute; reflexivity).
  - vm_compute. right. left.
  - intros [Heq _]. vm_compute in Heq. discriminate Heq.
Qed.

Lemma dead_entries_are_dropped_witness :
  let sv := Demo.service (Some Demo.tagMap) Demo.allOn Demo.marked
              [Demo.bigBreasts; Demo.removed] in
  Forall (fun t => isElement (doc sv) (parent t) = true) (tags sv)
  /\ alive sv Demo.removed = false
  /\ tags (translateTags sv) = [Demo.bigBreasts]
  /\ nodes (doc (translateTags sv)) !! 10 = nodes (doc sv) !! 10.
Proof.
  intros sv.
  assert (Hown : Forall (fun t => isElement (doc sv) (parent t) = true) (tags sv))
    by (repeat constructor).
  assert (Hdead : alive sv Demo.removed = false) by (vm_compute; reflexivity).
  destruct (dead_entries_are_dropped sv Demo.removed Hown) as [_ Hdrop].
  destruct (Hdrop Hdead) as (_ & _ & Hkeep).
  split; [exact Hown|]. split; [exact Hdead|]. split; [|exact Hkeep].
  vm_compute. reflexivity.
Defined.

(** C3, as stated, fails: without a tag dictionary a configuration
    change translates no entry; the live entry of the first tag link is
    left as it was, though [translate()] has the original text to restore
    under the new configuration. *)
Lemma config_change_without_dictionary :
  let sv := Demo.tracking None Demo.allOn in
  let sv' := updateConfig sv Demo.tagsOff in
  tagMap sv = None
  /\ Demo.bigBreasts ∈ tags sv'
  /\ alive sv' Demo.bigBreasts = true
  /\ nodes (doc sv') !! 4 = nodes (doc sv) !! 4
  /\ (assigned <$> nodes (doc (fst (translate sv' Demo.bigBreasts))) !! 4)
     = Some (Some (ByInnerText (js "big breasts")))
  /\ ~ alwaysRefreshed sv Demo.tagsOff.
Proof.
  intros sv sv'.
  assert (Hin : Demo.bigBreasts ∈ tags sv') by (vm_compute; left).
  assert (Ha : alive sv' Demo.bigBreasts = true) by (vm_compute; reflexivity).
  repeat split; try done; try (vm_compute; reflexivity).
  intros H. specialize (H Demo.bigBreasts Hin Ha). unfold upToDate in H.
  apply (f_equal (fun s => childNodesOf (doc s) 4)) in H.
  vm_compute in H. discriminate H.
Qed.

Lemma updateConfig_refresh_witness :
  let sv := Demo.tracking (Some Demo.tagMap) Demo.allOn in
  tagMap sv ≠ None
  /\ NoDup (parent <$> tags sv)
  /\ upToDate (updateConfig sv Demo.tagsOff) Demo.bigBreasts
  /\ tags (updateConfig (Demo.tracking None Demo.allOn) Demo.tagsOff)
     = [Demo.bigBreasts; Demo.glasses].
Proof.
  intros sv.
  assert (Hmap : tagMap sv ≠ None) by done.
  assert (Hnd : NoDup (parent <$> tags sv)) by by_compute.
  destruct (updateConfig_refresh sv Demo.tagsOff) as (_ & _ & _ & Hsome).
  destruct (Hsome Hmap) as [_ Hup].
  destruct (updateConfig_refresh (Demo.tracking None Demo.allOn) Demo.tagsOff)
    as (_ & _ & Hnone & _).
  destruct (Hnone eq_refl) as [_ Htags].
  split; [exact Hmap|]. split; [exact Hnd|]. split; [|exact Htags].
  apply (Hup Hnd). vm_compute. left.
Defined.


Lemma control_translation_witness :
  reflected (doc (translateUi Demo.fresh 8)) 8 (js "placeholder")
  = [25628; 32034]
  /\ valueOf (doc (translateUi Demo.fresh 8)) 8 = [24212; 29992]
  /\ reflected (doc (translateUi Demo.fresh 9)) 9 (js "placeholder")
     = [39318; 39029]
  /\ valueOf (doc (translateUi Demo.fresh 9)) 9 = js "Front Page".
Proof.
  destruct (control_translation Demo.fresh 8 eq_refl eq_refl) as [Hp8 Hv8].
  destruct (control_translation Demo.fresh 9 eq_refl eq_refl) as [Hp9 Hv9].
  rewrite Hp8, Hv8, Hp9, Hv9. repeat split; vm_compute; reflexivity.
Defined.


(** ** The further statements on the sample pages *)

Lemma id_key_derivation_witness :
  js "ta_female:big_breasts" ≠ []
  /\ fullKeyCandidate Demo.tagging (js "ta_female:big_breasts") []
     = Some (js "female:big breasts")
  /\ fullKeyCandidate Demo.tagging (js "ta_big_breasts") []
     = Some (js ":big breasts").
Proof.
  assert (Hne : js "ta_female:big_breasts" ≠ []) by done.
  assert (Hne' : js "ta_big_breasts" ≠ []) by done.
  destruct (id_key_derivation Demo.tagging (js "ta_female:big_breasts"))
    as [_ H].
  destruct (id_key_derivation Demo.tagging (js "ta_big_breasts")) as [_ H'].
  specialize (H Hne). specialize (H' Hne'). cbv zeta in H, H'.
  destruct H as [_ Hcolon]. destruct H' as [Hplain _].
  split; [exact Hne|]. split.
  - rewrite (Hcolon (js "female") (js "big_breasts"));
      [reflexivity | reflexivity | by_compute].
  - rewrite Hplain; [reflexivity | by_compute].
Defined.

Lemma longStamp_month_name_witness :
  longStamp (js "01 January 2020, 10:00 UTC") = Some 22%nat
  /\ longStamp (js "01 J 2020, 10:00") = None.
Proof.
  split.
  - apply (longStamp_month_name 48 49 50 48 50 48 49 48 48 48
             (js "January") (js " UTC")).
    + repeat constructor.
    + reflexivity.
  - apply (longStamp_month_name 48 49 50 48 50 48 49 48 48 48 (js "J") []).
    + repeat constructor.
    + reflexivity.
Defined.

Lemma digit_free_text_keeps_witness :
  normalizeDates Demo.fresh (js "Uploader Comment") = js "Uploader Comment"
  /\ translateUiText Demo.fresh (js "Uploader Comment") = None.
Proof.
  assert (Hfree : Forall (fun c => isDigit c = false) (js "Uploader Comment"))
    by repeat constructor.
  destruct (digit_free_text_keeps Demo.fresh (js "Uploader Comment") Hfree)
    as [Hn Ht].
  split; [exact Hn|]. apply Ht; reflexivity.
Defined.

Lemma stamps_replaced_in_place_witness :
  replaceGlobal isoStamp (fun _ => js "now") 0
    (js "Posted: 2023-06-01 10:00 by x")
  = js "Posted: now by x".
Proof.
  assert (Hfree : Forall (fun c => isDigit c = false) (js "Posted: "))
    by repeat constructor.
  destruct (stamps_replaced_in_place (fun _ => js "now")
              (js "Posted: ") (js "2023-06-01 10:00") (js " by x") Hfree)
    as [H _].
  change (js "Posted: 2023-06-01 10:00 by x")
    with (js "Posted: " ++ js "2023-06-01 10:00" ++ js " by x").
  rewrite H; reflexivity.
Defined.

Lemma page_counter_text_witness :
  replaceShowing (js "Showing 1 - 20 of 1,234 images")
  = js "1 - 20" ++ [65292; 20849; 32] ++ js "1,234"
    ++ [32; 24352; 22270; 29255].
Proof.
  assert (Hpre : 83 ∉ @nil N) by apply not_elem_of_nil.
  destruct (page_counter_text [] (js "1") (js "20") (js "1,234") [] Hpre)
    as [_ H].
  specialize (H ltac:(discriminate) ltac:(discriminate) ltac:(discriminate)
                eq_refl eq_refl eq_refl).
  cbv zeta in H. destruct H as [H _].
  change (js "Showing 1 - 20 of 1,234 images")
    with ([] ++ js "Showing " ++ js "1" ++ js " - " ++ js "20" ++ js " of "
          ++ js "1,234" ++ js " images" ++ []).
  rewrite H. reflexivity.
Defined.

Lemma construct_marks_witness :
  getAttribute (construct Demo.page Demo.bigBreasts) 4 ATTR
  = Some (js "big breasts")
  /\ getAttribute (construct Demo.page Demo.bigBreasts) 4 (js "title")
     = Some (js "female:big breasts")
  /\ getAttribute (construct Demo.page Demo.bigBreasts) 4 (js "id")
     = Some (js "ta_female:big_breasts").
Proof.
  assert (Hsome : is_Some (nodes Demo.page !! parent Demo.bigBreasts))
    by (by eexists).
  pose proof (construct_marks Demo.page Demo.bigBreasts Hsome) as H.
  cbv zeta in H. destruct H as (Hattr & _ & Htitle & Hother & _).
  split; [exact Hattr|]. split; [exact Htitle|].
  rewrite Hother; [reflexivity | by_compute].
Defined.

Lemma keyed_tag_text_registered_witness :
  inTagContainer Demo.fresh 5 4
  /\ tags (translateNode Demo.fresh 5) = [Demo.bigBreasts]
  /\ getAttribute (doc (translateNode Demo.fresh 5)) 4 ATTR
     = Some (js "big breasts").
Proof.
  assert (Hin : inTagContainer Demo.fresh 5 4) by (by repeat split).
  destruct (keyed_tag_text_registered Demo.fresh 5 4 Hin eq_refl eq_refl
              eq_refl eq_refl) as (key & Hkey & H).
  cbv zeta in H. destruct H as (_ & Htags & Hattr).
  injection Hkey as <-.
  split; [exact Hin|]. split; [exact Htags | exact Hattr].
Defined.

Lemma marked_container_is_settled_witness :
  inTagContainer (Demo.tracking (Some Demo.tagMap) Demo.allOn) 5 4
  /\ translateNode (Demo.tracking (Some Demo.tagMap) Demo.allOn) 5
     = Demo.tracking (Some Demo.tagMap) Demo.allOn.
Proof.
  assert (Hin : inTagContainer (Demo.tracking (Some Demo.tagMap) Demo.allOn)
                  5 4) by (by repeat split).
  split; [exact Hin|].
  apply (marked_container_is_settled _ 5 4 Hin). reflexivity.
Defined.


Lemma setBodyAttrs_reflects_config_witness :
  exists nd',
    nodes (doc (setBodyAttrs Demo.fresh 2)) !! 2 = Some nd'
    /\ js "ehs-translate-tag" ∈ classList nd'
    /\ (js "ehs-hide-icon" ∉ classList nd')
    /\ js "eh" ∈ classList nd'.
Proof.
  destruct (setBodyAttrs_reflects_config Demo.fresh 2
              (Demo.element "BODY" (Some 1) [3; 6; 8; 9] [] []) eq_refl)
    as (nd' & Hnd' & Hehs & Hkept & _).
  exists nd'. split; [exact Hnd'|]. split; [|split].
  - apply Hehs; [reflexivity | by_compute].
  - rewrite Hehs by reflexivity. by_compute.
  - apply Hkept; [reflexivity | by right].
Defined.

Lemma tagMapAnswer_refresh_witness :
  tagMap (tagMapAnswer (Demo.tracking None Demo.allOn)
            (Some {[ js "female:big breasts" := mkTagItem [24040; 20083] ]})
            (Some (js "abc")))
  = Some {[ js "female:big breasts" := [24040; 20083] ]}
  /\ upToDate
       (tagMapAnswer (Demo.tracking None Demo.allOn)
          (Some {[ js "female:big breasts" := mkTagItem [24040; 20083] ]})
          (Some (js "abc")))
       Demo.bigBreasts.
Proof.
  destruct (tagMapAnswer_refresh (Demo.tracking None Demo.allOn)
              (Some (js "abc"))) as [_ H].
  specialize (H {[ js "female:big breasts" := mkTagItem [24040; 20083] ]}).
  cbv zeta in H. destruct H as (Hmap & _ & _ & _ & _ & _ & Htags & Hup).
  split.
  - rewrite Hmap. by rewrite map_fmap_singleton.
  - apply Hup.
    + by_compute.
    + rewrite Htags. by_compute.
Defined.

Lemma loading_dispatches_once_witness :
  documentEnd Demo.fresh = false
  /\ observe 0 Demo.fresh [5; 7]
     = Some (translateNode (translateNode Demo.fresh 5) 7, [5; 7]).
Proof.
  split; [reflexivity|].
  apply (loading_dispatches_once 0 Demo.fresh [5; 7] []). reflexivity.
Defined.

Lemma text_node_translation_witness :
  isText (doc Demo.fresh) 7 = true
  /\ dataOf (doc (translateUi Demo.fresh 7)) 7 = [39318; 39029].
Proof.
  split; [reflexivity|].
  pose proof (text_node_translation Demo.fresh 7 eq_refl) as H.
  cbv zeta in H. destruct H as [H _]. rewrite H. reflexivity.
Defined.

Lemma suggestions_untouched_witness :
  parentElement (doc Gallery.fresh) 17 = Some 16
  /\ translateNode Gallery.fresh 17 = Gallery.fresh.
Proof.
  split; [reflexivity|].
  apply (suggestions_untouched Gallery.fresh 17 16); reflexivity.
Defined.

Lemma tracker_invariant_witness :
  exists sv',
    (init 40 Demo.fresh
       ≫= fun p => run 40 p.1 [DOMContentLoaded; Mutations [[3]];
                              ConfigChanged (Some Demo.tagsOff)])
    = Some sv'
    /\ NoDup (parent <$> tags sv') /\ length (tags sv') = 1%nat.
Proof.
  assert (Hfresh : freshIds (doc Demo.fresh))
    by (apply freshIds_bound; by_compute).
  set (es := [DOMContentLoaded; Mutations [[3]];
              ConfigChanged (Some Demo.tagsOff)]).
  set (p := default (Demo.fresh, []) (init 40 Demo.fresh)).
  set (sv' := default Demo.fresh (run 40 p.1 es)).
  assert (Hinit : init 40 Demo.fresh = Some (p.1, p.2))
    by (vm_compute; reflexivity).
  assert (Hrun : run 40 p.1 es = Some sv') by (vm_compute; reflexivity).
  exists sv'. split; [vm_compute; reflexivity|].
  destruct (tracker_invariant 40 es Demo.fresh p.1 sv' p.2 Hfresh eq_refl
              Hinit Hrun) as [Hnd _].
  split; [exact Hnd | vm_compute; reflexivity].
Defined.



Lemma optgroup_label_witness :
  reflected (doc (translateUi Gallery.fresh 15)) 15 (js "label")
  = [39318; 39029].
Proof.
  pose proof (optgroup_label Gallery.fresh 15 eq_refl eq_refl) as H.
  cbv zeta in H. destruct H as [H _]. rewrite H. reflexivity.
Defined.

Lemma nav_link_translation_witness :
  textContentOf (translateUi Gallery.fresh 5) 5 = [39318; 39029].
Proof.
  pose proof (nav_link_translation Gallery.fresh 5 eq_refl eq_refl) as H.
  cbv zeta in H. destruct H as [_ H]. destruct (H eq_refl) as [Ht _].
  rewrite Ht. reflexivity.
Defined.

Lemma page_counter_copy_witness :
  childNodesOf (doc (translateUi Gallery.fresh 7)) 2
  = [3; 18; 7; 9; 11; 14; 16]
  /\ getAttribute (doc (translateUi Gallery.fresh 7)) 7 (js "style")
     = Some (js "display: none;").
Proof.
  assert (Hfresh : freshIds (doc Gallery.fresh))
    by (apply freshIds_bound; by_compute).
  pose proof (page_counter_copy Gallery.fresh 7 2 Hfresh eq_refl eq_refl
                eq_refl eq_refl) as H.
  cbv zeta in H. destruct H as (_ & Hch & _ & _ & Hstyle & _).
  split; [|apply Hstyle; reflexivity].
  apply (Hch [3] [9; 11; 14; 16]); [reflexivity | by_compute].
Defined.

Lemma downloader_copy_witness :
  childNodesOf (doc (translateUi Gallery.fresh 9)) 9 = [10; 18]
  /\ nodes (doc (translateUi Gallery.fresh 9)) !! 18
     = Some (mkDomNode ELEMENT_NODE (js "DIV") (Some 9) []
               {[ js "style" := js "display: none;" ]} [] []
               (Some (ByTextContent (js "Length:"))) [] []).
Proof.
  assert (Hfresh : freshIds (doc Gallery.fresh))
    by (apply freshIds_bound; by_compute).
  pose proof (downloader_copy Gallery.fresh 9 Hfresh eq_refl eq_refl
                eq_refl eq_refl) as H.
  cbv zeta in H. destruct H as (Hnew & Hch & _).
  split; [exact Hch | exact Hnew].
Defined.

Lemma selector_copy_witness :
  childNodesOf (doc (translateUi Gallery.fresh 12)) 11 = [18; 12]
  /\ parentNodeOf (doc (translateUi Gallery.fresh 12)) 12 = Some 11.
Proof.
  assert (Hfresh : freshIds (doc Gallery.fresh))
    by (apply freshIds_bound; by_compute).
  assert (Hid : reflected (doc Gallery.fresh) 12 (js "id") ≠ js "gdd")
    by done.
  pose proof (selector_copy Gallery.fresh 12 11 Hfresh eq_refl eq_refl Hid
                eq_refl eq_refl eq_refl eq_refl) as H.
  cbv zeta in H. destruct H as (_ & Hch & _ & _ & Hpar & _).
  split; [|exact Hpar].
  apply (Hch [] []); [reflexivity | apply not_elem_of_nil].
Defined.

Lemma tracking_only_in_containers_witness :
  tags (translateNode Demo.fresh 5) ≠ tags Demo.fresh
  /\ exists p, parentElement (doc Demo.fresh) 5 = Some p
               /\ keyless Demo.fresh p = false.
Proof.
  assert (Hch : tags (translateNode Demo.fresh 5) ≠ tags Demo.fresh)
    by (vm_compute; discriminate).
  split; [exact Hch|].
  destruct (tracking_only_in_containers Demo.fresh 5 Hch)
    as (_ & _ & p & Hp & _ & _ & _ & Hkey).
  exists p. split; [exact Hp | exact Hkey].
Defined.

Lemma ui_off_changes_tag_text_only_witness :
  ConfigData.translateUi (config Demo.arriving) = false
  /\ translateNode Demo.arriving 3 = Demo.arriving.
Proof.
  split; [reflexivity|].
  apply (ui_off_changes_tag_text_only Demo.arriving 3 eq_refl eq_refl).
  vm_compute; reflexivity.
Defined.
